(** * node-progress: ProgressBar, ProgressStream and speedometer

    A shallow embedding of [src/ProgressBar.ts] and [src/utils.ts] (the
    helper functions the bar uses, the [ProgressStream] transform and the
    [speedometer]), followed by the properties of the specification stated
    on it, and by further properties of the code: for these the
    embedding goes on with the [ProgressBar] that closes [utils.ts] (the
    one the distributed build ships) and with the discovery of a total
    from a piped source ([getContentLength] and the ['pipe'] listener).
    The formatting helper [fmtSize] is left out: it rests on
    floating-point logarithms.

    Conventions of the embedding.
    - A JavaScript number is a [number]: an exact rational, the two
      infinities or NaN.  Finite results are exact (binary64 rounding and
      overflow are not modelled) and the two zeros are identified, so that
      [x / 0] takes the sign of [x].  A property whose conclusion depends
      on the rounding carries the bounds within which the exact result is
      the one the code computes: integers up to 2^53, and values away
      from the halves at which a rounding decides.
    - A JavaScript string is a [jsstring], the list of its UTF-16 code
      units; [length] is the [.length] property.
    - [Date.now()] is an input of every operation that reads the clock, in
      integral milliseconds.
    - Methods are computations in the monad [M]: they thread the object and
      the trace of calls made on collaborators (the output stream, the
      listeners), and may throw. *)

From Stdlib Require Import ZArith QArith Qabs Qround Bool List Lia Lqa.
From Stdlib Require Import Ascii String DecimalString.
From Stdlib Require DecimalPos.
Import ListNotations.

Set Implicit Arguments.

(** [length] is the length of a list throughout. *)
Abbreviation length := List.length (only parsing).

(* ================================================================= *)
(** ** JavaScript numbers *)

Module Num.

Inductive number : Type :=
| Fin (q : Q)
| PInf
| NInf
| NaN.

Definition of_Z (z : Z) : number := Fin (inject_Z z).
Definition of_nat (n : nat) : number := of_Z (Z.of_nat n).

Definition zero : number := of_Z 0.
Definition one : number := of_Z 1.

Definition Qzero (q : Q) : bool := Qeq_bool q 0.
Definition Qpos (q : Q) : bool := negb (Qle_bool q 0).
Definition Qneg (q : Q) : bool := negb (Qle_bool 0 q).

(** The infinity of the given sign. *)
Definition inf (positive : bool) : number := if positive then PInf else NInf.

Definition neg (a : number) : number :=
  match a with
  | Fin q => Fin (Qred (- q))
  | PInf => NInf
  | NInf => PInf
  | NaN => NaN
  end.

Definition add (a b : number) : number :=
  match a, b with
  | NaN, _ | _, NaN => NaN
  | Fin p, Fin q => Fin (Qred (p + q))
  | PInf, NInf | NInf, PInf => NaN
  | PInf, _ | _, PInf => PInf
  | NInf, _ | _, NInf => NInf
  end.

Definition sub (a b : number) : number := add a (neg b).

Definition mul (a b : number) : number :=
  match a, b with
  | NaN, _ | _, NaN => NaN
  | Fin p, Fin q => Fin (Qred (p * q))
  | Fin p, PInf | PInf, Fin p =>
      if Qzero p then NaN else inf (Qpos p)
  | Fin p, NInf | NInf, Fin p =>
      if Qzero p then NaN else inf (Qneg p)
  | PInf, PInf | NInf, NInf => PInf
  | PInf, NInf | NInf, PInf => NInf
  end.

(** [a / b]: a finite non-zero number over zero is an infinity, [0 / 0]
    is NaN. *)
Definition div (a b : number) : number :=
  match a, b with
  | NaN, _ | _, NaN => NaN
  | Fin p, Fin q =>
      if Qzero q
      then (if Qzero p then NaN else inf (Qpos p))
      else Fin (Qred (p / q))
  | Fin _, (PInf | NInf) => zero
  | PInf, Fin q => inf (negb (Qneg q))
  | NInf, Fin q => inf (Qneg q)
  | (PInf | NInf), (PInf | NInf) => NaN
  end.

(** Comparisons; every comparison with NaN is false. *)
Definition lt (a b : number) : bool :=
  match a, b with
  | NaN, _ | _, NaN => false
  | Fin p, Fin q => negb (Qle_bool q p)
  | NInf, NInf | PInf, _ => false
  | NInf, _ => true
  | Fin _, PInf => true
  | Fin _, NInf => false
  end.

Definition eqb (a b : number) : bool :=
  match a, b with
  | Fin p, Fin q => Qeq_bool p q
  | PInf, PInf | NInf, NInf => true
  | _, _ => false
  end.

Definition le (a b : number) : bool := lt a b || eqb a b.
Definition gt (a b : number) : bool := lt b a.
Definition ge (a b : number) : bool := le b a.

Definition isNaN (a : number) : bool :=
  match a with NaN => true | _ => false end.

Definition isFinite (a : number) : bool :=
  match a with Fin _ => true | _ => false end.

(** [Math.round]: the nearest integer, ties towards +Infinity. *)
Definition Math_round (a : number) : number :=
  match a with
  | Fin q => of_Z (Qfloor (q + (1 # 2)))
  | _ => a
  end.

Definition Math_max (a b : number) : number :=
  match a, b with
  | NaN, _ | _, NaN => NaN
  | _, _ => if lt a b then b else a
  end.

Definition Math_min (a b : number) : number :=
  match a, b with
  | NaN, _ | _, NaN => NaN
  | _, _ => if lt b a then b else a
  end.

(** [Math.pow(10, n)] for a natural exponent. *)
Definition pow10 (n : nat) : number := of_Z (10 ^ Z.of_nat n).

(** Truthiness of a number: neither zero nor NaN. *)
Definition truthy (a : number) : bool :=
  match a with
  | Fin q => negb (Qzero q)
  | NaN => false
  | _ => true
  end.

(** The natural number a number denotes, when it is a non-negative
    integer. *)
Definition to_nat (a : number) : option nat :=
  match a with
  | Fin q =>
      let r := Qred q in
      if (Qden r =? 1)%positive && (0 <=? Qnum r)%Z
      then Some (Z.to_nat (Qnum r)) else None
  | _ => None
  end.

(** [ToIntegerOrInfinity] clamped into [0, len], as the string methods
    apply it to a position argument. *)
Definition to_position (a : number) (len : nat) : nat :=
  match a with
  | Fin q => Nat.min (Z.to_nat (Qfloor q)) len
  | PInf => len
  | _ => 0
  end.

End Num.
Export Num.

Declare Scope num_scope.
Delimit Scope num_scope with num.
Bind Scope num_scope with number.
Infix "+" := Num.add : num_scope.
Infix "-" := Num.sub : num_scope.
Infix "*" := Num.mul : num_scope.
Infix "/" := Num.div : num_scope.
Infix "<?" := Num.lt : num_scope.
Infix "<=?" := Num.le : num_scope.
Infix ">?" := Num.gt : num_scope.
Infix ">=?" := Num.ge : num_scope.
Infix "=?" := Num.eqb : num_scope.

(* ================================================================= *)
(** ** JavaScript strings *)

Module Str.

(** A UTF-16 code unit. *)
Definition jschar : Type := N.
Definition jsstring : Type := list jschar.

(** The string with the code units of an ASCII literal. *)
Definition str (s : string) : jsstring :=
  map N_of_ascii (list_ascii_of_string s).

Fixpoint eqb (s t : jsstring) : bool :=
  match s, t with
  | [], [] => true
  | c :: s', d :: t' => N.eqb c d && eqb s' t'
  | _, _ => false
  end.

Fixpoint starts_with (pat s : jsstring) : bool :=
  match pat, s with
  | [], _ => true
  | p :: pat', c :: s' => N.eqb p c && starts_with pat' s'
  | _ :: _, [] => false
  end.

(** [s.indexOf(pat)]: the position of the first occurrence. *)
Fixpoint indexOf (pat s : jsstring) : option nat :=
  if starts_with pat s then Some O
  else match s with
       | [] => None
       | _ :: s' => option_map S (indexOf pat s')
       end.

Definition includes (s pat : jsstring) : bool :=
  match indexOf pat s with Some _ => true | None => false end.

Definition dollar : jschar := 36%N.
Definition ampersand : jschar := 38%N.
Definition quote : jschar := 39%N.
Definition backtick : jschar := 96%N.

(** [GetSubstitution] for a string pattern (no capture groups): in the
    replacement text [$$] stands for a dollar sign, [$&] for the matched
    text, [$`] and [$'] for the text before and after the match; every
    other character, a lone [$] included, stands for itself. *)
Fixpoint GetSubstitution (before matched after replacement : jsstring)
  : jsstring :=
  match replacement with
  | [] => []
  | c :: rest =>
      if N.eqb c dollar then
        match rest with
        | [] => [c]
        | d :: rest' =>
            if N.eqb d dollar then
              dollar :: GetSubstitution before matched after rest'
            else if N.eqb d ampersand then
              matched ++ GetSubstitution before matched after rest'
            else if N.eqb d backtick then
              before ++ GetSubstitution before matched after rest'
            else if N.eqb d quote then
              after ++ GetSubstitution before matched after rest'
            else c :: GetSubstitution before matched after rest
        end
      else c :: GetSubstitution before matched after rest
  end.

(** [s.replace(pat, replacement)] with a string pattern: the first
    occurrence only. *)
Definition replace (s pat replacement : jsstring) : jsstring :=
  match indexOf pat s with
  | None => s
  | Some i =>
      let before := firstn i s in
      let after := skipn (i + length pat) s in
      before ++ GetSubstitution before pat after replacement ++ after
  end.

(** [s.slice(0, -1)]. *)
Definition slice_0_m1 (s : jsstring) : jsstring := removelast s.

(** [s.substring(0, e)]. *)
Definition substring_0 (s : jsstring) (e : number) : jsstring :=
  firstn (to_position e (length s)) s.

(** [s.charAt(0)]. *)
Definition charAt_0 (s : jsstring) : jsstring := firstn 1 s.

(** [n] copies of [c], concatenated. *)
Fixpoint copies (n : nat) (c : jsstring) : jsstring :=
  match n with
  | O => []
  | S n' => c ++ copies n' c
  end.

(** The decimal digits of a natural number. *)
Definition digits (n : N) : jsstring :=
  str (NilZero.string_of_uint (N.to_uint n)).

(** The number of occurrences of a code unit. *)
Definition count (c : jschar) (s : jsstring) : nat :=
  length (filter (N.eqb c) s).

End Str.
Export Str.

(* ================================================================= *)
(** ** What the host provides *)

(** A terminal or file stream, as far as the bar looks at it: whether it
    is a TTY, its column count, and whether it has a [clearLine] method
    (the bar tests for it before clearing the line on completion).  [write]
    and [cursorTo] are taken to exist. *)
Record WriteStream : Type := {
  isTTY : bool;
  columns : number;
  has_clearLine : bool
}.

(** [Number.prototype.toString] in radix 10, the platform test
    [platform() == 'win32'] of [ProgressBar.ts] and [process.stderr]. *)
Class Host : Type := {
  Number_toString : number -> jsstring;
  IS_WINDOWS : bool;
  process_stderr : WriteStream;
  (** A printed number holds no dollar sign. *)
  Number_toString_plain :
    forall x, existsb (N.eqb dollar) (Number_toString x) = false
}.

Section NumberFormat.
Context {host : Host}.

(** [x.toFixed(f)]: the decimal expansion rounded to [f] fraction
    digits (ties away from zero), the sign kept; numbers of magnitude
    1e21 and more are printed by [toString]. *)
Definition toFixed (x : number) (f : nat) : jsstring :=
  match x with
  | NaN => str "NaN"
  | PInf => str "Infinity"
  | NInf => str "-Infinity"
  | Fin q =>
      if Qle_bool (inject_Z (10 ^ 21)) (Qabs q) then Number_toString x
      else
        let sign := if Qle_bool 0 q then [] else str "-" in
        let n := Qfloor (Qabs q * inject_Z (10 ^ Z.of_nat f) + (1 # 2)) in
        let m := digits (Z.to_N n) in
        match f with
        | O => sign ++ m
        | S _ =>
            let m' := copies (S f - length m) (str "0") ++ m in
            let k := (length m' - f)%nat in
            sign ++ firstn k m' ++ str "." ++ skipn k m'
        end
  end.

End NumberFormat.

(* ================================================================= *)
(** ** Values, errors and the monad of methods *)

(** The values an untyped argument can take. *)
Inductive value : Type :=
| Undefined
| Null
| Num (n : number)
| Text (s : jsstring)
| Boolean (b : bool).

Inductive error : Type :=
| Error (message : string)
| TypeError (message : string)
| RangeError (message : string).

Inductive result (A : Type) : Type :=
| Ok (a : A)
| Throw (e : error).
Arguments Ok {A} a.
Arguments Throw {A} e.

(** A method on an object of type [S]: it returns or throws, and leaves
    the object in a new state either way. *)
Definition M (S A : Type) : Type := S -> result A * S.

Definition ret {S A} (a : A) : M S A := fun s => (Ok a, s).
Definition throw {S A} (e : error) : M S A := fun s => (Throw e, s).
Definition bind {S A B} (c : M S A) (k : A -> M S B) : M S B :=
  fun s => match c s with
           | (Ok a, s') => k a s'
           | (Throw e, s') => (Throw e, s')
           end.
Definition get {S} : M S S := fun s => (Ok s, s).
Definition modify {S} (f : S -> S) : M S unit := fun s => (Ok tt, f s).
Definition when {S} (b : bool) (c : M S unit) : M S unit :=
  if b then c else ret tt.

Declare Scope method_scope.
Delimit Scope method_scope with method.
Notation "x <- c ;; k" := (bind c (fun x => k))
  (at level 61, c at next level, right associativity) : method_scope.
Notation "c ;; k" := (bind c (fun _ => k))
  (at level 61, right associativity) : method_scope.

(** The state a method leaves behind and what it returned. *)
Definition state_of {S A} (r : result A * S) : S := snd r.
Definition outcome_of {S A} (r : result A * S) : result A := fst r.

(* ================================================================= *)
(** ** utils.ts: the helper functions *)

Module Utils.

(** [round(num, precision)]. *)
Definition round (num : number) (precision : nat) : number :=
  match precision with
  | O => Math_round num
  | _ => let n := pow10 precision in (Math_round (num * n) / n)%num
  end.

(** [isNumber(v)], a type guard: the number [v] is when it holds. *)
Definition as_number (v : value) : option number :=
  match v with
  | Num n => if isNaN n then None else Some n
  | _ => None
  end.

Definition isNumber (v : value) : bool :=
  match as_number v with Some _ => true | None => false end.

(** [clamp(v, min, max)]. *)
Definition clamp (v : value) (min : number) (max : value) : number :=
  match as_number v with
  | Some n =>
      let n := Math_max n min in
      match as_number max with
      | Some mx => Math_min n mx
      | None => n
      end
  | None => min
  end.

(** [repeat(n, c) = Array(n).join(c)]: [Array(n)] throws unless [n] is an
    array length, and joining [n] empty slots gives [n - 1] separators. *)
Definition repeat {S} (n : number) (c : jsstring) : M S jsstring :=
  match to_nat n with
  | Some k =>
      if (Z.of_nat k <? 2 ^ 32)%Z then ret (copies (pred k) c)
      else throw (RangeError "Invalid array length")
  | None => throw (RangeError "Invalid array length")
  end.

(** [getChar(s)] for an optional string. *)
Definition getChar (s : option jsstring) : option jsstring :=
  match s with
  | Some t => if (1 <=? length t)%nat then Some (charAt_0 t) else Some t
  | None => None
  end.

End Utils.
Export Utils.

(* ================================================================= *)
(** ** types.ts: the progress snapshot *)

Module Progress.

Record t : Type := mk {
  percent : number;
  current : number;
  total : number;
  remaining : number;
  eta : number;
  runtime : number;
  speed : number
}.

Definition with_percent (v : number) (p : t) : t :=
  mk v (current p) (total p) (remaining p) (eta p) (runtime p) (speed p).
Definition with_current (v : number) (p : t) : t :=
  mk (percent p) v (total p) (remaining p) (eta p) (runtime p) (speed p).
Definition with_total (v : number) (p : t) : t :=
  mk (percent p) (current p) v (remaining p) (eta p) (runtime p) (speed p).
Definition with_remaining (v : number) (p : t) : t :=
  mk (percent p) (current p) (total p) v (eta p) (runtime p) (speed p).
Definition with_eta (v : number) (p : t) : t :=
  mk (percent p) (current p) (total p) (remaining p) v (runtime p) (speed p).
Definition with_runtime (v : number) (p : t) : t :=
  mk (percent p) (current p) (total p) (remaining p) (eta p) v (speed p).
Definition with_speed (v : number) (p : t) : t :=
  mk (percent p) (current p) (total p) (remaining p) (eta p) (runtime p) v.

End Progress.

(** The test both [total] setters and both constructors apply:
    [!isNumber(v) || !isFinite(v) || v <= 0]. *)
Definition invalid_total (v : value) : bool :=
  match as_number v with
  | None => true
  | Some n => negb (isFinite n) || (n <=? zero)%num
  end.

(** [!isNumber(v) || !isFinite(v) || v < 0], the constructors' test of
    [interval]. *)
Definition invalid_interval (v : value) : bool :=
  match as_number v with
  | None => true
  | Some n => negb (isFinite n) || (n <? zero)%num
  end.

(** [v != null]. *)
Definition not_null (v : value) : bool :=
  match v with
  | Undefined | Null => false
  | _ => true
  end.

(** [v ?? d] for an optional value. *)
Definition nullish {A} (v : option A) (d : A) : A :=
  match v with Some a => a | None => d end.

Definition option_value (v : option number) : value :=
  match v with Some n => Num n | None => Undefined end.

(* ================================================================= *)
(** ** ProgressBar.ts *)

(** The options of the constructor.  [total] and [interval] are values of
    any type, as the constructor tests them; the [onComplete] callback is
    not a field here: its invocations are recorded in the trace. *)
Module ProgressBarOptions.

Record t : Type := {
  format : option jsstring;
  total : value;
  current : option number;
  width : option number;
  minWidth : option number;
  interval : value;
  stream : option WriteStream;
  clear : option bool;
  completeChar : option jsstring;
  incompleteChar : option jsstring;
  line : option number;
  formatValue : option (number -> jsstring)
}.

End ProgressBarOptions.

Module ProgressBar.

(** The calls a bar makes on its collaborators: the three methods of the
    stream and the completion listener. *)
Inductive Call : Type :=
| write (s : jsstring)
| cursorTo (x : number) (y : option number)
| clearLine (dir : Z)
| onComplete.

(** [Record<string, string>], as [Object.entries] lists it. *)
Definition Tokens : Type := list (jsstring * jsstring).

(** The private fields of the class, and [trace]: the calls made so far,
    the latest first. *)
Record t : Type := mk {
  tokens : option Tokens;
  lastDraw : jsstring;
  completed : bool;
  format : jsstring;
  width : option number;
  minWidth : number;
  stream : WriteStream;
  clear : bool;
  completeChar : jsstring;
  incompleteChar : jsstring;
  line : option number;
  formatValue : number -> jsstring;
  interval : number;
  total : option number;
  prevTime : option number;
  startTime : number;
  endTime : number;
  progress : Progress.t;
  trace : list Call
}.

Definition with_tokens (v : option Tokens) (s : t) : t :=
  mk v (lastDraw s) (completed s) (format s) (width s) (minWidth s)
     (stream s) (clear s) (completeChar s) (incompleteChar s) (line s)
     (formatValue s) (interval s) (total s) (prevTime s) (startTime s)
     (endTime s) (progress s) (trace s).
Definition with_lastDraw (v : jsstring) (s : t) : t :=
  mk (tokens s) v (completed s) (format s) (width s) (minWidth s)
     (stream s) (clear s) (completeChar s) (incompleteChar s) (line s)
     (formatValue s) (interval s) (total s) (prevTime s) (startTime s)
     (endTime s) (progress s) (trace s).
Definition with_completed (v : bool) (s : t) : t :=
  mk (tokens s) (lastDraw s) v (format s) (width s) (minWidth s)
     (stream s) (clear s) (completeChar s) (incompleteChar s) (line s)
     (formatValue s) (interval s) (total s) (prevTime s) (startTime s)
     (endTime s) (progress s) (trace s).
Definition with_total (v : option number) (s : t) : t :=
  mk (tokens s) (lastDraw s) (completed s) (format s) (width s)
     (minWidth s) (stream s) (clear s) (completeChar s) (incompleteChar s)
     (line s) (formatValue s) (interval s) v (prevTime s) (startTime s)
     (endTime s) (progress s) (trace s).
Definition with_prevTime (v : option number) (s : t) : t :=
  mk (tokens s) (lastDraw s) (completed s) (format s) (width s)
     (minWidth s) (stream s) (clear s) (completeChar s) (incompleteChar s)
     (line s) (formatValue s) (interval s) (total s) v (startTime s)
     (endTime s) (progress s) (trace s).
Definition with_startTime (v : number) (s : t) : t :=
  mk (tokens s) (lastDraw s) (completed s) (format s) (width s)
     (minWidth s) (stream s) (clear s) (completeChar s) (incompleteChar s)
     (line s) (formatValue s) (interval s) (total s) (prevTime s) v
     (endTime s) (progress s) (trace s).
Definition with_endTime (v : number) (s : t) : t :=
  mk (tokens s) (lastDraw s) (completed s) (format s) (width s)
     (minWidth s) (stream s) (clear s) (completeChar s) (incompleteChar s)
     (line s) (formatValue s) (interval s) (total s) (prevTime s)
     (startTime s) v (progress s) (trace s).
Definition with_progress (v : Progress.t) (s : t) : t :=
  mk (tokens s) (lastDraw s) (completed s) (format s) (width s)
     (minWidth s) (stream s) (clear s) (completeChar s) (incompleteChar s)
     (line s) (formatValue s) (interval s) (total s) (prevTime s)
     (startTime s) (endTime s) v (trace s).
Definition with_trace (v : list Call) (s : t) : t :=
  mk (tokens s) (lastDraw s) (completed s) (format s) (width s)
     (minWidth s) (stream s) (clear s) (completeChar s) (incompleteChar s)
     (line s) (formatValue s) (interval s) (total s) (prevTime s)
     (startTime s) (endTime s) (progress s) v.

(** Make a call on a collaborator. *)
Definition call (c : Call) : M t unit :=
  modify (fun s => with_trace (c :: trace s) s).

(** [this.#stream.clearLine(dir)]; a stream without the method makes the
    call a TypeError. *)
Definition stream_clearLine (dir : Z) : M t unit :=
  (s <- get ;;
   if has_clearLine (stream s) then call (clearLine dir)
   else throw (TypeError "this.#stream.clearLine is not a function"))%method.

Definition C_COMPLETE : jsstring := [9608%N].
Definition C_INCOMPLETE : jsstring := [9617%N].
Definition MIN_WIDTH : number := of_Z 20.
Definition newline : jsstring := [10%N].

(** [get completed()], [get total()] and [get progress()]. *)
Definition get_completed (s : t) : bool := completed s.
Definition get_total (s : t) : number := nullish (total s) zero.
Definition get_progress (s : t) : Progress.t := progress s.

(** [set total(v)]. *)
Definition set_total (v : value) : M t unit :=
  if invalid_total v
  then throw (Error "total value must be a finite positive number")
  else match as_number v with
       | Some n =>
           modify (fun s =>
             with_progress (Progress.with_total n (progress s))
                           (with_total (Some n) s))
       | None => ret tt
       end.

(** [#update()]. *)
Definition update : M t unit :=
  modify (fun s =>
    let current := Progress.current (progress s) in
    let runtime := ((endTime s - startTime s) / of_Z 1000)%num in
    let p := Progress.with_runtime (round runtime 3) (progress s) in
    let p :=
      match total s with
      | Some total =>
          let p :=
            Progress.with_percent
              (round (current / total * of_Z 100)%num 3) p in
          let remaining := (total - current)%num in
          let p := Progress.with_remaining remaining p in
          if (runtime >? zero)%num then
            let speed := (current / runtime)%num in
            let p := Progress.with_speed (round speed 3) p in
            Progress.with_eta (round (remaining / speed)%num 3) p
          else p
      | None => p
      end in
    let s := with_progress p s in
    if (current >=? Progress.total p)%num
    then with_completed true s else s).

(** [#complete()]. *)
Definition complete : M t unit :=
  (s <- get ;;
   if negb (completed s) then ret tt
   else
     (if clear s then
        when (has_clearLine (stream s))
             (call (clearLine (-1)) ;; call (cursorTo zero (line s)))
      else call (write newline)) ;;
     call onComplete)%method.

Section Rendering.
Context {host : Host}.

(** The first statement of [#render()] after the TTY test: the built-in
    tokens, then the custom ones. *)
Definition render_tokens (s : t) : jsstring :=
  let p := progress s in
  let output := format s in
  let output :=
    replace output (str "{current}") (formatValue s (Progress.current p)) in
  let output :=
    replace output (str "{total}") (formatValue s (Progress.total p)) in
  let output :=
    replace output (str "{elapsed}") (toFixed (Progress.runtime p) 1) in
  let output :=
    replace output (str "{eta}")
            (toFixed (Progress.eta p / of_Z 1000)%num 1) in
  let output :=
    replace output (str "{percent}")
            (toFixed (Progress.percent p) 1 ++ str "%") in
  let output :=
    replace output (str "{speed}")
            (formatValue s (round (Progress.speed p) 2)) in
  match tokens s with
  | Some entries =>
      fold_left
        (fun output kv =>
           replace output (str "[" ++ fst kv ++ str "]") (snd kv))
        entries output
  | None => output
  end.

(** The space left for the bar when the line has [columns] columns and
    the rest of the frame is [len] long. *)
Definition available_space (columns len : number) : number :=
  let availableSpace := Math_max zero (columns - len)%num in
  if IS_WINDOWS && (availableSpace >=? one)%num
  then (availableSpace - one)%num else availableSpace.

(** The width of the bar in that space. *)
Definition bar_width (s : t) (availableSpace : number) : number :=
  let minWidth :=
    if (minWidth s >? availableSpace)%num then availableSpace
    else minWidth s in
  clamp (Num (nullish (width s) PInf)) minWidth (Num availableSpace).

Definition bar_ratio (s : t) : number :=
  let p := progress s in
  if (Progress.total p =? zero)%num then zero
  else (Progress.current p / Progress.total p)%num.

(** The text that takes the place of [{bar}]. *)
Definition bar_text (s : t) (availableSpace : number) : M t jsstring :=
  (let width := bar_width s availableSpace in
   let completeLength := Math_round (width * bar_ratio s)%num in
   incomplete <-
     repeat (Math_max zero (width - completeLength + one)%num)
            (incompleteChar s) ;;
   complete <-
     repeat (Math_max zero (completeLength + one)%num) (completeChar s) ;;
   let complete :=
     if (completeLength >? zero)%num
     then slice_0_m1 complete ++ completeChar s else complete in
   ret (complete ++ incomplete))%method.

(** The frame: the line [#render()] is about to draw. *)
Definition frame (s : t) : M t jsstring :=
  (let output := render_tokens s in
   let columns := columns (stream s) in
   let nonbarContent := replace output (str "{bar}") [] in
   let len := of_nat (length nonbarContent) in
   if (columns >? len)%num then
     bar <- bar_text s (available_space columns len) ;;
     ret (replace output (str "{bar}") bar)
   else
     ret (if (columns =? len)%num then nonbarContent
          else substring_0 nonbarContent (columns - one)%num))%method.

(** [#render()]. *)
Definition render : M t unit :=
  (s <- get ;;
   if negb (isTTY (stream s)) then ret tt
   else
     output <- frame s ;;
     when (negb (Str.eqb (lastDraw s) output))
          (call (cursorTo zero (line s)) ;;
           call (write output) ;;
           stream_clearLine 1 ;;
           modify (with_lastDraw output)))%method.

(** [tick(current, customTokens)], when [Date.now()] is [now]. *)
Definition tick (current : option number) (customTokens : option Tokens)
           (now : Z) : M t unit :=
  (modify (fun s =>
     with_progress
       (Progress.with_current (nullish current one) (progress s)) s) ;;
   modify (with_tokens customTokens) ;;
   let now := of_Z now in
   modify (with_endTime now) ;;
   modify (fun s =>
     match prevTime s with
     | None => with_startTime now (with_prevTime (Some now) s)
     | Some _ => s
     end) ;;
   update ;;
   s <- get ;;
   let diff := (now - nullish (prevTime s) now)%num in
   when (diff >=? interval s)%num
        (modify (with_prevTime (Some now)) ;;
         render ;;
         complete))%method.

(** [interrupt(message)]. *)
Definition interrupt (message : jsstring) : M t unit :=
  (stream_clearLine 0 ;;
   s <- get ;;
   call (cursorTo zero (line s)) ;;
   call (write message) ;;
   call (write newline) ;;
   call (write (lastDraw s)))%method.

(** [new ProgressBar(options)]: the new bar, or the error thrown. *)
Definition constructor (options : option ProgressBarOptions.t)
  : result t :=
  let opt {A} (f : ProgressBarOptions.t -> option A) : option A :=
    match options with Some o => f o | None => None end in
  let val (f : ProgressBarOptions.t -> value) : value :=
    match options with Some o => f o | None => Undefined end in
  let interval := val ProgressBarOptions.interval in
  let total := val ProgressBarOptions.total in
  let line := opt ProgressBarOptions.line in
  if not_null interval && invalid_interval interval
  then Throw (TypeError "interval must be a number >= 0")
  else if not_null total && invalid_total total
  then Throw (TypeError "total must be a number > 0")
  else if match line with Some l => (l <? zero)%num | None => false end
  then Throw (Error "line must be >= 0")
  else
    let progress :=
      Progress.mk zero (nullish (opt ProgressBarOptions.current) zero)
                  (nullish (as_number total) zero) zero zero zero zero in
    let format :=
      nullish (opt ProgressBarOptions.format) (str "{bar} {percent}") in
    Ok {| tokens := Some [];
          lastDraw := [];
          completed := false;
          format := if includes format (str "{bar}") then format
                    else str "{bar} " ++ format;
          width := opt ProgressBarOptions.width;
          minWidth :=
            clamp (option_value (opt ProgressBarOptions.minWidth))
                  MIN_WIDTH Undefined;
          stream := nullish (opt ProgressBarOptions.stream) process_stderr;
          clear := nullish (opt ProgressBarOptions.clear) false;
          completeChar :=
            nullish (getChar (opt ProgressBarOptions.completeChar))
                    C_COMPLETE;
          incompleteChar :=
            nullish (getChar (opt ProgressBarOptions.incompleteChar))
                    C_INCOMPLETE;
          line := line;
          formatValue :=
            nullish (opt ProgressBarOptions.formatValue) Number_toString;
          interval := clamp interval zero Undefined;
          total := as_number total;
          prevTime := None;
          startTime := zero;
          endTime := zero;
          progress := progress;
          trace := [] |}.

End Rendering.

End ProgressBar.

(* ================================================================= *)
(** ** utils.ts: ProgressStream *)

(** The options of the constructor; for the two listeners, whether one was
    given. *)
Module ProgressStreamOptions.

Record t : Type := {
  interval : value;
  total : value;
  current : option number;
  onProgress : bool;
  onTotal : bool
}.

End ProgressStreamOptions.

Module ProgressStream.

Definition Buffer : Type := list N.

(** What the transform does to the outside: chunks pushed downstream
    ([None] is the end-of-data mark), callbacks called back, events
    emitted and listeners of the options invoked. *)
Inductive Call : Type :=
| push (chunk : option Buffer)
| callback
| emit_total (v : number)
| onTotal (v : number)
| emit_progress (p : Progress.t)
| onProgress (p : Progress.t).

Record t : Type := mk {
  interval : number;
  prevTime : option number;
  startTime : number;
  endTime : number;
  total : option number;
  progress : Progress.t;
  has_onProgress : bool;
  has_onTotal : bool;
  trace : list Call
}.

Definition with_prevTime (v : option number) (s : t) : t :=
  mk (interval s) v (startTime s) (endTime s) (total s) (progress s)
     (has_onProgress s) (has_onTotal s) (trace s).
Definition with_startTime (v : number) (s : t) : t :=
  mk (interval s) (prevTime s) v (endTime s) (total s) (progress s)
     (has_onProgress s) (has_onTotal s) (trace s).
Definition with_endTime (v : number) (s : t) : t :=
  mk (interval s) (prevTime s) (startTime s) v (total s) (progress s)
     (has_onProgress s) (has_onTotal s) (trace s).
Definition with_total (v : option number) (s : t) : t :=
  mk (interval s) (prevTime s) (startTime s) (endTime s) v (progress s)
     (has_onProgress s) (has_onTotal s) (trace s).
Definition with_progress (v : Progress.t) (s : t) : t :=
  mk (interval s) (prevTime s) (startTime s) (endTime s) (total s) v
     (has_onProgress s) (has_onTotal s) (trace s).
Definition with_trace (v : list Call) (s : t) : t :=
  mk (interval s) (prevTime s) (startTime s) (endTime s) (total s)
     (progress s) (has_onProgress s) (has_onTotal s) v.

Definition call (c : Call) : M t unit :=
  modify (fun s => with_trace (c :: trace s) s).

Definition get_progress (s : t) : Progress.t := progress s.
Definition get_total (s : t) : number := nullish (total s) zero.

(** [set total(v)]. *)
Definition set_total (v : value) : M t unit :=
  if invalid_total v
  then throw (Error "total value must be a finite positive number")
  else match as_number v with
       | Some n =>
           (modify (fun s =>
              with_progress (Progress.with_total n (progress s))
                            (with_total (Some n) s)) ;;
            call (emit_total n) ;;
            s <- get ;;
            when (has_onTotal s) (call (onTotal n)))%method
       | None => ret tt
       end.

(** [new ProgressStream(options)], without the listener of ['pipe']
    that looks for a total in the piped source and assigns it through
    [set_total]. *)
Definition constructor (options : option ProgressStreamOptions.t)
  : result t :=
  let interval :=
    match options with
    | Some o => ProgressStreamOptions.interval o
    | None => Undefined
    end in
  let total :=
    match options with
    | Some o => ProgressStreamOptions.total o
    | None => Undefined
    end in
  let current :=
    match options with
    | Some o => ProgressStreamOptions.current o
    | None => None
    end in
  if not_null interval && invalid_interval interval
  then Throw (TypeError "interval must be a number >= 0")
  else if not_null total && invalid_total total
  then Throw (TypeError "total must be a number > 0")
  else
    Ok {| interval := nullish (as_number interval) zero;
          prevTime := None;
          startTime := zero;
          endTime := zero;
          total := as_number total;
          progress :=
            Progress.mk zero (nullish current zero)
                        (nullish (as_number total) zero)
                        (nullish (as_number total) zero) zero zero zero;
          has_onProgress :=
            match options with
            | Some o => ProgressStreamOptions.onProgress o
            | None => false
            end;
          has_onTotal :=
            match options with
            | Some o => ProgressStreamOptions.onTotal o
            | None => false
            end;
          trace := [] |}.

(** [#update()]. *)
Definition update : M t unit :=
  modify (fun s =>
    let current := Progress.current (progress s) in
    let runtime := ((endTime s - startTime s) / of_Z 1000)%num in
    let p := Progress.with_runtime (round runtime 3) (progress s) in
    let p :=
      match total s with
      | Some total =>
          let p :=
            Progress.with_percent
              (round (current / total * of_Z 100)%num 3) p in
          let remaining := (total - current)%num in
          let p := Progress.with_remaining remaining p in
          if (runtime >? zero)%num then
            let speed := (current / runtime)%num in
            let p := Progress.with_speed (round speed 3) p in
            Progress.with_eta (round (remaining / speed)%num 3) p
          else p
      | None => p
      end in
    with_progress p s).

(** [#emit()]. *)
Definition emit : M t unit :=
  (s <- get ;;
   when (has_onProgress s) (call (onProgress (get_progress s))) ;;
   call (emit_progress (get_progress s)))%method.

(** [_transform(chunk, encoding, callback)], when [Date.now()] is
    [now]. *)
Definition _transform (chunk : Buffer) (now : Z) : M t unit :=
  (call (push (Some chunk)) ;;
   call callback ;;
   modify (fun s =>
     with_progress
       (Progress.with_current
          (Progress.current (progress s) + of_nat (length chunk))%num
          (progress s)) s) ;;
   let now := of_Z now in
   modify (with_endTime now) ;;
   modify (fun s =>
     match prevTime s with
     | None => with_startTime now (with_prevTime (Some now) s)
     | Some _ => s
     end) ;;
   update ;;
   s <- get ;;
   let diff := (now - nullish (prevTime s) now)%num in
   when (diff >=? interval s)%num
        (modify (with_prevTime (Some now)) ;; emit))%method.

(** [_flush(callback)], when [Date.now()] is [now]. *)
Definition _flush (now : Z) : M t unit :=
  (modify (with_endTime (of_Z now)) ;;
   call (push None) ;;
   call callback ;;
   s <- get ;;
   when (interval s >? zero)%num
        (set_total (Num (Progress.current (progress s))) ;;
         update ;;
         emit))%method.

End ProgressStream.

(* ================================================================= *)
(** ** utils.ts: speedometer *)

Module Speedometer.

Definition MAX_TICK : Z := 65535.
Definition RESOLUTION : number := of_Z 4.

(** An array slot: [None] is [undefined], what reading an absent index
    gives. *)
Definition slot : Type := option number.

(** [ToNumber]: [undefined] is NaN in arithmetic. *)
Definition slot_number (v : slot) : number := nullish v NaN.

(** [buffer[i]] for a numeric [i]. *)
Definition array_get (buffer : list slot) (i : number) : slot :=
  match to_nat i with
  | Some k => nth k buffer None
  | None => None
  end.

(** [buffer[k] = v]: the array grows when [k] is past its end. *)
Fixpoint array_set (buffer : list slot) (k : nat) (v : slot) : list slot :=
  match k, buffer with
  | O, [] => [v]
  | O, _ :: rest => v :: rest
  | S k', [] => None :: array_set [] k' v
  | S k', x :: rest => x :: array_set rest k' v
  end.

(** The variables the closure [speed] captures, and whether the interval
    timer is still scheduled.  [pointer] is at least 1 between calls. *)
Record t : Type := mk {
  size : number;
  buffer : list slot;
  pointer : nat;
  tick : Z;
  last : Z;
  lastSpeed : slot;
  ended : bool;
  timer : bool
}.

(** [speedometer(seconds)]. *)
Definition speedometer (seconds : option number) : t :=
  let seconds := nullish seconds (of_Z 5) in
  let seconds := if truthy seconds then seconds else of_Z 5 in
  {| size := (RESOLUTION * seconds)%num;
     buffer := [Some zero];
     pointer := 1;
     tick := 1;
     last := Z.land (1 - 1) MAX_TICK;
     lastSpeed := Some zero;
     ended := false;
     timer := true |}.

(** The timer's callback runs, if the timer is still scheduled. *)
Definition interval_elapses (s : t) : t :=
  if timer s
  then mk (size s) (buffer s) (pointer s) (Z.land (tick s + 1) MAX_TICK)
          (last s) (lastSpeed s) (ended s) (timer s)
  else s.

(** [end()]. *)
Definition end_ (s : t) : t :=
  mk (size s) [] (pointer s) (tick s) (last s) (lastSpeed s) true false.

(** The body of [while (dist--)], [k] times. *)
Fixpoint shift (k : nat) (size : number) (buffer : list slot)
         (pointer : nat) : list slot * nat :=
  match k with
  | O => (buffer, pointer)
  | S k' =>
      let pointer := if (of_nat pointer =? size)%num then O else pointer in
      let from :=
        match pointer with
        | O => (size - one)%num
        | S p => of_nat p
        end in
      shift k' size (array_set buffer pointer (array_get buffer from))
            (S pointer)
  end.

(** A call either returns, leaving the closure in a new state, or never
    does. *)
Inductive run (A : Type) : Type :=
| Returns (a : A) (s : t)
| Diverges.
Arguments Returns {A} a s.
Arguments Diverges {A}.

(** [speed(delta)].  The loop [while (dist--)] ends only when it starts
    from a non-negative integer.  With [pointer] at 0 on entry, which no
    call leaves behind, [buffer[pointer - 1] += delta] would write the
    property [-1], outside the slots: the slots stay as they are. *)
Definition speed (delta : option number) (s : t) : run slot :=
  if ended s then Returns (lastSpeed s) s
  else
    match delta with
    | None => let s := end_ s in Returns (lastSpeed s) s
    | Some delta =>
        let dist := of_Z (Z.land (tick s - last s) MAX_TICK) in
        let dist := if (dist >? size s)%num then size s else dist in
        match to_nat dist with
        | None => Diverges
        | Some k =>
            let (buffer, pointer) := shift k (size s) (buffer s) (pointer s) in
            let buffer :=
              if truthy delta then
                match pointer with
                | S p =>
                    array_set buffer p
                      (Some (slot_number (nth p buffer None) + delta)%num)
                | O => buffer
                end
              else buffer in
            let top := array_get buffer (of_nat pointer - one)%num in
            let len := of_nat (length buffer) in
            let btm :=
              if (len <? size s)%num then Some zero
              else array_get buffer
                     (if (of_nat pointer =? size s)%num then zero
                      else of_nat pointer) in
            let lastSpeed :=
              if (len <? RESOLUTION)%num then top
              else Some ((slot_number top - slot_number btm) * RESOLUTION
                         / len)%num in
            Returns lastSpeed
                    (mk (size s) buffer pointer (tick s) (tick s) lastSpeed
                        (ended s) (timer s))
        end
    end.

End Speedometer.

(* ================================================================= *)
(** ** Runs of a progress bar *)

Module Run.
Import ProgressBar.

(** One call [tick(current, customTokens)] and the clock at that call. *)
Record TickCall : Type := {
  arg_current : option number;
  arg_tokens : option Tokens;
  at_time : Z
}.

Section WithHost.
Context {host : Host}.

Definition tick_call (c : TickCall) : M t unit :=
  tick (arg_current c) (arg_tokens c) (at_time c).

(** The calls of a list, one after the other; an exception ends the
    run. *)
Fixpoint ticks (calls : list TickCall) : M t unit :=
  match calls with
  | [] => ret tt
  | c :: rest => (tick_call c ;; ticks rest)%method
  end.

End WithHost.

(** How often the completion side-effect ran: it ends with the call of
    the listener. *)
Fixpoint completions (tr : list Call) : nat :=
  match tr with
  | [] => O
  | onComplete :: rest => S (completions rest)
  | _ :: rest => completions rest
  end.

(** What was written to the stream, the latest first. *)
Fixpoint writes (tr : list Call) : list jsstring :=
  match tr with
  | [] => []
  | write s :: rest => s :: writes rest
  | _ :: rest => writes rest
  end.

(** Whether a call at [now] passes the throttle gate, the last draw
    having been at [prev]. *)
Definition passes_gate (prev : option number) (interval : number) (now : Z)
  : bool :=
  (of_Z now - nullish prev (of_Z now) >=? interval)%num.

(** The number of calls of a run that pass the throttle gate once a
    call with [current >= total] has been seen ([seen] says whether one
    was seen before the run). *)
Fixpoint gate_passes_when_complete (seen : bool) (prev : option number)
         (interval total : number) (calls : list TickCall) : nat :=
  match calls with
  | [] => O
  | c :: rest =>
      let seen := seen || (nullish (arg_current c) one >=? total)%num in
      let pass := passes_gate prev interval (at_time c) in
      let prev :=
        if pass then Some (of_Z (at_time c))
        else Some (nullish prev (of_Z (at_time c))) in
      ((if pass && seen then 1 else 0)
       + gate_passes_when_complete seen prev interval total rest)%nat
  end.

(** Two states of a bar that differ at most in the last frame drawn and
    in the trace. *)
Definition same_but_drawn (s s' : t) : Prop :=
  with_lastDraw [] (with_trace [] s) = with_lastDraw [] (with_trace [] s').

(** The calls [#complete()] makes: none before completion; afterwards the
    line is cleared or ended and the listener called. *)
Definition completion_calls (s : t) : list Call :=
  if completed s then
    onComplete ::
    (if clear s then
       (if has_clearLine (stream s)
        then [cursorTo zero (line s); clearLine (-1)] else [])
     else [write newline])
  else [].

(** The bar as [tick] leaves it for the throttle gate. *)
Definition updated (current : option number) (customTokens : option Tokens)
           (now : Z) (s : t) : t :=
  let s := with_progress
             (Progress.with_current (nullish current one) (progress s)) s in
  let s := with_endTime (of_Z now) (with_tokens customTokens s) in
  let s :=
    match prevTime s with
    | None => with_startTime (of_Z now) (with_prevTime (Some (of_Z now)) s)
    | Some _ => s
    end in
  state_of (update s).

End Run.

(* ================================================================= *)
(** ** A host and bars for the examples *)

Module Examples.

(** A printer that agrees with JavaScript on the natural numbers below
    1e21, which is all the examples print. *)
Definition print_natural (x : number) : jsstring :=
  match to_nat x with
  | Some k => digits (N.of_nat k)
  | None => str "NaN"
  end.

Definition tty (cols : Z) : WriteStream :=
  {| isTTY := true; columns := of_Z cols; has_clearLine := true |}.

(** A stream that is not a terminal: a file or a pipe. *)
Definition pipe : WriteStream :=
  {| isTTY := false; columns := NaN; has_clearLine := false |}.

Definition options (total : value) (interval : value)
           (stream : WriteStream) : ProgressBarOptions.t :=
  {| ProgressBarOptions.format := None;
     ProgressBarOptions.total := total;
     ProgressBarOptions.current := None;
     ProgressBarOptions.width := None;
     ProgressBarOptions.minWidth := None;
     ProgressBarOptions.interval := interval;
     ProgressBarOptions.stream := Some stream;
     ProgressBarOptions.clear := None;
     ProgressBarOptions.completeChar := None;
     ProgressBarOptions.incompleteChar := None;
     ProgressBarOptions.line := None;
     ProgressBarOptions.formatValue := None |}.

(** The bar [new ProgressBar({ format, total, width, completeChar, stream })]
    builds on a host whose printer is [print_natural]. *)
Definition bar_with (format : jsstring) (total width : option number)
           (completeChar : jsstring) (stream : WriteStream)
  : ProgressBar.t :=
  {| ProgressBar.tokens := Some [];
     ProgressBar.lastDraw := [];
     ProgressBar.completed := false;
     ProgressBar.format := format;
     ProgressBar.width := width;
     ProgressBar.minWidth := ProgressBar.MIN_WIDTH;
     ProgressBar.stream := stream;
     ProgressBar.clear := false;
     ProgressBar.completeChar := completeChar;
     ProgressBar.incompleteChar := ProgressBar.C_INCOMPLETE;
     ProgressBar.line := None;
     ProgressBar.formatValue := print_natural;
     ProgressBar.interval := zero;
     ProgressBar.total := total;
     ProgressBar.prevTime := None;
     ProgressBar.startTime := zero;
     ProgressBar.endTime := zero;
     ProgressBar.progress :=
       Progress.mk zero zero (nullish total zero) zero zero zero zero;
     ProgressBar.trace := [] |}.

(** The bar [new ProgressBar({ total, stream })] builds. *)
Definition fresh_bar (total : option number) (stream : WriteStream)
  : ProgressBar.t :=
  bar_with (str "{bar} {percent}") total None ProgressBar.C_COMPLETE stream.

(** The stream [new ProgressStream({ total, interval })] builds. *)
Definition fresh_stream (total : option number) (interval : number)
  : ProgressStream.t :=
  {| ProgressStream.interval := interval;
     ProgressStream.prevTime := None;
     ProgressStream.startTime := zero;
     ProgressStream.endTime := zero;
     ProgressStream.total := total;
     ProgressStream.progress :=
       Progress.mk zero zero (nullish total zero) (nullish total zero)
                   zero zero zero;
     ProgressStream.has_onProgress := false;
     ProgressStream.has_onTotal := false;
     ProgressStream.trace := [] |}.

Definition stream_options (total interval : value) : ProgressStreamOptions.t :=
  {| ProgressStreamOptions.interval := interval;
     ProgressStreamOptions.total := total;
     ProgressStreamOptions.current := None;
     ProgressStreamOptions.onProgress := false;
     ProgressStreamOptions.onTotal := false |}.

Definition at_ (current : Z) (time : Z) : Run.TickCall :=
  {| Run.arg_current := Some (of_Z current);
     Run.arg_tokens := None;
     Run.at_time := time |}.

Definition bare (time : Z) : Run.TickCall :=
  {| Run.arg_current := None; Run.arg_tokens := None; Run.at_time := time |}.

End Examples.

(* ================================================================= *)
(** ** Vocabulary of the properties *)

(** A total the constructor and the setter must refuse: not a number at
    all, NaN, an infinity, or a finite number that is not positive. *)
Inductive unacceptable_total : value -> Prop :=
| total_not_a_number v : (forall n, v <> Num n) -> unacceptable_total v
| total_NaN : unacceptable_total (Num NaN)
| total_PInf : unacceptable_total (Num PInf)
| total_NInf : unacceptable_total (Num NInf)
| total_not_positive q : q <= 0 -> unacceptable_total (Num (Fin q)).

(** The four derived fields of a snapshot besides [runtime]. *)
Definition derived (p : Progress.t) : number * number * number * number :=
  (Progress.percent p, Progress.remaining p, Progress.eta p, Progress.speed p).

Definition all_zero : number * number * number * number :=
  (zero, zero, zero, zero).

(** A tracker without a total whose derived fields are still 0. *)
Definition idle_bar (b : ProgressBar.t) : Prop :=
  ProgressBar.total b = None /\
  derived (ProgressBar.progress b) = all_zero.

Definition idle_stream (st : ProgressStream.t) : Prop :=
  ProgressStream.total st = None /\
  derived (ProgressStream.progress st) = all_zero.

(** The elapsed seconds and the eta a metrics update computes from them. *)
Definition runtime_seconds (startTime endTime : number) : number :=
  ((endTime - startTime) / of_Z 1000)%num.

Definition eta_of (current total runtime : number) : number :=
  round ((total - current) / (current / runtime))%num 3.

(** A text without a dollar sign. *)
Definition plain (s : jsstring) : Prop := existsb (N.eqb dollar) s = false.

(** The whole cells in a width: none in a negative one. *)
Definition cells (n : number) : nat :=
  match n with
  | Fin q => Z.to_nat (Qfloor q)
  | _ => O
  end.



(** [k] tenths in decimal notation with one fraction digit. *)
Definition tenths (k : Z) : jsstring :=
  digits (Z.to_N (k / 10)) ++ str "." ++ digits (Z.to_N (k mod 10)).


Module SpeedometerRun.
Import Speedometer.

(** What can happen to a speedometer: its timer's interval elapses, or
    the rate function is called. *)
Inductive Event : Type :=
| elapse
| call (delta : option number).

(** The states a speedometer can be in. *)
Inductive reachable : t -> Prop :=
| reach_new seconds : reachable (speedometer seconds)
| reach_elapse s : reachable s -> reachable (interval_elapses s)
| reach_call s delta v s' :
    reachable s -> speed delta s = Returns v s' -> reachable s'.

(** The values the calls of a sequence of events return, in order. *)
Fixpoint replay (events : list Event) (s : t) : run (list slot) :=
  match events with
  | [] => Returns [] s
  | elapse :: rest => replay rest (interval_elapses s)
  | call delta :: rest =>
      match speed delta s with
      | Returns v s' =>
          match replay rest s' with
          | Returns vs s'' => Returns (v :: vs) s''
          | Diverges => Diverges
          end
      | Diverges => Diverges
      end
  end.

(** The number of calls among the events. *)
Definition calls (events : list Event) : nat :=
  length (filter (fun e => match e with call _ => true | elapse => false end)
                 events).

End SpeedometerRun.

(* ================================================================= *)
(** ** utils.ts: the ProgressBar of the distributed build *)

(** The options of the constructor of the earlier bar. *)
Module LegacyOptions.

Record t : Type := {
  format : option jsstring;
  total : option number;
  current : option number;
  width : option number;
  throttle : option number;
  stream : option WriteStream;
  clear : option bool;
  completeChar : option jsstring;
  incompleteChar : option jsstring;
  line : option number
}.

End LegacyOptions.

(** The class [ProgressBar] that closes [utils.ts], the one the
    distributed build ships: no snapshot, no interval; the clock is read
    by [_render()]. *)
Module Legacy.

(** The private fields of the class, and [trace]: the calls made so far
    on the stream and the listener, the latest first. *)
Record t : Type := mk {
  tokens : option ProgressBar.Tokens;
  lastDraw : jsstring;
  start : option number;
  completed : bool;
  format : jsstring;
  total : number;
  current : number;
  width : number;
  throttle : number;
  stream : WriteStream;
  clear : bool;
  completeChar : jsstring;
  incompleteChar : jsstring;
  line : option number;
  trace : list ProgressBar.Call
}.

Definition with_tokens (v : option ProgressBar.Tokens) (s : t) : t :=
  mk v (lastDraw s) (start s) (completed s) (format s) (total s) (current s)
     (width s) (throttle s) (stream s) (clear s) (completeChar s)
     (incompleteChar s) (line s) (trace s).
Definition with_lastDraw (v : jsstring) (s : t) : t :=
  mk (tokens s) v (start s) (completed s) (format s) (total s) (current s)
     (width s) (throttle s) (stream s) (clear s) (completeChar s)
     (incompleteChar s) (line s) (trace s).
Definition with_start (v : option number) (s : t) : t :=
  mk (tokens s) (lastDraw s) v (completed s) (format s) (total s) (current s)
     (width s) (throttle s) (stream s) (clear s) (completeChar s)
     (incompleteChar s) (line s) (trace s).
Definition with_completed (v : bool) (s : t) : t :=
  mk (tokens s) (lastDraw s) (start s) v (format s) (total s) (current s)
     (width s) (throttle s) (stream s) (clear s) (completeChar s)
     (incompleteChar s) (line s) (trace s).
Definition with_total (v : number) (s : t) : t :=
  mk (tokens s) (lastDraw s) (start s) (completed s) (format s) v (current s)
     (width s) (throttle s) (stream s) (clear s) (completeChar s)
     (incompleteChar s) (line s) (trace s).
Definition with_current (v : number) (s : t) : t :=
  mk (tokens s) (lastDraw s) (start s) (completed s) (format s) (total s) v
     (width s) (throttle s) (stream s) (clear s) (completeChar s)
     (incompleteChar s) (line s) (trace s).
Definition with_throttle (v : number) (s : t) : t :=
  mk (tokens s) (lastDraw s) (start s) (completed s) (format s) (total s)
     (current s) (width s) v (stream s) (clear s) (completeChar s)
     (incompleteChar s) (line s) (trace s).
Definition with_trace (v : list ProgressBar.Call) (s : t) : t :=
  mk (tokens s) (lastDraw s) (start s) (completed s) (format s) (total s)
     (current s) (width s) (throttle s) (stream s) (clear s) (completeChar s)
     (incompleteChar s) (line s) v.

(** Make a call on a collaborator. *)
Definition call (c : ProgressBar.Call) : M t unit :=
  modify (fun s => with_trace (c :: trace s) s).

(** [this._stream.clearLine(dir)]; a stream without the method makes the
    call a TypeError. *)
Definition stream_clearLine (dir : Z) : M t unit :=
  (s <- get ;;
   if has_clearLine (stream s) then call (ProgressBar.clearLine dir)
   else throw (TypeError "this._stream.clearLine is not a function"))%method.

(** [Math.floor]. *)
Definition Math_floor (a : number) : number :=
  match a with
  | Fin q => of_Z (Qfloor q)
  | _ => a
  end.

(** The [isNumber] of this class: also finite. *)
Definition isNumber (v : value) : bool :=
  match v with
  | Num n => negb (isNaN n) && isFinite n
  | _ => false
  end.

(** [get completed()], [get current()] and [get total()]. *)
Definition get_completed (s : t) : bool := completed s.
Definition get_current (s : t) : number := current s.
Definition get_total (s : t) : number := total s.

(** [set total(v)]. *)
Definition set_total (v : value) : M t unit :=
  match v with
  | Num n =>
      if isNumber v && (n >? zero)%num then modify (with_total n)
      else ret tt
  | _ => ret tt
  end.

(** [Math.min(Math.max(this._current / this._total, 0), 1)] and
    [Math.floor(ratio * 100)] of [_render()]. *)
Definition ratio (s : t) : number :=
  Math_min (Math_max (current s / total s)%num zero) one.

Definition percent (s : t) : number :=
  Math_floor (ratio s * of_Z 100)%num.

Section Rendering.
Context {host : Host}.

(** The frame [_render()] is about to draw when the clock is at [now]
    and the bar was started at [start]. *)
Definition frame (s : t) (start now : number) : M t jsstring :=
  (let ratio := ratio s in
   let percent := percent s in
   let elapsed := (now - start)%num in
   let eta :=
     if (percent =? of_Z 100)%num then zero
     else (elapsed * (total s / current s - one))%num in
   let rate :=
     if (elapsed =? zero)%num then zero
     else (current s / (elapsed / of_Z 1000))%num in
   let output := format s in
   let output := replace output (str "{current}")
                         (Number_toString (current s)) in
   let output := replace output (str "{total}")
                         (Number_toString (total s)) in
   let output := replace output (str "{elapsed}")
                         (toFixed (elapsed / of_Z 1000)%num 1) in
   let output := replace output (str "{eta}")
                         (toFixed (eta / of_Z 1000)%num 1) in
   let output := replace output (str "{percent}")
                         (toFixed percent 1 ++ str "%") in
   let output := replace output (str "{rate}")
                         (Number_toString (Math_round rate)) in
   let availableSpace :=
     Math_max zero
              (columns (stream s)
               - of_nat (length (replace output (str "{bar}") [])))%num in
   let availableSpace :=
     if IS_WINDOWS && truthy availableSpace
     then (availableSpace - one)%num else availableSpace in
   let width := Math_min (width s) availableSpace in
   let completeLength := Math_round (width * ratio)%num in
   incomplete <-
     repeat (Math_max zero (width - completeLength + one)%num)
            (incompleteChar s) ;;
   complete <-
     repeat (Math_max zero (completeLength + one)%num) (completeChar s) ;;
   let complete :=
     if (completeLength >? zero)%num
     then slice_0_m1 complete ++ completeChar s else complete in
   let output := replace output (str "{bar}") (complete ++ incomplete) in
   ret match tokens s with
       | Some entries =>
           fold_left
             (fun output kv =>
                replace output (str "[" ++ fst kv ++ str "]") (snd kv))
             entries output
       | None => output
       end)%method.

(** [_render()], when [Date.now()] is [now]. *)
Definition _render (now : Z) : M t unit :=
  (s <- get ;;
   if negb (isTTY (stream s)) then ret tt
   else
     let now := of_Z now in
     let start :=
       match start s with
       | Some n => if truthy n then n else now
       | None => now
       end in
     modify (with_start (Some start)) ;;
     s <- get ;;
     output <- frame s start now ;;
     when (negb (Str.eqb (lastDraw s) output))
          (call (ProgressBar.cursorTo zero (line s)) ;;
           call (ProgressBar.write output) ;;
           stream_clearLine 1 ;;
           modify (with_lastDraw output)))%method.

(** [tick(current, customTokens)]: [Date.now()] is [now] at the first
    [_render()] and [later] at the one of a completing call. *)
Definition tick (current : option number)
           (customTokens : option ProgressBar.Tokens) (now later : Z)
  : M t unit :=
  (modify (with_current (nullish current one)) ;;
   modify (with_tokens customTokens) ;;
   _render now ;;
   s <- get ;;
   when (Legacy.current s >=? total s)%num
        (_render later ;;
         modify (with_completed true) ;;
         s <- get ;;
         (if clear s then
            when (has_clearLine (stream s))
                 (call (ProgressBar.clearLine (-1)) ;;
                  call (ProgressBar.cursorTo zero (line s)))
          else call (ProgressBar.write ProgressBar.newline)) ;;
         call ProgressBar.onComplete))%method.

(** [interrupt(message)]. *)
Definition interrupt (message : jsstring) : M t unit :=
  (stream_clearLine 0 ;;
   s <- get ;;
   call (ProgressBar.cursorTo zero (line s)) ;;
   call (ProgressBar.write message) ;;
   call (ProgressBar.write ProgressBar.newline) ;;
   call (ProgressBar.write (lastDraw s)))%method.

(** [new ProgressBar(options)]: the new bar, or the error thrown. *)
Definition constructor (options : option LegacyOptions.t) : result t :=
  let opt {A} (f : LegacyOptions.t -> option A) : option A :=
    match options with Some o => f o | None => None end in
  let format :=
    nullish (opt LegacyOptions.format) (str "{bar} {percent}") in
  let total := nullish (opt LegacyOptions.total) (of_Z 100) in
  let throttle :=
    match opt LegacyOptions.throttle with
    | Some n =>
        if (n =? zero)%num then zero
        else if truthy n then n else of_Z 16
    | None => of_Z 16
    end in
  let line := opt LegacyOptions.line in
  if match line with Some l => (l <? zero)%num | None => false end
  then Throw (Error "line must be >= 0")
  else
    Ok {| tokens := Some [];
          lastDraw := [];
          start := None;
          completed := false;
          format := if includes format (str "{bar}") then format
                    else str "{bar} " ++ format;
          total := total;
          current := nullish (opt LegacyOptions.current) zero;
          width := nullish (opt LegacyOptions.width) total;
          throttle := throttle;
          stream := nullish (opt LegacyOptions.stream) process_stderr;
          clear := nullish (opt LegacyOptions.clear) false;
          completeChar :=
            nullish (opt LegacyOptions.completeChar) ProgressBar.C_COMPLETE;
          incompleteChar :=
            nullish (opt LegacyOptions.incompleteChar)
                    ProgressBar.C_INCOMPLETE;
          line := line;
          trace := [] |}.

End Rendering.

End Legacy.

(** Runs of the earlier bar. *)
Module LegacyRun.
Import Legacy.

(** One call [tick(current, customTokens)] and the clock at its one or
    two readings. *)
Record TickCall : Type := {
  arg_current : option number;
  arg_tokens : option ProgressBar.Tokens;
  at_time : Z;
  at_time_again : Z
}.

Section WithHost.
Context {host : Host}.

Definition tick_call (c : TickCall) : M t unit :=
  tick (arg_current c) (arg_tokens c) (at_time c) (at_time_again c).

(** The calls of a list, one after the other; an exception ends the
    run. *)
Fixpoint ticks (calls : list TickCall) : M t unit :=
  match calls with
  | [] => ret tt
  | c :: rest => (tick_call c ;; ticks rest)%method
  end.

End WithHost.

(** The calls of a run whose [current] has reached [total]. *)
Definition completing (total : number) (calls : list TickCall)
  : list TickCall :=
  filter (fun c => (nullish (arg_current c) one >=? total)%num) calls.

(** Two bars that differ at most in [_throttle]. *)
Definition same_but_throttle (s s' : t) : Prop :=
  with_throttle zero s = with_throttle zero s'.

End LegacyRun.

(* ================================================================= *)
(** ** utils.ts: getContentLength and the listener of 'pipe' *)

(** The values of type [any] that [getContentLength] and the listener
    of ['pipe'] are handed, as far as they look at them: the primitive
    values and objects with data properties under ordinary names, some of
    them event emitters (they inherit [on]).  Functions, accessors and
    arrays are left out. *)
Module Any.

#[warnings="-register-all"]
Inductive t : Type :=
| undefined
| null
| boolean (b : bool)
| num (n : number)
| text (s : jsstring)
| object (emitter : bool) (props : list (jsstring * t)).

(** [ToBoolean]. *)
Definition truthy (v : t) : bool :=
  match v with
  | undefined | null => false
  | boolean b => b
  | num n => Num.truthy n
  | text s => negb (Str.eqb s [])
  | object _ _ => true
  end.

(** The value of the own property [key], [undefined] without one. *)
Fixpoint lookup (key : jsstring) (props : list (jsstring * t)) : t :=
  match props with
  | [] => undefined
  | (k, v) :: rest => if Str.eqb k key then v else lookup key rest
  end.

(** Whether there is an own property [key]. *)
Definition has_own (key : jsstring) (props : list (jsstring * t)) : bool :=
  existsb (fun kv => Str.eqb (fst kv) key) props.

Definition reading (what key : string) : error :=
  TypeError ("Cannot read properties of " ++ what
             ++ " (reading '" ++ key ++ "')")%string.

(** [v.key] and [v['key']] for a property name that is no array
    index. *)
Definition prop {S} (v : t) (key : string) : M S t :=
  match v with
  | undefined => throw (reading "undefined" key)
  | null => throw (reading "null" key)
  | boolean _ | num _ => ret undefined
  | text s =>
      ret (if String.eqb key "length" then num (of_nat (length s))
           else undefined)
  | object _ props => ret (lookup (str key) props)
  end.

(** [typeof v === 'number']. *)
Definition is_number (v : t) : option number :=
  match v with num n => Some n | _ => None end.

(** [v === 'gzip'] and the like. *)
Definition is_text (s : jsstring) (v : t) : bool :=
  match v with text s' => Str.eqb s' s | _ => false end.

(** The white space [parseInt] skips: [WhiteSpace] and
    [LineTerminator]. *)
Definition is_white_space (c : jschar) : bool :=
  existsb (N.eqb c)
          [9; 10; 11; 12; 13; 32; 160; 5760; 8232; 8233; 8239; 8287;
           12288; 65279]%N
  || ((8192 <=? c) && (c <=? 8202))%N.

Fixpoint trim_start (s : jsstring) : jsstring :=
  match s with
  | c :: rest => if is_white_space c then trim_start rest else s
  | [] => []
  end.

Definition digit (c : jschar) : option Z :=
  if ((48 <=? c) && (c <=? 57))%N then Some (Z.of_N c - 48)%Z else None.

(** The number the leading decimal digits of [s] spell after the digits
    that spelt [sofar], if there is any digit. *)
Fixpoint leading_digits (sofar : option Z) (s : jsstring) : option Z :=
  match s with
  | c :: rest =>
      match digit c with
      | Some d => leading_digits (Some (10 * nullish sofar 0 + d)%Z) rest
      | None => sofar
      end
  | [] => sofar
  end.

(** The Number value of an integer, as [parseInt] returns it: the
    binary64 number nearest to it, the one with the even significand
    when two are as near.  Integers up to 2^53 are their own value; the
    value of an integer of magnitude 2^1024 - 2^970 or more is an
    infinity. *)
Definition nearest_double (z : Z) : number :=
  let a := Z.abs z in
  let e := Z.max 0 (Z.log2 a - 52) in
  let ulp := (2 ^ e)%Z in
  let m := (a / ulp)%Z in
  let r := (a mod ulp)%Z in
  let up := (ulp <? 2 * r)%Z || ((ulp =? 2 * r)%Z && Z.odd m) in
  let v := ((if up then m + 1 else m) * ulp)%Z in
  if (2 ^ 1024 <=? v)%Z then inf (0 <? z)%Z
  else of_Z (Z.sgn z * v).

(** [parseInt(s, 10)] for a string. *)
Definition parseInt_10 (s : jsstring) : number :=
  let s := trim_start s in
  let negative :=
    match s with c :: _ => N.eqb c 45 | [] => false end in
  let s :=
    match s with
    | c :: rest => if N.eqb c 45 || N.eqb c 43 then rest else s
    | [] => []
    end in
  match leading_digits None s with
  | Some z => nearest_double (if negative then - z else z)
  | None => NaN
  end.

Section WithHost.
Context {host : Host}.

(** [ToString], which [parseInt] applies to its argument: an object
    with a data property [toString] of its own has no primitive value. *)
Definition ToString {S} (v : t) : M S jsstring :=
  match v with
  | undefined => ret (str "undefined")
  | null => ret (str "null")
  | boolean b => ret (if b then str "true" else str "false")
  | num n => ret (Number_toString n)
  | text s => ret s
  | object _ props =>
      if has_own (str "toString") props
      then throw (TypeError "Cannot convert object to primitive value")
      else ret (str "[object Object]")
  end.

(** [getContentLength(source)]. *)
Definition getContentLength {S} (source : t) : M S (option number) :=
  (if negb (truthy source) then ret None
   else
     headers <- prop source "headers" ;;
     if negb (truthy headers) then ret None
     else
       length <- prop headers "content-length" ;;
       if negb (truthy length) then ret None
       else
         s <- ToString length ;;
         let n := parseInt_10 s in
         if isNumber (Num n) && (n >? zero)%num then ret (Some n)
         else ret None)%method.

(** The listener of ['response'] that the listener of ['pipe'] puts on
    the source. *)
Definition on_response (res : t) : M ProgressStream.t unit :=
  (if negb (truthy res) then ret tt
   else
     headers <- prop res "headers" ;;
     if negb (truthy headers) then ret tt
     else
       encoding <- prop headers "content-encoding" ;;
       if is_text (str "gzip") encoding then ret tt
       else
         len <- getContentLength headers ;;
         match len with
         | Some n =>
             when (Num.truthy n) (ProgressStream.set_total (Num n))
         | None => ret tt
         end)%method.

(** What the listener of ['pipe'] does once the headers gave no total:
    it takes a numeric [length] for the total, or else puts the listener
    of ['response'] on the source.  It returns whether it did the
    latter. *)
Definition length_or_response (source : t) : M ProgressStream.t bool :=
  (length <- prop source "length" ;;
   match is_number length with
   | Some n => ProgressStream.set_total (Num n) ;; ret false
   | None =>
       match source with
       | object true props =>
           if has_own (str "on") props
           then throw (TypeError "source.on is not a function")
           else ret true
       | _ => throw (TypeError "source.on is not a function")
       end
   end)%method.

(** The listener of ['pipe'] that a stream built without a total has. *)
Definition on_pipe (source : t) : M ProgressStream.t bool :=
  (readable <- prop source "readable" ;;
   with_headers <-
     (if truthy readable then
        writable <- prop source "writable" ;;
        if negb (truthy writable) then
          headers <- prop source "headers" ;;
          ret (truthy headers)
        else ret false
      else ret false) ;;
   if with_headers : bool then
     len <- getContentLength source ;;
     match len with
     | Some n =>
         if Num.truthy n
         then ProgressStream.set_total (Num n) ;; ret false
         else length_or_response source
     | None => length_or_response source
     end
   else length_or_response source)%method.

(** Whether [new ProgressStream(options)] puts that listener on the
    stream: when no total is given. *)
Definition listens_for_pipe (options : option ProgressStreamOptions.t)
  : bool :=
  match options with
  | Some o => negb (not_null (ProgressStreamOptions.total o))
  | None => true
  end.

End WithHost.

(** A value that is no object. *)
Definition primitive (v : t) : Prop :=
  match v with object _ _ => False | _ => True end.

(** A response whose headers, if an object, have no object under the
    name [headers]: every response whose header values are strings. *)
Definition plain_headers (res : t) : Prop :=
  match res with
  | object _ props =>
      match lookup (str "headers") props with
      | object _ headers => primitive (lookup (str "headers") headers)
      | _ => True
      end
  | _ => True
  end.

End Any.

(* ================================================================= *)
(** ** Vocabulary of the further properties *)

(** An interval the constructors must refuse: not a number at all, NaN,
    an infinity, or a negative number. *)
Inductive unacceptable_interval : value -> Prop :=
| interval_not_a_number v :
    (forall n, v <> Num n) -> unacceptable_interval v
| interval_NaN : unacceptable_interval (Num NaN)
| interval_PInf : unacceptable_interval (Num PInf)
| interval_NInf : unacceptable_interval (Num NInf)
| interval_negative q : q < 0 -> unacceptable_interval (Num (Fin q)).

(** A value that is given: neither [undefined] nor [null]. *)
Definition given (v : value) : Prop := v <> Undefined /\ v <> Null.

(** What holds of every bar the constructor builds. *)
Record fresh (b : ProgressBar.t) : Prop := {
  fresh_format : includes (ProgressBar.format b) (str "{bar}") = true;
  fresh_minWidth :
    (ProgressBar.minWidth b >=? ProgressBar.MIN_WIDTH)%num = true;
  fresh_interval :
    exists q, ProgressBar.interval b = Fin q /\ 0 <= q;
  fresh_total :
    match ProgressBar.total b with
    | Some T => exists q, T = Fin q /\ 0 < q
    | None => True
    end;
  fresh_snapshot_total :
    Progress.total (ProgressBar.progress b) = ProgressBar.get_total b;
  fresh_glyphs :
    (length (ProgressBar.completeChar b) <= 1)%nat /\
    (length (ProgressBar.incompleteChar b) <= 1)%nat;
  fresh_idle :
    ProgressBar.completed b = false /\ ProgressBar.prevTime b = None /\
    ProgressBar.lastDraw b = [] /\ ProgressBar.trace b = []
}.

(** What holds of every stream the constructor builds. *)
Record unused (st : ProgressStream.t) : Prop := {
  unused_interval :
    exists q, ProgressStream.interval st = Fin q /\ 0 <= q;
  unused_total :
    match ProgressStream.total st with
    | Some T => exists q, T = Fin q /\ 0 < q
    | None => True
    end;
  unused_snapshot :
    Progress.total (ProgressStream.progress st) = ProgressStream.get_total st /\
    Progress.remaining (ProgressStream.progress st)
    = ProgressStream.get_total st;
  unused_idle :
    ProgressStream.prevTime st = None /\ ProgressStream.trace st = []
}.

(** *** Runs of a stream *)

Module StreamRun.
Import ProgressStream.

(** One call [_transform(chunk, encoding, callback)] and the clock at that
    call. *)
Record Write : Type := {
  chunk : Buffer;
  at_time : Z
}.

(** The writes of a list, one after the other; an exception ends the
    run. *)
Fixpoint transforms (ws : list Write) : M t unit :=
  match ws with
  | [] => ret tt
  | w :: rest => (_transform (chunk w) (at_time w) ;; transforms rest)%method
  end.

(** The life of a stream: the writes, then the end of the data. *)
Definition piped (ws : list Write) (end_time : Z) : M t unit :=
  (transforms ws ;; _flush end_time)%method.

(** What was pushed downstream, the oldest first. *)
Fixpoint pushed (tr : list Call) : list (option Buffer) :=
  match tr with
  | [] => []
  | push c :: rest => pushed rest ++ [c]
  | _ :: rest => pushed rest
  end.

(** How often the callback of a write or of the end was called. *)
Fixpoint callbacks (tr : list Call) : nat :=
  match tr with
  | [] => O
  | callback :: rest => S (callbacks rest)
  | _ :: rest => callbacks rest
  end.

(** The snapshots of the ['progress'] events, the latest first. *)
Fixpoint progress_events (tr : list Call) : list Progress.t :=
  match tr with
  | [] => []
  | emit_progress p :: rest => p :: progress_events rest
  | _ :: rest => progress_events rest
  end.

(** The totals of the ['total'] events, the latest first. *)
Fixpoint total_events (tr : list Call) : list number :=
  match tr with
  | [] => []
  | emit_total v :: rest => v :: total_events rest
  | _ :: rest => total_events rest
  end.

(** The bytes of a list of writes. *)
Fixpoint bytes (ws : list Write) : nat :=
  match ws with
  | [] => O
  | w :: rest => (length (chunk w) + bytes rest)%nat
  end.

(** The stream as [_transform] leaves it for the throttle gate. *)
Definition received (data : Buffer) (now : Z) (s : t) : t :=
  let s := with_trace (callback :: push (Some data) :: trace s) s in
  let s := with_progress
             (Progress.with_current
                (Progress.current (progress s) + of_nat (length data))%num
                (progress s)) s in
  let s := with_endTime (of_Z now) s in
  let s :=
    match prevTime s with
    | None => with_startTime (of_Z now) (with_prevTime (Some (of_Z now)) s)
    | Some _ => s
    end in
  state_of (update s).

(** The calls [#emit()] makes, the latest first. *)
Definition emit_calls (s : t) : list Call :=
  emit_progress (progress s)
  :: (if has_onProgress s then [onProgress (progress s)] else []).

(** The calls the setter of [total] makes, the latest first. *)
Definition total_calls (n : number) (s : t) : list Call :=
  (if has_onTotal s then [onTotal n] else []) ++ [emit_total n].

(** The stream as [_flush] leaves it before it looks at the interval. *)
Definition ended (now : Z) (s : t) : t :=
  with_trace (callback :: push None :: trace s) (with_endTime (of_Z now) s).

(** Whether the clock never goes back in a list of writes that follows a
    write at [prev], if there was one. *)
Fixpoint clock_advances (prev : option Z) (ws : list Write) : bool :=
  match ws with
  | [] => true
  | w :: rest =>
      match prev with
      | Some p => (p <=? at_time w)%Z
      | None => true
      end && clock_advances (Some (at_time w)) rest
  end.

(** Whether every write comes less than [interval] after [first]. *)
Definition within (interval : number) (first : Z) (ws : list Write) : bool :=
  forallb (fun w => negb (of_Z (at_time w) - of_Z first >=? interval)%num) ws.

End StreamRun.

(** *** Speedometers of a given size *)

Module SpeedometerSize.
Import Speedometer SpeedometerRun.

(** A speedometer whose ring has [n] slots: [size] is the whole number
    [n], the pointer is on one of the slots and the buffer has no more
    than [n]. *)
Record sized (n : nat) (s : t) : Prop := {
  sized_size : to_nat (size s) = Some n;
  sized_positive : (1 <= n)%nat;
  sized_pointer : (1 <= pointer s <= n)%nat;
  sized_buffer : (length (buffer s) <= n)%nat
}.

(** The timer's interval elapses [n] times, and nothing else happens. *)
Definition wait (n : nat) : list Event := List.repeat elapse n.

(** The value of [tick] after [n] intervals of a new speedometer. *)
Definition tick_after (n : nat) : Z := (1 + Z.of_nat n) mod 65536.

(** A step of a measurement: an interval elapses, or so many bytes are
    reported. *)
Definition step : Type := option nat.

Definition events_of (steps : list step) : list Event :=
  map (fun st => match st with
                 | Some d => call (Some (of_nat d))
                 | None => elapse
                 end) steps.

(** The bytes reported so far, at each report. *)
Fixpoint running_totals (sofar : nat) (steps : list step) : list slot :=
  match steps with
  | [] => []
  | Some d :: rest =>
      Some (of_nat (sofar + d)) :: running_totals (sofar + d) rest
  | None :: rest => running_totals sofar rest
  end.

(** The bytes of all the reports together. *)
Fixpoint reported (steps : list step) : nat :=
  match steps with
  | [] => O
  | Some d :: rest => (d + reported rest)%nat
  | None :: rest => reported rest
  end.

End SpeedometerSize.

(** *** Methods that never look at the throttle *)

Module LegacyThrottle.
Import Legacy.

(** A method that never looks at [_throttle]: on a bar with another
    throttle it returns the same and leaves the same bar, but for the
    throttle. *)
Definition blind {A} (c : M t A) : Prop :=
  forall s v,
    c (with_throttle v s) = (fst (c s), with_throttle v (snd (c s))).

(** The options with another [throttle]. *)
Definition with_throttle_option (v : option number) (o : LegacyOptions.t)
  : LegacyOptions.t :=
  {| LegacyOptions.format := LegacyOptions.format o;
     LegacyOptions.total := LegacyOptions.total o;
     LegacyOptions.current := LegacyOptions.current o;
     LegacyOptions.width := LegacyOptions.width o;
     LegacyOptions.throttle := v;
     LegacyOptions.stream := LegacyOptions.stream o;
     LegacyOptions.clear := LegacyOptions.clear o;
     LegacyOptions.completeChar := LegacyOptions.completeChar o;
     LegacyOptions.incompleteChar := LegacyOptions.incompleteChar o;
     LegacyOptions.line := LegacyOptions.line o |}.

End LegacyThrottle.

(** *** More concrete bars, options, writes and responses *)

Module Scenarios.
Import Examples.

(** The bar [new ProgressBar({ total, interval, stream })] builds on a
    host whose printer is [print_natural]. *)
Definition throttled_bar (total : option number) (interval : number)
           (stream : WriteStream) : ProgressBar.t :=
  {| ProgressBar.tokens := Some [];
     ProgressBar.lastDraw := [];
     ProgressBar.completed := false;
     ProgressBar.format := str "{bar} {percent}";
     ProgressBar.width := None;
     ProgressBar.minWidth := ProgressBar.MIN_WIDTH;
     ProgressBar.stream := stream;
     ProgressBar.clear := false;
     ProgressBar.completeChar := ProgressBar.C_COMPLETE;
     ProgressBar.incompleteChar := ProgressBar.C_INCOMPLETE;
     ProgressBar.line := None;
     ProgressBar.formatValue := print_natural;
     ProgressBar.interval := interval;
     ProgressBar.total := total;
     ProgressBar.prevTime := None;
     ProgressBar.startTime := zero;
     ProgressBar.endTime := zero;
     ProgressBar.progress :=
       Progress.mk zero zero (nullish total zero) zero zero zero zero;
     ProgressBar.trace := [] |}.

(** The options [{ line, stream }]. *)
Definition line_options (line : number) (stream : WriteStream)
  : ProgressBarOptions.t :=
  {| ProgressBarOptions.format := None;
     ProgressBarOptions.total := Undefined;
     ProgressBarOptions.current := None;
     ProgressBarOptions.width := None;
     ProgressBarOptions.minWidth := None;
     ProgressBarOptions.interval := Undefined;
     ProgressBarOptions.stream := Some stream;
     ProgressBarOptions.clear := None;
     ProgressBarOptions.completeChar := None;
     ProgressBarOptions.incompleteChar := None;
     ProgressBarOptions.line := Some line;
     ProgressBarOptions.formatValue := None |}.

(** A terminal whose stream has no [clearLine] method. *)
Definition bare_tty (cols : Z) : WriteStream :=
  {| isTTY := true; columns := of_Z cols; has_clearLine := false |}.

(** A write of [n] zero bytes at [time]. *)
Definition bytes_at (n : nat) (time : Z) : StreamRun.Write :=
  {| StreamRun.chunk := List.repeat 0%N n; StreamRun.at_time := time |}.

End Scenarios.

Module LegacyExamples.
Import Examples.

(** The options [{ total, throttle, stream }] of the earlier bar. *)
Definition options (total throttle : option number) (stream : WriteStream)
  : LegacyOptions.t :=
  {| LegacyOptions.format := None;
     LegacyOptions.total := total;
     LegacyOptions.current := None;
     LegacyOptions.width := None;
     LegacyOptions.throttle := throttle;
     LegacyOptions.stream := Some stream;
     LegacyOptions.clear := None;
     LegacyOptions.completeChar := None;
     LegacyOptions.incompleteChar := None;
     LegacyOptions.line := None |}.

(** The bar [new ProgressBar({ total, throttle, stream })] builds, for a
    throttle that is neither 0 nor NaN. *)
Definition bar (total throttle : number) (stream : WriteStream)
  : Legacy.t :=
  {| Legacy.tokens := Some [];
     Legacy.lastDraw := [];
     Legacy.start := None;
     Legacy.completed := false;
     Legacy.format := str "{bar} {percent}";
     Legacy.total := total;
     Legacy.current := zero;
     Legacy.width := total;
     Legacy.throttle := throttle;
     Legacy.stream := stream;
     Legacy.clear := false;
     Legacy.completeChar := ProgressBar.C_COMPLETE;
     Legacy.incompleteChar := ProgressBar.C_INCOMPLETE;
     Legacy.line := None;
     Legacy.trace := [] |}.

Definition at_ (current : Z) (time : Z) : LegacyRun.TickCall :=
  {| LegacyRun.arg_current := Some (of_Z current);
     LegacyRun.arg_tokens := None;
     LegacyRun.at_time := time;
     LegacyRun.at_time_again := time |}.

(** A response of 1234 bytes, as [http] hands it over. *)
Definition response : Any.t :=
  Any.object true
    [(str "headers",
      Any.object false
        [(str "content-type", Any.text (str "text/plain"));
         (str "content-length", Any.text (str "1234"))])].

(** A readable source whose content length is spelt with 310 digits: a 1
    and 309 zeros. *)
Definition oversized : Any.t :=
  Any.object true
    [(str "readable", Any.boolean true);
     (str "headers",
      Any.object false
        [(str "content-length",
          Any.text (str "1" ++ copies 309 (str "0")))])].

End LegacyExamples.

(* ================================================================= *)
(** * Properties *)

(** Simplification of the field accesses of a bar, the arithmetic left
    alone. *)
Ltac bar_simpl :=
  cbn [ProgressBar.tokens ProgressBar.lastDraw ProgressBar.completed
       ProgressBar.format ProgressBar.width ProgressBar.minWidth
       ProgressBar.stream ProgressBar.clear ProgressBar.completeChar
       ProgressBar.incompleteChar ProgressBar.line ProgressBar.formatValue
       ProgressBar.interval ProgressBar.total ProgressBar.prevTime
       ProgressBar.startTime ProgressBar.endTime ProgressBar.progress
       ProgressBar.trace
       ProgressBar.with_tokens ProgressBar.with_lastDraw
       ProgressBar.with_completed ProgressBar.with_total
       ProgressBar.with_prevTime ProgressBar.with_startTime
       ProgressBar.with_endTime ProgressBar.with_progress
       ProgressBar.with_trace
       Progress.percent Progress.current Progress.total
       Progress.remaining Progress.eta Progress.runtime Progress.speed
       Progress.with_percent Progress.with_current Progress.with_total
       Progress.with_remaining Progress.with_eta Progress.with_runtime
       Progress.with_speed fst snd state_of outcome_of] in *.

(** ** The monad and the bar's methods *)

Section BarFacts.
Context {host : Host}.
Import ProgressBar Run.

Lemma same_but_drawn_refl s : same_but_drawn s s.
Proof. reflexivity. Qed.

Lemma same_but_drawn_trans s1 s2 s3 :
  same_but_drawn s1 s2 -> same_but_drawn s2 s3 -> same_but_drawn s1 s3.
Proof. unfold same_but_drawn; congruence. Qed.

Lemma same_but_drawn_fields s s' :
  same_but_drawn s s' ->
  completed s' = completed s /\ prevTime s' = prevTime s /\
  interval s' = interval s /\ progress s' = progress s /\
  stream s' = stream s /\ clear s' = clear s /\ total s' = total s.
Proof.
  intros H.
  repeat split.
  - exact (f_equal completed (eq_sym H)).
  - exact (f_equal prevTime (eq_sym H)).
  - exact (f_equal interval (eq_sym H)).
  - exact (f_equal progress (eq_sym H)).
  - exact (f_equal stream (eq_sym H)).
  - exact (f_equal clear (eq_sym H)).
  - exact (f_equal total (eq_sym H)).
Qed.

(** Building the frame reads the bar and leaves it alone. *)
Lemma repeat_state (n : number) (c : jsstring) (s0 : t) :
  snd (repeat n c s0) = s0.
Proof.
  unfold repeat.
  destruct (to_nat n) as [k|]; [destruct (Z.of_nat k <? 2 ^ 32)%Z|];
    reflexivity.
Qed.

Lemma bar_text_state s avail s0 : snd (bar_text s avail s0) = s0.
Proof.
  unfold bar_text, bind.
  destruct (repeat _ (incompleteChar s) s0) as [[i|e] s1] eqn:E1;
    pose proof (repeat_state
                  (Math_max zero
                     (bar_width s avail
                      - Math_round (bar_width s avail * bar_ratio s)
                      + one)%num)
                  (incompleteChar s) s0) as H1;
    rewrite E1 in H1; simpl in H1; subst s1; [|reflexivity].
  destruct (repeat _ (completeChar s) s0) as [[c|e] s1] eqn:E2;
    pose proof (repeat_state
                  (Math_max zero
                     (Math_round (bar_width s avail * bar_ratio s)
                      + one)%num)
                  (completeChar s) s0) as H2;
    rewrite E2 in H2; simpl in H2; subst s1; reflexivity.
Qed.

Lemma frame_state s s0 : snd (frame s s0) = s0.
Proof.
  unfold frame.
  destruct (columns (stream s) >? _)%num; [|reflexivity].
  unfold bind.
  destruct (bar_text s _ s0) as [[b|e] s1] eqn:E;
    pose proof (bar_text_state s
                  (available_space (columns (stream s))
                     (of_nat (length (replace (render_tokens s)
                                              (str "{bar}") []))))
                  s0) as H;
    rewrite E in H; simpl in H; subst s1; reflexivity.
Qed.

(** [#render()] touches the last frame drawn and the trace only, and
    neither completes nor calls the listener. *)
Lemma render_spec s :
  same_but_drawn s (state_of (render s)) /\
  completions (trace (state_of (render s))) = completions (trace s) /\
  (isTTY (stream s) = false -> render s = (Ok tt, s)).
Proof.
  unfold render, bind, get, state_of.
  destruct (isTTY (stream s)) eqn:Htty; simpl.
  2:{ repeat split; reflexivity. }
  destruct (frame s s) as [[out|e] s1] eqn:E;
    pose proof (frame_state s s) as H; rewrite E in H; simpl in H; subst s1.
  2:{ simpl; repeat split; try reflexivity; discriminate. }
  destruct (Str.eqb (lastDraw s) out); simpl.
  { repeat split; try reflexivity; discriminate. }
  unfold stream_clearLine, bind, get, call, modify; simpl.
  destruct (has_clearLine (stream s)); simpl;
    repeat split; try reflexivity; discriminate.
Qed.

(** [#complete()] makes the completion calls and nothing else. *)
Lemma complete_spec s :
  complete s = (Ok tt, with_trace (completion_calls s ++ trace s) s).
Proof.
  unfold complete, completion_calls, bind, get, call, modify, when, ret.
  destruct s as [tk ld cp fm wd mw st cl cc ic ln fv iv tl pt stt et pg tr].
  simpl.
  destruct cp; simpl; [|reflexivity].
  destruct cl; simpl; [|reflexivity].
  destruct (has_clearLine st); reflexivity.
Qed.

End BarFacts.

(** ** One call of [tick] *)

Section TickFacts.
Context {host : Host}.
Import ProgressBar Run.

Lemma bind_modify {S B} (f : S -> S) (k : unit -> M S B) s :
  bind (modify f) k s = k tt (f s).
Proof. reflexivity. Qed.

Lemma bind_get {S B} (k : S -> M S B) s : bind get k s = k s s.
Proof. reflexivity. Qed.

Lemma bind_ok {S A B} (c : M S A) (k : A -> M S B) s a s' :
  c s = (Ok a, s') -> bind c k s = k a s'.
Proof. unfold bind; intros ->; reflexivity. Qed.

Lemma bind_throw {S A B} (c : M S A) (k : A -> M S B) s e s' :
  c s = (Throw e, s') -> bind c k s = (Throw e, s').
Proof. unfold bind; intros ->; reflexivity. Qed.

Lemma update_ok s : update s = (Ok tt, state_of (update s)).
Proof. reflexivity. Qed.

Lemma tick_unfold current customTokens now s :
  tick current customTokens now s =
  let s1 := updated current customTokens now s in
  if passes_gate (prevTime s) (interval s) now
  then (render ;; complete)%method (with_prevTime (Some (of_Z now)) s1)
  else (Ok tt, s1).
Proof.
  unfold tick, updated, passes_gate.
  rewrite !bind_modify.
  erewrite bind_ok by apply update_ok.
  rewrite bind_get.
  cbv zeta.
  set (s0 := with_endTime _ _).
  assert (Hp : prevTime s0 = prevTime s) by reflexivity.
  assert (Hi : forall x, interval (state_of (update x)) = interval x).
  { intros x. unfold update, modify, state_of; simpl.
    destruct (_ >=? _)%num; reflexivity. }
  assert (Hq : forall x, prevTime (state_of (update x)) = prevTime x).
  { intros x. unfold update, modify, state_of; simpl.
    destruct (_ >=? _)%num; reflexivity. }
  rewrite Hi, Hq.
  rewrite Hp.
  destruct (prevTime s) as [p|] eqn:E.
  - rewrite Hp. cbn [nullish].
    destruct (_ >=? _)%num; cbn [when].
    + rewrite bind_modify. reflexivity.
    + reflexivity.
  - cbn [prevTime with_startTime with_prevTime nullish interval].
    assert (Hs0 : interval s0 = interval s) by reflexivity. rewrite Hs0.
    destruct (_ >=? _)%num; cbn [when].
    + rewrite bind_modify. reflexivity.
    + reflexivity.
Qed.

Lemma updated_fields current customTokens now s :
  let s1 := updated current customTokens now s in
  completed s1
  = completed s
    || (nullish current one >=? Progress.total (progress s))%num /\
  Progress.total (progress s1) = Progress.total (progress s) /\
  Progress.current (progress s1) = nullish current one /\
  prevTime s1 = Some (nullish (prevTime s) (of_Z now)) /\
  interval s1 = interval s /\ stream s1 = stream s /\
  clear s1 = clear s /\ total s1 = total s /\ trace s1 = trace s /\
  lastDraw s1 = lastDraw s.
Proof.
  unfold updated, update, modify.
  destruct s as [tk ld cp fm wd mw st cl cc ic ln fv iv tl pt stt et pg tr].
  destruct pg as [pc cur tot rem eta rt sp].
  destruct pt as [p|], tl as [T|]; bar_simpl;
    try destruct (_ >? zero)%num; bar_simpl;
    destruct (nullish current one >=? tot)%num; bar_simpl;
    rewrite ?orb_true_r, ?orb_false_r; auto 12.
Qed.

Lemma completions_app tr1 tr2 :
  completions (tr1 ++ tr2) = (completions tr1 + completions tr2)%nat.
Proof.
  induction tr1 as [|c tr1 IH]; [reflexivity|].
  destruct c; simpl; rewrite IH; reflexivity.
Qed.

Lemma writes_app tr1 tr2 : writes (tr1 ++ tr2) = writes tr1 ++ writes tr2.
Proof.
  induction tr1 as [|c tr1 IH]; [reflexivity|].
  destruct c; simpl; rewrite IH; reflexivity.
Qed.

Lemma completion_calls_count s :
  completions (completion_calls s) = if completed s then 1%nat else 0%nat.
Proof.
  unfold completion_calls.
  destruct (completed s), (clear s), (has_clearLine (stream s)); reflexivity.
Qed.

Lemma completion_calls_writes s :
  writes (completion_calls s)
  = if completed s && negb (clear s) then [newline] else [].
Proof.
  unfold completion_calls.
  destruct (completed s), (clear s), (has_clearLine (stream s)); reflexivity.
Qed.

(** One call that returns: whether the side-effect ran, and what the
    next call finds. *)
Lemma tick_step current customTokens now s :
  outcome_of (tick current customTokens now s) = Ok tt ->
  let s' := state_of (tick current customTokens now s) in
  let seen :=
    completed s
    || (nullish current one >=? Progress.total (progress s))%num in
  let pass := passes_gate (prevTime s) (interval s) now in
  completions (trace s')
  = ((if pass && seen then 1 else 0) + completions (trace s))%nat /\
  completed s' = seen /\
  prevTime s'
  = (if pass then Some (of_Z now)
     else Some (nullish (prevTime s) (of_Z now))) /\
  interval s' = interval s /\
  Progress.total (progress s') = Progress.total (progress s).
Proof.
  rewrite tick_unfold.
  destruct (updated_fields current customTokens now s)
    as (Hc & Ht & _ & Hp & Hi & _ & _ & _ & Htr & _).
  cbv zeta.
  destruct (passes_gate (prevTime s) (interval s) now); cbn [andb].
  2:{ intros _. unfold state_of; cbn [snd].
      rewrite Hc, Ht, Hp, Hi, Htr. auto. }
  set (s2 := with_prevTime _ _).
  destruct (render_spec s2) as (Hsame & Hcount & _).
  unfold bind.
  destruct (render s2) as [[[]|e] s3]; unfold state_of in *;
    cbn [snd fst outcome_of] in *; [|discriminate].
  intros _.
  rewrite complete_spec. cbn [snd].
  destruct (same_but_drawn_fields Hsame)
    as (H1 & H2 & H3 & H4 & _ & _ & _).
  assert (Hcs3 : completed (with_trace (completion_calls s3 ++ trace s3) s3)
                 = completed s3) by reflexivity.
  assert (Hps3 : prevTime (with_trace (completion_calls s3 ++ trace s3) s3)
                 = prevTime s3) by reflexivity.
  assert (His3 : interval (with_trace (completion_calls s3 ++ trace s3) s3)
                 = interval s3) by reflexivity.
  assert (Hgs3 : progress (with_trace (completion_calls s3 ++ trace s3) s3)
                 = progress s3) by reflexivity.
  assert (Hts3 : trace (with_trace (completion_calls s3 ++ trace s3) s3)
                 = completion_calls s3 ++ trace s3) by reflexivity.
  rewrite Hcs3, Hps3, His3, Hgs3, Hts3, H1, H2, H3, H4.
  rewrite completions_app, completion_calls_count, Hcount, H1.
  assert (Hc2 : completed s2 = completed (updated current customTokens now s))
    by reflexivity.
  assert (Hg2 : progress s2 = progress (updated current customTokens now s))
    by reflexivity.
  assert (Hi2 : interval s2 = interval (updated current customTokens now s))
    by reflexivity.
  assert (Htr2 : trace s2 = trace (updated current customTokens now s))
    by reflexivity.
  rewrite Hc2, Hg2, Hi2, Htr2, Hc, Ht, Hi, Htr.
  repeat split; reflexivity.
Qed.

(** C1, as the code has it: over a run of [tick] calls none of which
    throws, the completion side-effect (the line cleared or ended, then
    the listener called) runs once at every call that passes the
    throttle gate from the first call with [current >= total] on, the
    [completed] flag never being cleared; it runs as many times as there
    are such calls, not at most once. *)
Theorem completion_runs_at_each_gate_pass (calls : list TickCall) (s : t) :
  outcome_of (ticks calls s) = Ok tt ->
  completions (trace (state_of (ticks calls s)))
  = (gate_passes_when_complete (completed s) (prevTime s) (interval s)
       (Progress.total (progress s)) calls
     + completions (trace s))%nat.
Proof.
  revert s.
  induction calls as [|c rest IH]; intros s Hok; [reflexivity|].
  cbn [ticks] in *.
  unfold bind in *.
  pose proof (tick_step (arg_current c) (arg_tokens c) (at_time c) s) as Hstep.
  unfold tick_call in *.
  destruct (tick (arg_current c) (arg_tokens c) (at_time c) s)
    as [[[]|e] s1]; unfold outcome_of, state_of in *; cbn [fst snd] in *;
    [|discriminate].
  destruct (Hstep eq_refl) as (H1 & H2 & H3 & H4 & H5).
  rewrite (IH s1 Hok), H1, H2, H3, H4, H5.
  cbn [gate_passes_when_complete].
  lia.
Qed.
(** One call on a stream that is not a terminal. *)
Lemma tick_off_terminal current customTokens now s :
  isTTY (stream s) = false ->
  let r := tick current customTokens now s in
  let s' := state_of r in
  outcome_of r = Ok tt /\
  (completions (trace s) <= completions (trace s'))%nat /\
  writes (trace s')
  = List.repeat newline
      (if clear s then 0
       else completions (trace s') - completions (trace s))
    ++ writes (trace s) /\
  lastDraw s' = lastDraw s /\ stream s' = stream s /\ clear s' = clear s.
Proof.
  intros Htty.
  rewrite tick_unfold.
  destruct (updated_fields current customTokens now s)
    as (_ & _ & _ & _ & _ & Hst & Hcl & _ & Htr & Hld).
  cbv zeta.
  destruct (passes_gate (prevTime s) (interval s) now).
  2:{ unfold state_of, outcome_of; cbn [fst snd].
      rewrite Htr, Hld, Hst, Hcl, Nat.sub_diag.
      destruct (clear s); cbn [List.repeat app]; auto 10. }
  set (s2 := with_prevTime _ _).
  assert (Hst2 : stream s2 = stream s) by exact Hst.
  assert (Hcl2 : clear s2 = clear s) by exact Hcl.
  assert (Htr2 : trace s2 = trace s) by exact Htr.
  assert (Hld2 : lastDraw s2 = lastDraw s) by exact Hld.
  destruct (render_spec s2) as (_ & _ & Hr).
  rewrite <- Hst2 in Htty.
  erewrite bind_ok by exact (Hr Htty).
  rewrite complete_spec.
  unfold state_of, outcome_of; cbn [fst snd].
  assert (Ht : trace (with_trace (completion_calls s2 ++ trace s2) s2)
               = completion_calls s2 ++ trace s2) by reflexivity.
  assert (Hl : lastDraw (with_trace (completion_calls s2 ++ trace s2) s2)
               = lastDraw s2) by reflexivity.
  assert (Hs : stream (with_trace (completion_calls s2 ++ trace s2) s2)
               = stream s2) by reflexivity.
  assert (Hc : clear (with_trace (completion_calls s2 ++ trace s2) s2)
               = clear s2) by reflexivity.
  rewrite Ht, Hl, Hs, Hc, completions_app, writes_app,
    completion_calls_count, completion_calls_writes, Htr2, Hld2, Hst2, Hcl2.
  repeat split; [lia|].
  destruct (completed s2), (clear s); cbn [andb negb];
    rewrite ?Nat.add_sub; reflexivity.
Qed.

(** C3, as the code has it: on a stream that is not a terminal no frame
    is ever written and no call of [tick] throws, but the completion
    side-effect is not held back: whenever it runs and [clear] is unset
    it writes one newline.  Over any run the writes are exactly one
    newline per completion side-effect, and none when [clear] is set. *)
Theorem only_newlines_off_terminal (calls : list TickCall) (s : t) :
  isTTY (stream s) = false ->
  let r := ticks calls s in
  let s' := state_of r in
  outcome_of r = Ok tt /\
  lastDraw s' = lastDraw s /\
  (completions (trace s) <= completions (trace s'))%nat /\
  writes (trace s')
  = List.repeat newline
      (if clear s then 0
       else completions (trace s') - completions (trace s))
    ++ writes (trace s).
Proof.
  revert s.
  induction calls as [|c rest IH]; intros s Htty.
  { cbn. rewrite Nat.sub_diag. destruct (clear s); auto. }
  cbn [ticks]. unfold bind, tick_call.
  destruct (tick_off_terminal (arg_current c) (arg_tokens c) (at_time c) s
              Htty) as (Hok & Hle & Hw & Hld & Hst & Hcl).
  destruct (tick (arg_current c) (arg_tokens c) (at_time c) s)
    as [[[]|e] s1]; unfold outcome_of, state_of in *; cbn [fst snd] in *;
    [|discriminate].
  rewrite <- Hst in Htty.
  destruct (IH s1 Htty) as (Hok' & Hld' & Hle' & Hw').
  unfold outcome_of, state_of in *.
  rewrite Hok', Hld', Hld, Hw', Hw, Hcl.
  repeat split; [lia|].
  rewrite app_assoc, <- repeat_app.
  destruct (clear s); [reflexivity|].
  do 2 f_equal. lia.
Qed.
End TickFacts.
(** ** Numbers and texts *)

Lemma Qzero_iff q : Qzero q = true <-> q == 0.
Proof. unfold Qzero. apply Qeq_bool_iff. Qed.

Lemma Qpos_iff q : Qpos q = true <-> 0 < q.
Proof.
  unfold Qpos. rewrite negb_true_iff.
  split.
  - intros H. apply Qnot_le_lt. intros Hle.
    apply Qle_bool_iff in Hle. congruence.
  - intros H. destruct (Qle_bool q 0) eqn:E; [|reflexivity].
    apply Qle_bool_iff in E. exfalso. exact (Qlt_not_le _ _ H E).
Qed.

Lemma gt_zero_cases r :
  (r >? zero)%num = true -> r = PInf \/ exists q, r = Fin q /\ 0 < q.
Proof.
  destruct r as [q| | |]; cbn; try discriminate; auto.
  intros H. right. exists q. split; [reflexivity|].
  apply Qpos_iff. exact H.
Qed.

Lemma le_zero_of_Qle q : q <= 0 -> (Fin q <=? zero)%num = true.
Proof.
  intros H. unfold Num.le, Num.lt, Num.eqb, zero, of_Z.
  destruct (Qle_bool (inject_Z 0) q) eqn:E; [|reflexivity].
  apply Qle_bool_iff in E. cbn [negb orb].
  apply Qeq_bool_iff. apply Qle_antisym; assumption.
Qed.

Lemma unacceptable_total_invalid v :
  unacceptable_total v -> invalid_total v = true.
Proof.
  intros H. unfold invalid_total.
  destruct H as [v Hv| | | |q Hq]; try reflexivity.
  - destruct v; try reflexivity. exfalso. exact (Hv n eq_refl).
  - cbn. apply le_zero_of_Qle. exact Hq.
Qed.

Lemma to_nat_Fin q k : to_nat (Fin q) = Some k -> q == inject_Z (Z.of_nat k).
Proof.
  unfold to_nat.
  destruct (Pos.eqb_spec (Qden (Qred q)) 1) as [Hd|]; [|discriminate].
  destruct (Z.leb_spec 0 (Qnum (Qred q))) as [Hn|]; [|discriminate].
  cbn [andb]. intros [= <-].
  rewrite <- (Qred_correct q) at 1.
  destruct (Qred q) as [n d]. cbn in *. subst d.
  rewrite Z2Nat.id by assumption. reflexivity.
Qed.

Lemma cells_of_integer q (z : Z) : q == inject_Z z -> cells (Fin q) = Z.to_nat z.
Proof. intros H. cbn. rewrite H, Qfloor_Z. reflexivity. Qed.

Lemma cells_of_small q : q + 1 <= 0 -> cells (Fin q) = O.
Proof.
  intros H. cbn.
  assert (Hq : q <= inject_Z (-1)).
  { apply Qplus_le_l with (z := 1). eapply Qle_trans; [exact H|]. discriminate. }
  pose proof (Qfloor_le q) as Hf.
  assert (Hz : (Qfloor q <= -1)%Z).
  { rewrite Zle_Qle. eapply Qle_trans; eassumption. }
  destruct (Qfloor q); try reflexivity; lia.
Qed.

(** [repeat(max(0, x + 1), c)] gives as many copies of [c] as [x] has whole
    cells, when it returns. *)
Lemma repeat_cells {St} (x : number) (c : jsstring) (s0 s1 : St) r :
  repeat (Math_max zero (x + one)%num) c s0 = (Ok r, s1) ->
  r = copies (cells x) c /\ (x = NInf \/ exists q, x = Fin q).
Proof.
  unfold repeat.
  destruct (to_nat _) as [k|] eqn:Hk; [|discriminate].
  destruct (Z.of_nat k <? 2 ^ 32)%Z; [|discriminate].
  intros [= <- _].
  destruct x as [q| | |]; try discriminate.
  - split; [|right; eauto].
    cbn [Num.add one of_Z] in Hk.
    unfold Math_max, zero, of_Z in Hk. cbn [Num.lt] in Hk.
    destruct (Qle_bool (Qred (q + inject_Z 1)) (inject_Z 0)) eqn:E;
      cbn [negb] in Hk.
    + injection Hk as <-.
      apply Qle_bool_iff in E. rewrite Qred_correct in E.
      rewrite cells_of_small by exact E. reflexivity.
    + apply to_nat_Fin in Hk. rewrite Qred_correct in Hk.
      assert (Hq : q == inject_Z (Z.of_nat k - 1)).
      { unfold Z.sub. rewrite inject_Z_plus, inject_Z_opp, <- Hk. ring. }
      rewrite (cells_of_integer Hq).
      destruct k as [|k].
      * reflexivity.
      * replace (Z.to_nat (Z.of_nat (S k) - 1)) with k by lia. reflexivity.
  - split; [|left; reflexivity].
    cbn in Hk. injection Hk as <-. reflexivity.
Qed.

Lemma copies_snoc n c : copies (S n) c = copies n c ++ c.
Proof.
  induction n as [|n IH].
  - cbn. rewrite app_nil_r. reflexivity.
  - cbn [copies] in *. rewrite IH at 1. rewrite app_assoc. reflexivity.
Qed.

(** Cutting the last glyph off and putting it back. *)
Lemma head_glyph_same n (c : jsstring) :
  (length c <= 1)%nat -> (0 < n)%nat ->
  slice_0_m1 (copies n c) ++ c = copies n c.
Proof.
  intros Hc Hn. unfold slice_0_m1.
  destruct n as [|n]; [lia|].
  rewrite copies_snoc.
  destruct c as [|x [|y c]]; cbn [length] in Hc; [| |lia].
  - rewrite !app_nil_r.
    clear. induction n as [|n IH]; [reflexivity|exact IH].
  - rewrite removelast_last. reflexivity.
Qed.

Lemma plain_app s t : plain s -> plain t -> plain (s ++ t).
Proof.
  unfold plain. intros Hs Ht. rewrite existsb_app.
  apply orb_false_intro; assumption.
Qed.




Lemma plain_copies n c : plain c -> plain (copies n c).
Proof.
  intros H. induction n as [|n IH]; [reflexivity|].
  cbn [copies]. apply plain_app; assumption.
Qed.

Lemma string_of_uint_plain (d : Decimal.uint) :
  plain (str (NilEmpty.string_of_uint d)).
Proof. unfold plain. induction d; cbn; auto. Qed.

Lemma digits_plain (n : N) : plain (digits n).
Proof.
  unfold digits, NilZero.string_of_uint.
  destruct (N.to_uint n); try apply string_of_uint_plain; reflexivity.
Qed.

(** The replacement text of [replace] stands for itself when it holds
    no dollar sign. *)
Lemma GetSubstitution_plain before matched after replacement :
  plain replacement ->
  GetSubstitution before matched after replacement = replacement.
Proof.
  unfold plain.
  induction replacement as [|c rest IH]; [reflexivity|].
  cbn [existsb GetSubstitution]. intros H.
  apply orb_false_elim in H. destruct H as [Hc Hrest].
  rewrite N.eqb_sym, Hc, (IH Hrest). reflexivity.
Qed.

Section FormatFacts.
Context {host : Host}.


End FormatFacts.

(** ** The metrics update *)

(** With nothing done yet and time elapsed, the speed is 0 and the
    division by it gives an infinite eta. *)
Lemma eta_of_zero_current c T runtime :
  c == 0 -> 0 < T -> (runtime >? zero)%num = true ->
  eta_of (Fin c) (Fin T) runtime = PInf.
Proof.
  intros Hc HT Hr.
  unfold eta_of.
  assert (Hrem : exists p, (Fin T - Fin c)%num = Fin p /\ 0 < p).
  { eexists. split; [reflexivity|].
    rewrite !Qred_correct, Hc. ring_simplify. exact HT. }
  destruct Hrem as (p & -> & Hp).
  assert (Hsp : exists v, (Fin c / runtime)%num = Fin v /\ v == 0).
  { destruct (gt_zero_cases _ Hr) as [->|(q & -> & Hq)].
    - exists (inject_Z 0). split; reflexivity.
    - cbn [Num.div].
      destruct (Qzero q) eqn:E.
      + apply Qzero_iff in E. rewrite E in Hq. exfalso.
        exact (Qlt_irrefl _ Hq).
      + eexists. split; [reflexivity|].
        rewrite Qred_correct, Hc. unfold Qdiv. ring. }
  destruct Hsp as (v & -> & Hv).
  cbn [Num.div].
  apply Qzero_iff in Hv. rewrite Hv.
  assert (Hnz : Qzero p = false).
  { destruct (Qzero p) eqn:E; [|reflexivity].
    apply Qzero_iff in E. rewrite E in Hp. exfalso.
    exact (Qlt_irrefl _ Hp). }
  rewrite Hnz.
  apply Qpos_iff in Hp. rewrite Hp.
  reflexivity.
Qed.

Lemma bar_update_eta s T :
  ProgressBar.total s = Some T ->
  (runtime_seconds (ProgressBar.startTime s) (ProgressBar.endTime s) >? zero)%num
  = true ->
  Progress.eta (ProgressBar.progress (state_of (ProgressBar.update s)))
  = eta_of (Progress.current (ProgressBar.progress s)) T
           (runtime_seconds (ProgressBar.startTime s) (ProgressBar.endTime s)).
Proof.
  intros Ht Hr. unfold runtime_seconds in *.
  unfold ProgressBar.update, modify, state_of. cbn [snd].
  rewrite Ht, Hr.
  destruct (_ >=? _)%num; reflexivity.
Qed.

Lemma stream_update_eta s T :
  ProgressStream.total s = Some T ->
  (runtime_seconds (ProgressStream.startTime s) (ProgressStream.endTime s)
   >? zero)%num = true ->
  Progress.eta (ProgressStream.progress (state_of (ProgressStream.update s)))
  = eta_of (Progress.current (ProgressStream.progress s)) T
           (runtime_seconds (ProgressStream.startTime s)
                            (ProgressStream.endTime s)).
Proof.
  intros Ht Hr. unfold runtime_seconds in *.
  unfold ProgressStream.update, modify, state_of. cbn [snd].
  rewrite Ht, Hr. reflexivity.
Qed.

(** ** The total *)

Section TotalFacts.
Context {host : Host}.

(** C6: a total that is given and is not a finite positive number makes
    the constructor throw, and assigning one through the setter throws
    and leaves the bar exactly as it was. *)
Theorem invalid_total_is_rejected
        (o : ProgressBarOptions.t) (v : value) (s : ProgressBar.t) :
  ProgressBarOptions.total o = v ->
  unacceptable_total v ->
  (not_null v = true ->
   exists message,
     ProgressBar.constructor (Some o) = Throw (TypeError message)) /\
  ProgressBar.set_total v s
  = (Throw (Error "total value must be a finite positive number"), s).
Proof.
  intros Ho Hv.
  pose proof (unacceptable_total_invalid Hv) as Hi.
  split.
  - intros Hn. unfold ProgressBar.constructor.
    rewrite Ho, Hn, Hi. cbn [andb].
    destruct (not_null (ProgressBarOptions.interval o)
              && invalid_interval (ProgressBarOptions.interval o));
      eexists; reflexivity.
  - unfold ProgressBar.set_total. rewrite Hi. reflexivity.
Qed.

(** C10: flushing a stream built with a positive interval through which
    nothing went throws the setter's error: the end-of-data mark is
    pushed and the callback called, and no progress is notified. *)
Theorem flush_of_empty_stream_throws (s : ProgressStream.t) (now : Z) :
  (ProgressStream.interval s >? zero)%num = true ->
  (Progress.current (ProgressStream.progress s) =? zero)%num = true ->
  ProgressStream._flush now s
  = (Throw (Error "total value must be a finite positive number"),
     ProgressStream.with_trace
       (ProgressStream.callback :: ProgressStream.push None
                                :: ProgressStream.trace s)
       (ProgressStream.with_endTime (of_Z now) s)).
Proof.
  intros Hi Hc.
  unfold ProgressStream._flush, ProgressStream.call.
  unfold bind, modify, get, when.
  cbn [fst snd ProgressStream.interval ProgressStream.with_endTime
       ProgressStream.with_trace ProgressStream.progress
       ProgressStream.trace].
  rewrite Hi.
  unfold ProgressStream.set_total, invalid_total, as_number.
  destruct (Progress.current (ProgressStream.progress s)) as [q| | |];
    try discriminate.
  cbn [isNaN isFinite negb orb].
  unfold Num.le. rewrite Hc, orb_true_r.
  reflexivity.
Qed.

End TotalFacts.

(** ** The snapshot *)

Section SnapshotFacts.
Context {host : Host}.

(** C4, as the code has it: while the total is unset a metrics update, of
    the bar or of the stream, recomputes the runtime only: percent,
    remaining, eta and also speed stay what they were, whatever the
    elapsed time. *)
Theorem unset_total_freezes_snapshot
        (b : ProgressBar.t) (st : ProgressStream.t) :
  ProgressBar.total b = None ->
  ProgressStream.total st = None ->
  derived (ProgressBar.progress (state_of (ProgressBar.update b)))
  = derived (ProgressBar.progress b) /\
  derived (ProgressStream.progress (state_of (ProgressStream.update st)))
  = derived (ProgressStream.progress st).
Proof.
  intros Hb Hs. split.
  - unfold ProgressBar.update, modify, state_of. cbn [snd].
    rewrite Hb.
    destruct (_ >=? _)%num; reflexivity.
  - unfold ProgressStream.update, modify, state_of. cbn [snd].
    rewrite Hs. reflexivity.
Qed.

Lemma constructors_start_at_zero o os b st :
  ProgressBar.constructor o = Ok b ->
  ProgressStream.constructor os = Ok st ->
  (ProgressBar.total b = None ->
   derived (ProgressBar.progress b) = all_zero) /\
  (ProgressStream.total st = None ->
   derived (ProgressStream.progress st) = all_zero).
Proof.
  unfold ProgressBar.constructor, ProgressStream.constructor.
  intros Hb Hs.
  repeat match type of Hb with
         | (if ?c then _ else _) = _ => destruct c; [discriminate|]
         end.
  repeat match type of Hs with
         | (if ?c then _ else _) = _ => destruct c; [discriminate|]
         end.
  injection Hb as <-. injection Hs as <-.
  split; [reflexivity|].
  cbn. intros ->. reflexivity.
Qed.

(** C2: what the code does where the claim has an increment.  A call
    of [tick] without [current] sets [current] to 1, whatever it was. *)
Theorem tick_without_argument_sets_current_to_one
        (s : ProgressBar.t) (customTokens : option ProgressBar.Tokens)
        (now : Z) :
  Progress.current
    (ProgressBar.progress
       (state_of (ProgressBar.tick None customTokens now s)))
  = one.
Proof.
  rewrite tick_unfold.
  destruct (updated_fields None customTokens now s)
    as (_ & _ & Hc & _).
  cbv zeta.
  destruct (Run.passes_gate _ _ _); [|exact Hc].
  set (s2 := ProgressBar.with_prevTime _ _).
  destruct (render_spec s2) as (Hsame & _ & _).
  apply same_but_drawn_fields in Hsame.
  destruct Hsame as (_ & _ & _ & Hp & _).
  unfold bind, state_of in *.
  destruct (ProgressBar.render s2) as [[[]|e] s3]; cbn [snd] in *.
  - rewrite complete_spec. cbn [snd].
    change (Progress.current (ProgressBar.progress s3) = one).
    rewrite Hp. exact Hc.
  - rewrite Hp. exact Hc.
Qed.

Lemma tick_keeps_idle current customTokens now b :
  idle_bar b ->
  idle_bar (state_of (ProgressBar.tick current customTokens now b)).
Proof.
  intros [Ht Hd].
  assert (Hu : idle_bar (Run.updated current customTokens now b)).
  { unfold idle_bar, Run.updated, ProgressBar.update, modify, state_of.
    destruct b as [tk ld cp fm wd mw st cl cc ic ln fv iv tl pt stt et pg tr].
    destruct pg as [pc cur tot rem eta rt sp].
    cbn [ProgressBar.total ProgressBar.progress] in Ht, Hd. subst tl.
    destruct pt as [p|]; bar_simpl;
      destruct (nullish current one >=? tot)%num; bar_simpl;
      split; try reflexivity; exact Hd. }
  rewrite tick_unfold. cbv zeta.
  destruct (Run.passes_gate _ _ _); [|exact Hu].
  set (s2 := ProgressBar.with_prevTime _ _).
  assert (H2 : idle_bar s2) by exact Hu.
  destruct (render_spec s2) as (Hsame & _ & _).
  apply same_but_drawn_fields in Hsame.
  destruct Hsame as (_ & _ & _ & Hp & _ & _ & Htot).
  destruct H2 as [Ht2 Hd2].
  unfold bind, state_of in *.
  destruct (ProgressBar.render s2) as [[[]|e] s3]; cbn [snd] in *.
  - rewrite complete_spec. cbn [snd]. split.
    + change (ProgressBar.total s3 = None). congruence.
    + change (derived (ProgressBar.progress s3) = all_zero). congruence.
  - split; congruence.
Qed.

Lemma transform_keeps_idle chunk now st :
  idle_stream st ->
  idle_stream (state_of (ProgressStream._transform chunk now st)).
Proof.
  intros [Ht Hd].
  unfold ProgressStream._transform, ProgressStream.call, ProgressStream.update,
    ProgressStream.emit, ProgressStream.get_progress.
  unfold bind, modify, get, when, ret, state_of.
  destruct st as [iv pt stt et tl pg op ot tr].
  destruct pg as [pc cur tot rem eta rt sp].
  cbn [ProgressStream.total ProgressStream.progress] in Ht, Hd. subst tl.
  cbn [fst snd ProgressStream.interval ProgressStream.prevTime
       ProgressStream.startTime ProgressStream.endTime ProgressStream.total
       ProgressStream.progress ProgressStream.has_onProgress
       ProgressStream.has_onTotal ProgressStream.trace
       ProgressStream.with_prevTime ProgressStream.with_startTime
       ProgressStream.with_endTime ProgressStream.with_progress
       ProgressStream.with_trace Progress.current Progress.with_current].
  destruct pt as [p|];
    cbn [fst snd ProgressStream.interval ProgressStream.prevTime
         ProgressStream.startTime ProgressStream.endTime ProgressStream.total
         ProgressStream.progress ProgressStream.has_onProgress
         ProgressStream.has_onTotal ProgressStream.trace
         ProgressStream.with_prevTime ProgressStream.with_startTime
         ProgressStream.with_endTime ProgressStream.with_progress
         ProgressStream.with_trace Progress.current Progress.with_current
         nullish];
    destruct (_ >=? iv)%num; destruct op;
    cbn [fst snd ProgressStream.total ProgressStream.progress
         ProgressStream.with_prevTime ProgressStream.with_trace
         ProgressStream.has_onProgress ProgressStream.trace];
    split; try reflexivity; exact Hd.
Qed.

(** Trackers built without a total are idle, and stay so. *)
Lemma no_total_no_metrics (calls : list Run.TickCall)
      (chunks : list (ProgressStream.Buffer * Z)) o os b st :
  ProgressBar.constructor o = Ok b ->
  ProgressStream.constructor os = Ok st ->
  ProgressBar.total b = None ->
  ProgressStream.total st = None ->
  idle_bar (state_of (Run.ticks calls b)) /\
  idle_stream
    (fold_left
       (fun st c => state_of (ProgressStream._transform (fst c) (snd c) st))
       chunks st).
Proof.
  intros Hb Hs Htb Hts.
  destruct (constructors_start_at_zero _ _ Hb Hs) as [Hzb Hzs].
  assert (Hib : idle_bar b) by (split; auto).
  assert (His : idle_stream st) by (split; auto).
  clear - Hib His. split.
  - revert b Hib. induction calls as [|c rest IH]; intros b Hib; [exact Hib|].
    cbn [Run.ticks]. unfold bind, Run.tick_call.
    pose proof (tick_keeps_idle (Run.arg_current c) (Run.arg_tokens c)
                  (Run.at_time c) Hib) as H1.
    unfold state_of in *.
    destruct (ProgressBar.tick _ _ _ b) as [[[]|e] s1]; cbn [snd] in *.
    + apply IH. exact H1.
    + exact H1.
  - revert st His. induction chunks as [|c rest IH]; intros st His;
      [exact His|].
    cbn [fold_left]. apply IH. apply transform_keeps_idle. exact His.
Qed.

End SnapshotFacts.

(** ** The frame *)

Section FrameFacts.
Context {host : Host}.
Import ProgressBar.

(** The text put in the place of [{bar}]: as many complete glyphs as the
    fill has cells, then as many incomplete ones as are left of the
    width. *)
Lemma bar_text_cells (s : t) (availableSpace : number) (s0 s1 : t)
        (bar : jsstring) :
  (length (completeChar s) <= 1)%nat ->
  bar_text s availableSpace s0 = (Ok bar, s1) ->
  let width := bar_width s availableSpace in
  let fill := Math_round (width * bar_ratio s)%num in
  bar = copies (cells fill) (completeChar s)
        ++ copies (cells (width - fill)%num) (incompleteChar s).
Proof.
  intros Hc. unfold bar_text, bind.
  set (W := bar_width s availableSpace).
  set (F := Math_round (W * bar_ratio s)%num).
  remember (F >? zero)%num as pos eqn:Hpos.
  destruct (repeat _ (incompleteChar s) s0) as [[inc|e] s2] eqn:Ei;
    [|discriminate].
  destruct (repeat _ (completeChar s) s2) as [[com|e] s3] eqn:Ec;
    [|discriminate].
  intros [= <- _]. cbv zeta.
  apply repeat_cells in Ei. destruct Ei as (-> & _).
  apply repeat_cells in Ec. destruct Ec as (-> & Hfill).
  f_equal.
  destruct pos; [|reflexivity]. symmetry in Hpos.
  apply head_glyph_same; [exact Hc|].
  subst F. unfold Math_round in *.
  destruct (W * bar_ratio s)%num as [x| | |]; try discriminate.
  - unfold of_Z in *. cbn [cells]. rewrite Qfloor_Z.
    unfold Num.gt, Num.lt, zero, of_Z in Hpos.
    apply Qpos_iff in Hpos.
    change 0 with (inject_Z 0) in Hpos.
    rewrite <- Zlt_Qlt in Hpos. lia.
  - destruct Hfill as [Hf|(q & Hf)]; discriminate.
Qed.

(** The constructor keeps at most the first code unit of a glyph. *)
Lemma constructor_glyphs o s :
  constructor o = Ok s ->
  (length (completeChar s) <= 1)%nat /\ (length (incompleteChar s) <= 1)%nat.
Proof.
  unfold constructor.
  repeat match goal with
         | |- (if ?c then _ else _) = _ -> _ => destruct c; [discriminate|]
         end.
  intros [= <-]. cbn [completeChar incompleteChar].
  unfold getChar, charAt_0.
  split.
  - destruct o as [o|]; [destruct (ProgressBarOptions.completeChar o) as [g|]|];
      cbn [nullish]; try (cbn; lia).
    destruct (Nat.leb_spec 1 (length g)); cbn [nullish]; [|lia].
    rewrite length_firstn. lia.
  - destruct o as [o|]; [destruct (ProgressBarOptions.incompleteChar o) as [g|]|];
      cbn [nullish]; try (cbn; lia).
    destruct (Nat.leb_spec 1 (length g)); cbn [nullish]; [|lia].
    rewrite length_firstn. lia.
Qed.

(** The frame with glyphs other than the dollar sign. *)
Lemma frame_bar_region (s s0 s1 : t) (out : jsstring) (i : nat) :
  (length (completeChar s) <= 1)%nat ->
  plain (completeChar s) -> plain (incompleteChar s) ->
  let output := render_tokens s in
  let len := of_nat (length (replace output (str "{bar}") [])) in
  (columns (stream s) >? len)%num = true ->
  indexOf (str "{bar}") output = Some i ->
  frame s s0 = (Ok out, s1) ->
  let width := bar_width s (available_space (columns (stream s)) len) in
  let fill := Math_round (width * bar_ratio s)%num in
  out = firstn i output
        ++ (copies (cells fill) (completeChar s)
            ++ copies (cells (width - fill)%num) (incompleteChar s))
        ++ skipn (i + 5) output.
Proof.
  intros Hc Hpc Hpi output len Hcols Hi.
  unfold frame. fold output. fold len. rewrite Hcols.
  unfold bind.
  destruct (bar_text s _ s0) as [[bar|e] s2] eqn:Eb; [|discriminate].
  intros [= <- _].
  apply bar_text_cells in Eb; [|exact Hc].
  cbv zeta in Eb. rewrite <- Eb.
  unfold replace. rewrite Hi.
  rewrite GetSubstitution_plain; [reflexivity|].
  rewrite Eb. apply plain_app; apply plain_copies; assumption.
Qed.

End FrameFacts.

(** ** The eta token *)






















Section EtaText.
Context {host : Host}.


End EtaText.




Lemma tenths_plain (k : Z) : plain (tenths k).
Proof.
  unfold tenths.
  apply plain_app; [apply digits_plain|].
  apply plain_app; [reflexivity|apply digits_plain].
Qed.



Lemma Str_eqb_refl (s : jsstring) : Str.eqb s s = true.
Proof.
  induction s as [|c s IH]; [reflexivity|].
  cbn. rewrite N.eqb_refl. exact IH.
Qed.


Section FrameEta.
Context {host : Host}.
Import ProgressBar.





End FrameEta.


Section EtaToken.
Context {host : Host}.
Import ProgressBar.


End EtaToken.

(** ** The speedometer *)

Section SpeedometerFacts.
Import Speedometer SpeedometerRun.

Lemma ended_timer_stopped s :
  reachable s -> ended s = true -> timer s = false.
Proof.
  induction 1 as [seconds|s Hs IH|s delta v s' Hs IH Hcall]; intros He.
  - discriminate.
  - unfold interval_elapses in *. destruct (timer s) eqn:Ht; auto.
  - unfold speed in Hcall.
    destruct (ended s) eqn:Hes.
    + injection Hcall as _ <-. auto.
    + destruct delta as [d|].
      * destruct (to_nat _); [|discriminate].
        destruct (shift _ _ _ _) as [b p].
        injection Hcall as _ <-. simpl in He. congruence.
      * injection Hcall as _ <-. reflexivity.
Qed.

Lemma frozen_replay events s :
  ended s = true -> timer s = false ->
  replay events s = Returns (List.repeat (lastSpeed s) (calls events)) s.
Proof.
  intros He Ht.
  induction events as [|[|delta] rest IH]; cbn [replay].
  - reflexivity.
  - unfold interval_elapses. rewrite Ht. exact IH.
  - unfold speed. rewrite He, IH. reflexivity.
Qed.

(** A call stores the rate it returns. *)
Lemma speed_stores_the_rate delta s v s' :
  speed delta s = Returns v s' -> lastSpeed s' = v.
Proof.
  unfold speed.
  destruct (ended s).
  - intros [= <- <-]. reflexivity.
  - destruct delta as [d|].
    + destruct (to_nat _); [|discriminate].
      destruct (shift _ _ _ _) as [b p].
      intros [= <- <-]. reflexivity.
    + intros [= <- <-]. reflexivity.
Qed.

(** The events of two lists in a row. *)
Lemma replay_app before after s :
  replay (before ++ after) s
  = match replay before s with
    | Returns vs s' =>
        match replay after s' with
        | Returns ws s'' => Returns (vs ++ ws) s''
        | Diverges => Diverges
        end
    | Diverges => Diverges
    end.
Proof.
  revert s.
  induction before as [|[|delta] rest IH]; intros s; cbn [replay app].
  - destruct (replay after s); reflexivity.
  - apply IH.
  - destruct (speed delta s) as [v s'|]; [|reflexivity].
    rewrite IH.
    destruct (replay rest s') as [vs s''|]; [|reflexivity].
    destruct (replay after s''); reflexivity.
Qed.

Lemma last_cons {A} (ws : list A) (v d : A) :
  List.last (v :: ws) d = List.last ws v.
Proof.
  revert v d. induction ws as [|w ws IH]; intros v d; [reflexivity|].
  change (List.last (v :: w :: ws) d) with (List.last (w :: ws) d).
  rewrite (IH w d), (IH w v). reflexivity.
Qed.

(** After a run, the rate stored is the one the last call returned; it is
    the one stored before when no call was made. *)
Lemma replay_stores_the_last_rate events s vs s' :
  replay events s = Returns vs s' ->
  reachable s ->
  lastSpeed s' = List.last vs (lastSpeed s) /\ reachable s'.
Proof.
  revert s vs.
  induction events as [|[|delta] rest IH]; intros s vs; cbn [replay].
  - intros [= <- <-] Hr. split; [reflexivity|exact Hr].
  - intros H Hr.
    destruct (IH _ _ H (reach_elapse Hr)) as [Hl Hr'].
    split; [|exact Hr'].
    rewrite Hl. unfold interval_elapses.
    destruct (timer s); reflexivity.
  - destruct (speed delta s) as [v s1|] eqn:Hcall; [|discriminate].
    destruct (replay rest s1) as [ws s2|] eqn:Hrest; [|discriminate].
    intros [= <- <-] Hr.
    assert (Hr1 : reachable s1) by (eapply reach_call; eassumption).
    destruct (IH _ _ Hrest Hr1) as [Hl Hr'].
    split; [|exact Hr'].
    rewrite Hl, (@speed_stores_the_rate _ _ _ _ Hcall), last_cons.
    reflexivity.
Qed.

(** C8: take any run of a speedometer, and call the rate the value its
    last call returned (0, the initial rate, when no call was made).  The
    call without a delta that follows returns that rate and stops the
    timer, and every later call, whatever its delta and however many
    intervals elapse, returns that same rate and leaves the speedometer
    as it is. *)
Theorem speedometer_frozen_after_end
        (seconds : option number) (before after : list Event)
        (vs : list slot) (s : t) :
  replay before (speedometer seconds) = Returns vs s ->
  let rate := List.last vs (Some zero) in
  exists s1,
    replay (before ++ [call None]) (speedometer seconds)
    = Returns (vs ++ [rate]) s1 /\
    ended s1 = true /\ timer s1 = false /\
    replay (before ++ call None :: after) (speedometer seconds)
    = Returns (vs ++ rate :: List.repeat rate (calls after)) s1.
Proof.
  intros Hrun rate.
  destruct (@replay_stores_the_last_rate _ _ _ _ Hrun (reach_new seconds))
    as [Hl Hr].
  change (lastSpeed (speedometer seconds)) with (Some zero) in Hl.
  fold rate in Hl.
  assert (Hend : exists s1,
             speed None s = Returns rate s1 /\ lastSpeed s1 = rate /\
             ended s1 = true /\ timer s1 = false).
  { unfold speed. destruct (ended s) eqn:He.
    - exists s. rewrite Hl.
      repeat split; auto using ended_timer_stopped.
    - exists (end_ s). cbn [end_ lastSpeed]. rewrite Hl.
      repeat split; reflexivity. }
  destruct Hend as (s1 & Hcall & Hl1 & He1 & Ht1).
  exists s1. repeat split; try assumption.
  - rewrite replay_app, Hrun. cbn [replay]. rewrite Hcall. reflexivity.
  - rewrite replay_app, Hrun. cbn [replay]. rewrite Hcall.
    rewrite (@frozen_replay after s1 He1 Ht1), Hl1. reflexivity.
Qed.

End SpeedometerFacts.

(** With a total set, nothing done yet and time elapsed, both metrics
    updates compute an infinite eta. *)
Lemma update_eta_infinite (b : ProgressBar.t) (st : ProgressStream.t)
      (T c : Q) :
  0 < T -> c == 0 ->
  (ProgressBar.total b = Some (Fin T) ->
   Progress.current (ProgressBar.progress b) = Fin c ->
   (runtime_seconds (ProgressBar.startTime b) (ProgressBar.endTime b)
    >? zero)%num = true ->
   Progress.eta (ProgressBar.progress (state_of (ProgressBar.update b)))
   = PInf) /\
  (ProgressStream.total st = Some (Fin T) ->
   Progress.current (ProgressStream.progress st) = Fin c ->
   (runtime_seconds (ProgressStream.startTime st) (ProgressStream.endTime st)
    >? zero)%num = true ->
   Progress.eta (ProgressStream.progress (state_of (ProgressStream.update st)))
   = PInf).
Proof.
  intros HT Hc. split; intros Ht Hcur Hr.
  - rewrite (bar_update_eta _ Ht Hr), Hcur.
    apply eta_of_zero_current; assumption.
  - rewrite (stream_update_eta _ Ht Hr), Hcur.
    apply eta_of_zero_current; assumption.
Qed.

(* ================================================================= *)
(** * The properties on concrete runs *)

Section Concrete.
Import Examples ProgressBar Run.

Lemma print_natural_plain x : plain (print_natural x).
Proof.
  unfold print_natural.
  destruct (to_nat x); [apply digits_plain|reflexivity].
Qed.

(** Node on a platform other than Windows, its standard error a terminal
    of 80 columns. *)
#[local] Instance node : Host :=
  {| Number_toString := print_natural;
     IS_WINDOWS := false;
     process_stderr := tty 80;
     Number_toString_plain := print_natural_plain |}.

Example constructor_builds_fresh_bar :
  constructor (Some (options (Num (of_Z 10)) Undefined (tty 80)))
  = Ok (fresh_bar (Some (of_Z 10)) (tty 80)).
Proof. reflexivity. Qed.

Example constructor_builds_fresh_stream :
  ProgressStream.constructor
    (Some (stream_options (Num (of_Z 100)) (Num (of_Z 500))))
  = Ok (fresh_stream (Some (of_Z 100)) (of_Z 500)).
Proof. reflexivity. Qed.

(** *** C1 *)

(** The claim fails: with total 10 on a terminal and no throttle, the bar
    reaches 10 at the second call and is ticked once more; the completion
    side-effect runs twice. *)
Lemma completion_runs_twice :
  let calls := [at_ 5 0; at_ 10 20; at_ 10 40] in
  let r := ticks calls (fresh_bar (Some (of_Z 10)) (tty 80)) in
  outcome_of r = Ok tt /\
  completions (trace (state_of r)) = 2%nat /\
  ~ (completions (trace (state_of r)) <= 1)%nat.
Proof.
  vm_compute. repeat split. lia.
Qed.

Lemma completion_runs_at_each_gate_pass_witness :
  let calls := [at_ 5 0; at_ 10 20; at_ 10 40] in
  let s := fresh_bar (Some (of_Z 10)) (tty 80) in
  outcome_of (ticks calls s) = Ok tt /\
  completions (trace (state_of (ticks calls s)))
  = (gate_passes_when_complete (completed s) (prevTime s) (interval s)
       (Progress.total (progress s)) calls
     + completions (trace s))%nat.
Proof.
  cbv zeta.
  split; [vm_compute; reflexivity|].
  apply (completion_runs_at_each_gate_pass
           [at_ 5 0; at_ 10 20; at_ 10 40]
           (fresh_bar (Some (of_Z 10)) (tty 80))).
  vm_compute. reflexivity.
Defined.

(** *** C2 *)

(** At 5, a call without argument leaves the bar at 1, not at 6. *)
Example tick_after_five_gives_one :
  let r := ticks [at_ 5 0; bare 20] (fresh_bar (Some (of_Z 10)) (tty 80)) in
  outcome_of r = Ok tt /\
  Progress.current (progress (state_of r)) = one /\
  Progress.current (progress (state_of r)) <> of_Z 6.
Proof. vm_compute. repeat split. discriminate. Qed.

(** *** C3 *)

(** The claim fails: a run from 0 to the total 3 on a pipe writes a
    newline. *)
Lemma newline_written_off_terminal :
  let calls := [at_ 0 0; at_ 1 20; at_ 2 40; at_ 3 60] in
  let r := ticks calls (fresh_bar (Some (of_Z 3)) pipe) in
  isTTY pipe = false /\
  outcome_of r = Ok tt /\
  writes (trace (state_of r)) = [newline] /\
  writes (trace (state_of r)) <> [].
Proof.
  vm_compute. repeat split. discriminate.
Qed.

Lemma only_newlines_off_terminal_witness :
  let calls := [at_ 0 0; at_ 1 20; at_ 2 40; at_ 3 60] in
  let s := fresh_bar (Some (of_Z 3)) pipe in
  let r := ticks calls s in
  isTTY (stream s) = false /\
  outcome_of r = Ok tt /\
  lastDraw (state_of r) = lastDraw s /\
  (completions (trace s) <= completions (trace (state_of r)))%nat /\
  writes (trace (state_of r))
  = List.repeat newline
      (if clear s then 0
       else completions (trace (state_of r)) - completions (trace s))
    ++ writes (trace s).
Proof.
  cbv zeta.
  split; [reflexivity|].
  apply (only_newlines_off_terminal
           [at_ 0 0; at_ 1 20; at_ 2 40; at_ 3 60]
           (fresh_bar (Some (of_Z 3)) pipe)).
  reflexivity.
Defined.

(** *** C4 *)

(** The claim fails: without a total, 20 units after one second leave the
    speed at 0, not at 20 a second. *)
Lemma speed_stays_zero_without_total :
  let r := ticks [at_ 10 0; at_ 20 1000] (fresh_bar None (tty 80)) in
  let p := progress (state_of r) in
  outcome_of r = Ok tt /\
  total (state_of r) = None /\
  Progress.current p = of_Z 20 /\
  Progress.runtime p = one /\
  Progress.speed p = zero /\
  Progress.speed p <> (Progress.current p / Progress.runtime p)%num.
Proof. vm_compute. repeat split. discriminate. Qed.

Lemma unset_total_freezes_snapshot_witness :
  let b := fresh_bar None (tty 80) in
  let st := fresh_stream None (of_Z 500) in
  (ProgressBar.total b = None /\ ProgressStream.total st = None) /\
  derived (ProgressBar.progress (state_of (ProgressBar.update b)))
  = derived (ProgressBar.progress b) /\
  derived (ProgressStream.progress (state_of (ProgressStream.update st)))
  = derived (ProgressStream.progress st).
Proof.
  cbv zeta. split; [split; reflexivity|].
  apply (unset_total_freezes_snapshot
           (fresh_bar None (tty 80)) (fresh_stream None (of_Z 500)));
    reflexivity.
Defined.

(** *** C5 *)

(** C5: what the code does where the claim has an eta of 0.  With total
    100, a bar ticked at 0 twice a second apart, and a stream passing two
    empty chunks a second apart, have speed 0 and an infinite eta. *)
Theorem eta_is_infinite_at_zero_current :
  let bar := state_of (ticks [at_ 0 0; at_ 0 1000]
                             (fresh_bar (Some (of_Z 100)) (tty 80))) in
  let stream :=
    state_of
      ((ProgressStream._transform [] 0 ;;
        ProgressStream._transform [] 1000)%method
         (fresh_stream (Some (of_Z 100)) zero)) in
  (Progress.current (progress bar) = zero /\
   Progress.runtime (progress bar) = one /\
   Progress.speed (progress bar) = zero /\
   Progress.eta (progress bar) = PInf) /\
  (Progress.current (ProgressStream.progress stream) = zero /\
   Progress.runtime (ProgressStream.progress stream) = one /\
   Progress.speed (ProgressStream.progress stream) = zero /\
   Progress.eta (ProgressStream.progress stream) = PInf).
Proof. vm_compute. repeat split. Qed.

(** *** C6 *)

Lemma invalid_total_is_rejected_witness :
  let o := options (Num (of_Z (-5))) Undefined (tty 80) in
  let s := fresh_bar (Some (of_Z 10)) (tty 80) in
  (exists message, constructor (Some o) = Throw (TypeError message)) /\
  set_total (Num (of_Z (-5))) s
  = (Throw (Error "total value must be a finite positive number"), s).
Proof.
  cbv zeta.
  assert (Hv : unacceptable_total (Num (of_Z (-5)))).
  { apply total_not_positive. discriminate. }
  destruct (invalid_total_is_rejected
              (options (Num (of_Z (-5))) Undefined (tty 80))
              (fresh_bar (Some (of_Z 10)) (tty 80)) eq_refl Hv) as [H1 H2].
  split; [apply H1; reflexivity|exact H2].
Defined.

(** *** C7 *)

(** Half way of 100 at width 40, the frame has 20 complete cells. *)
Example half_way_bar_has_twenty_cells :
  let s := bar_with (str "{bar} {percent}") (Some (of_Z 100))
                    (Some (of_Z 40)) C_COMPLETE (tty 80) in
  let r := ticks [at_ 50 0] s in
  outcome_of r = Ok tt /\
  writes (trace (state_of r))
  = [copies 20 C_COMPLETE ++ copies 20 C_INCOMPLETE ++ str " 50.0%"].
Proof. vm_compute. split; reflexivity. Qed.

Example constructor_keeps_the_dollar_glyph :
  constructor
    (Some {| ProgressBarOptions.format := None;
             ProgressBarOptions.total := Num (of_Z 100);
             ProgressBarOptions.current := None;
             ProgressBarOptions.width := Some (of_Z 40);
             ProgressBarOptions.minWidth := None;
             ProgressBarOptions.interval := Undefined;
             ProgressBarOptions.stream := Some (tty 80);
             ProgressBarOptions.clear := None;
             ProgressBarOptions.completeChar := Some (str "$");
             ProgressBarOptions.incompleteChar := None;
             ProgressBarOptions.line := None;
             ProgressBarOptions.formatValue := None |})
  = Ok (bar_with (str "{bar} {percent}") (Some (of_Z 100))
                 (Some (of_Z 40)) (str "$") (tty 80)).
Proof. reflexivity. Qed.

(** C7: what the code does where the claim has 20 complete glyphs.  With
    the dollar sign for complete glyph, the width is 40 and the fill 20,
    and [replace] reads the 20 dollar signs of the bar text as 10 escaped
    ones: the frame written has 10 complete glyphs before the 20
    incomplete ones. *)
Theorem dollar_glyph_halves_the_bar :
  let s := bar_with (str "{bar} {percent}") (Some (of_Z 100))
                    (Some (of_Z 40)) (str "$") (tty 80) in
  let r := ticks [at_ 50 0] s in
  let s' := state_of r in
  let len := of_nat (length (replace (render_tokens s') (str "{bar}") [])) in
  let width := bar_width s' (available_space (columns (stream s')) len) in
  let fill := Math_round (width * bar_ratio s')%num in
  outcome_of r = Ok tt /\
  (columns (stream s') >? len)%num = true /\
  total s' = Some (of_Z 100) /\
  width = of_Z 40 /\ fill = of_Z 20 /\
  writes (trace s')
  = [copies 10 (str "$") ++ copies 20 C_INCOMPLETE ++ str " 50.0%"].
Proof. vm_compute. repeat split; reflexivity. Qed.

(** *** C9 *)

(** Half of 100 done in ten seconds: 5 units a second, an eta of 10
    seconds, shown as 0.0. *)
Example eta_of_ten_seconds_shows_zero :
  let s := state_of (ticks [at_ 0 0; at_ 50 10000]
                       (bar_with (str "{bar} {eta}s") (Some (of_Z 100)) None
                                 C_COMPLETE (tty 80))) in
  Progress.speed (progress s) = of_Z 5 /\
  Progress.eta (progress s) = of_Z 10 /\
  render_tokens s = str "{bar} 0.0s" /\
  lastDraw s = copies 38 C_COMPLETE ++ copies 37 C_INCOMPLETE ++ str " 0.0s".
Proof. vm_compute. repeat split; reflexivity. Qed.



(** *** C10 *)

Lemma flush_of_empty_stream_throws_witness :
  let s := fresh_stream None (of_Z 500) in
  ((ProgressStream.interval s >? zero)%num = true /\
   (Progress.current (ProgressStream.progress s) =? zero)%num = true) /\
  ProgressStream._flush 1000 s
  = (Throw (Error "total value must be a finite positive number"),
     ProgressStream.with_trace
       (ProgressStream.callback :: ProgressStream.push None
                                :: ProgressStream.trace s)
       (ProgressStream.with_endTime (of_Z 1000) s)).
Proof.
  cbv zeta. split; [split; reflexivity|].
  apply (flush_of_empty_stream_throws (fresh_stream None (of_Z 500)) 1000);
    reflexivity.
Defined.

End Concrete.

(** *** C8 *)

Section ConcreteSpeedometer.
Import Speedometer SpeedometerRun.

(** A rate of 100, frozen by the call without delta. *)
Example rate_frozen_at_one_hundred :
  match speed (Some (of_Z 100)) (speedometer None) with
  | Returns _ s =>
      replay [call None; elapse; call (Some (of_Z 7)); elapse; call None] s
      = Returns [Some (of_Z 100); Some (of_Z 100); Some (of_Z 100)] (end_ s)
  | Diverges => False
  end.
Proof. vm_compute. reflexivity. Qed.

Lemma speedometer_frozen_after_end_witness :
  let before := [call (Some (of_Z 100)); elapse; call (Some (of_Z 50))] in
  let after := [elapse; call (Some (of_Z 7)); elapse; call None] in
  let vs := [Some (of_Z 100); Some (of_Z 150)] in
  let rate := Some (of_Z 150) in
  exists s,
    replay before (speedometer None) = Returns vs s /\
    exists s1,
      replay (before ++ [call None]) (speedometer None)
      = Returns (vs ++ [rate]) s1 /\
      ended s1 = true /\ timer s1 = false /\
      replay (before ++ call None :: after) (speedometer None)
      = Returns (vs ++ rate :: List.repeat rate (calls after)) s1.
Proof.
  cbv zeta. eexists. split; [vm_compute; reflexivity|].
  refine (@speedometer_frozen_after_end
            None
            [call (Some (of_Z 100)); elapse; call (Some (of_Z 50))]
            [elapse; call (Some (of_Z 7)); elapse; call None]
            [Some (of_Z 100); Some (of_Z 150)] _ _).
  vm_compute. reflexivity.
Defined.

End ConcreteSpeedometer.

(* ================================================================= *)
(** * Further properties *)

(** ** The constructor of the bar *)

Lemma Qneg_iff q : Qneg q = true <-> q < 0.
Proof.
  unfold Qneg. rewrite negb_true_iff. split.
  - intros H. apply Qnot_le_lt. intros Hle.
    apply Qle_bool_iff in Hle. congruence.
  - intros H. destruct (Qle_bool 0 q) eqn:E; [|reflexivity].
    apply Qle_bool_iff in E. exfalso. exact (Qlt_not_le _ _ H E).
Qed.

Lemma not_null_given v : not_null v = true <-> given v.
Proof.
  unfold given. destruct v; cbn; split; intros H;
    try discriminate; try (split; discriminate); try reflexivity;
    destruct H; congruence.
Qed.

Lemma invalid_total_iff v : invalid_total v = true <-> unacceptable_total v.
Proof.
  split; [|apply unacceptable_total_invalid].
  unfold invalid_total, as_number.
  destruct v as [| |[q| | |]| |]; cbn;
    try (intros _; apply total_not_a_number; intros n; discriminate);
    try (intros _; first [apply total_NaN|apply total_PInf|apply total_NInf]).
  intros H. apply total_not_positive.
  unfold Num.le, Num.lt, Num.eqb, zero, of_Z in H.
  apply orb_true_iff in H. destruct H as [H|H].
  - apply negb_true_iff in H. apply Qlt_le_weak.
    apply Qnot_le_lt. intros Hle. apply Qle_bool_iff in Hle.
    change (inject_Z 0) with 0 in H. congruence.
  - apply Qeq_bool_iff in H. rewrite H. apply Qle_refl.
Qed.

Lemma invalid_interval_iff v :
  invalid_interval v = true <-> unacceptable_interval v.
Proof.
  unfold invalid_interval, as_number. split.
  - destruct v as [| |[q| | |]| |]; cbn;
      try (intros _; apply interval_not_a_number; intros n; discriminate);
      try (intros _;
           first [apply interval_NaN|apply interval_PInf|apply interval_NInf]).
    intros H. apply interval_negative.
    unfold Num.lt, zero, of_Z in H. apply Qneg_iff. exact H.
  - intros H. destruct H as [v Hv| | | |q Hq]; try reflexivity.
    + destruct v; try reflexivity. exfalso. exact (Hv n eq_refl).
    + cbn. apply Qneg_iff. exact Hq.
Qed.

Lemma le_refl_Fin q : (Fin q <=? Fin q)%num = true.
Proof.
  unfold Num.le, Num.eqb. apply orb_true_iff. right.
  apply Qeq_bool_iff. reflexivity.
Qed.

Lemma le_Fin_iff p q : (Fin p <=? Fin q)%num = true <-> p <= q.
Proof.
  unfold Num.le, Num.lt, Num.eqb. rewrite orb_true_iff. split.
  - intros [H|H].
    + apply negb_true_iff in H. apply Qlt_le_weak. apply Qnot_le_lt.
      intros Hle. apply Qle_bool_iff in Hle. congruence.
    + apply Qeq_bool_iff in H. rewrite H. apply Qle_refl.
  - intros H. destruct (Qle_bool q p) eqn:E; [|left; reflexivity].
    right. apply Qle_bool_iff in E. apply Qeq_bool_iff.
    apply Qle_antisym; assumption.
Qed.

Lemma lt_Fin_iff p q : (Fin p <? Fin q)%num = true <-> p < q.
Proof.
  unfold Num.lt. rewrite negb_true_iff. split.
  - intros H. apply Qnot_le_lt. intros Hle.
    apply Qle_bool_iff in Hle. congruence.
  - intros H. destruct (Qle_bool q p) eqn:E; [|reflexivity].
    apply Qle_bool_iff in E. exfalso. exact (Qlt_not_le _ _ H E).
Qed.

Lemma Math_max_ge a b :
  isNaN a = false -> isNaN b = false -> (Math_max a b >=? b)%num = true.
Proof.
  intros Ha Hb. unfold Math_max, Num.ge.
  destruct a as [p| | |], b as [q| | |]; try discriminate; try reflexivity.
  - destruct (Fin p <? Fin q)%num eqn:E; [apply le_refl_Fin|].
    apply le_Fin_iff.
    destruct (Qlt_le_dec p q) as [H|H]; [|exact H].
    apply lt_Fin_iff in H. congruence.
  - apply le_refl_Fin.
Qed.

Section BarConstructor.
Context {host : Host}.
Import ProgressBar.

Lemma bar_token_prepended (f : jsstring) :
  includes (str "{bar} " ++ f) (str "{bar}") = true.
Proof. reflexivity. Qed.

Lemma getChar_short g d :
  (length d <= 1)%nat -> (length (nullish (getChar g) d) <= 1)%nat.
Proof.
  intros Hd. unfold getChar, charAt_0.
  destruct g as [g|]; cbn [nullish]; [|exact Hd].
  destruct (Nat.leb_spec 1 (length g)); cbn [nullish].
  - rewrite length_firstn. lia.
  - lia.
Qed.

Lemma as_number_Some v n : as_number v = Some n -> v = Num n /\ isNaN n = false.
Proof.
  unfold as_number. destruct v; try discriminate.
  destruct (isNaN n0) eqn:E; [discriminate|].
  intros [= <-]. auto.
Qed.

(** A bar the constructor builds has drawn nothing, and its snapshot has
    the total the getter returns. *)
Lemma constructor_starts_idle (o : option ProgressBarOptions.t) (b : t) :
  constructor o = Ok b ->
  Progress.total (progress b) = get_total b /\
  completed b = false /\ prevTime b = None /\ trace b = [].
Proof.
  unfold constructor.
  destruct (not_null _ && invalid_interval _); [discriminate|].
  destruct (not_null _ && invalid_total _); [discriminate|].
  destruct (match _ with Some l => _ | None => false end); [discriminate|].
  intros [= <-]. repeat split.
Qed.

(** X1: every bar the constructor builds has a format that holds the
    [{bar}] token, a minimal width of at least [MIN_WIDTH], a finite
    interval that is not negative, no total or a finite positive one, a
    snapshot whose total is what the getter of [total] returns, glyphs of
    at most one code unit, and has drawn nothing yet. *)
Theorem constructor_builds_fresh (o : option ProgressBarOptions.t) (b : t) :
  constructor o = Ok b -> fresh b.
Proof.
  unfold constructor.
  set (interval := match o with Some o => _ | None => Undefined end).
  set (total := match o with Some o => ProgressBarOptions.total o
                        | None => Undefined end).
  set (f := nullish _ (str "{bar} {percent}")).
  destruct (not_null interval && invalid_interval interval) eqn:Ei;
    [discriminate|].
  destruct (not_null total && invalid_total total) eqn:Et; [discriminate|].
  destruct (match _ with Some l => _ | None => false end); [discriminate|].
  intros [= <-].
  split; cbn [format minWidth ProgressBar.interval ProgressBar.total progress
              completeChar incompleteChar completed prevTime lastDraw trace
              Progress.total get_total].
  - destruct (includes f (str "{bar}")) eqn:E; [exact E|].
    apply bar_token_prepended.
  - unfold clamp.
    destruct (as_number (option_value _)) as [n|] eqn:En.
    + apply as_number_Some in En. destruct En as [_ Hn].
      cbn [as_number]. apply Math_max_ge; [exact Hn|reflexivity].
    + reflexivity.
  - unfold clamp.
    destruct (as_number interval) as [n|] eqn:En.
    + pose proof (as_number_Some _ En) as [Hv Hn].
      unfold invalid_interval in Ei. rewrite En, Hv in Ei.
      cbn [not_null andb] in Ei.
      apply orb_false_elim in Ei. destruct Ei as [Hf Hl].
      destruct n as [q| | |]; try discriminate.
      exists q. cbn [as_number]. unfold Math_max. rewrite Hl.
      split; [reflexivity|].
      destruct (Qlt_le_dec q 0) as [H|H]; [|exact H].
      apply lt_Fin_iff in H. unfold zero, of_Z in Hl.
      change (inject_Z 0) with 0 in Hl. congruence.
    + exists 0. split; [reflexivity|apply Qle_refl].
  - destruct (as_number total) as [T|] eqn:En; [|exact I].
    pose proof (as_number_Some _ En) as [Hv Hn].
    unfold invalid_total in Et. rewrite En, Hv in Et. cbn [not_null andb] in Et.
    apply orb_false_elim in Et. destruct Et as [Hf Hl].
    destruct T as [q| | |]; try discriminate.
    exists q. split; [reflexivity|].
    destruct (Qlt_le_dec 0 q) as [H|H]; [exact H|].
    apply le_Fin_iff in H. unfold zero, of_Z in Hl.
    change (inject_Z 0) with 0 in Hl. congruence.
  - reflexivity.
  - split; apply getChar_short; cbn; lia.
  - repeat split.
Qed.

(** X2: the constructor tests [interval] first, then [total], then
    [line], and throws for the first that is given and unacceptable: a
    TypeError [interval must be a number >= 0], a TypeError
    [total must be a number > 0], an Error [line must be >= 0]. *)
Theorem constructor_rejects_in_order (o : ProgressBarOptions.t) :
  let interval := ProgressBarOptions.interval o in
  let total := ProgressBarOptions.total o in
  (given interval -> unacceptable_interval interval ->
   constructor (Some o) = Throw (TypeError "interval must be a number >= 0"))
  /\
  (~ (given interval /\ unacceptable_interval interval) ->
   given total -> unacceptable_total total ->
   constructor (Some o) = Throw (TypeError "total must be a number > 0"))
  /\
  (~ (given interval /\ unacceptable_interval interval) ->
   ~ (given total /\ unacceptable_total total) ->
   forall l, ProgressBarOptions.line o = Some l -> (l <? zero)%num = true ->
   constructor (Some o) = Throw (Error "line must be >= 0")).
Proof.
  cbv zeta. unfold constructor.
  assert (Hi : given (ProgressBarOptions.interval o) /\
               unacceptable_interval (ProgressBarOptions.interval o) <->
               not_null (ProgressBarOptions.interval o)
               && invalid_interval (ProgressBarOptions.interval o) = true).
  { rewrite andb_true_iff, not_null_given, invalid_interval_iff. tauto. }
  assert (Ht : given (ProgressBarOptions.total o) /\
               unacceptable_total (ProgressBarOptions.total o) <->
               not_null (ProgressBarOptions.total o)
               && invalid_total (ProgressBarOptions.total o) = true).
  { rewrite andb_true_iff, not_null_given, invalid_total_iff. tauto. }
  repeat split.
  - intros H1 H2. rewrite (proj1 Hi (conj H1 H2)). reflexivity.
  - intros Hn H1 H2.
    destruct (not_null _ && invalid_interval _) eqn:E;
      [exfalso; apply Hn, Hi; reflexivity|].
    rewrite (proj1 Ht (conj H1 H2)). reflexivity.
  - intros Hn Hm l Hl Hneg.
    destruct (not_null _ && invalid_interval _) eqn:E;
      [exfalso; apply Hn, Hi; reflexivity|].
    destruct (not_null _ && invalid_total _) eqn:E2;
      [exfalso; apply Hm, Ht; reflexivity|].
    rewrite Hl, Hneg. reflexivity.
Qed.
End BarConstructor.

(** ** Drawing and throttling *)

Section BarBehaviour.
Context {host : Host}.
Import ProgressBar Run.

(** The frame depends on the bar it is built from only, not on the state
    it is built in. *)
Lemma repeat_any_state {St} (n : number) (c : jsstring) (x y : St) :
  fst (repeat n c x) = fst (repeat n c y).
Proof.
  unfold repeat.
  destruct (to_nat n) as [k|]; [destruct (Z.of_nat k <? 2 ^ 32)%Z|];
    reflexivity.
Qed.

Lemma frame_result s :
  exists r, forall x, frame s x = (r, x).
Proof.
  unfold frame.
  destruct (columns (stream s) >? _)%num; [|eexists; intros; reflexivity].
  unfold bind, bar_text.
  set (ni := Math_max zero _). set (nc := Math_max zero _).
  unfold bind, repeat.
  destruct (to_nat ni) as [ki|];
    [destruct (Z.of_nat ki <? 2 ^ 32)%Z|];
    try (eexists; intros; reflexivity).
  destruct (to_nat nc) as [kc|];
    [destruct (Z.of_nat kc <? 2 ^ 32)%Z|];
    eexists; intros; reflexivity.
Qed.

(** X3: rendering a bar again right after it was rendered calls nothing
    on the stream and leaves the bar as it is: the frame is written only
    when it differs from the last one drawn. *)
Theorem render_again_draws_nothing (s s1 : t) :
  render s = (Ok tt, s1) -> render s1 = (Ok tt, s1).
Proof.
  unfold render, bind, get.
  destruct (isTTY (stream s)) eqn:Htty; cbn [negb].
  2:{ intros [= <-]. rewrite Htty. reflexivity. }
  destruct (frame_result s) as [r Hr]. rewrite Hr.
  destruct r as [out|e]; [|discriminate].
  destruct (Str.eqb (lastDraw s) out) eqn:Heq; cbn [negb when].
  - intros [= <-]. rewrite Htty. cbn [negb]. rewrite Hr, Heq. reflexivity.
  - unfold stream_clearLine, call, bind, modify, get.
    cbn [fst snd].
    destruct s as [tk ld cp fm wd mw st cl cc ic ln fv iv tl pt stt et pg tr].
    cbn [stream with_trace with_lastDraw trace lastDraw line] in *.
    destruct (has_clearLine st) eqn:Hcl; [|discriminate].
    bar_simpl. intros [= <-].
    bar_simpl. rewrite Htty. cbn [negb].
    pose proof (frame_result
                  (mk tk out cp fm wd mw st cl cc ic ln fv iv tl pt stt et pg
                      (clearLine 1 :: write out :: cursorTo zero ln :: tr)))
      as [r' Hr'].
    assert (r' = Ok out).
    { specialize
        (Hr (mk tk ld cp fm wd mw st cl cc ic ln fv iv tl pt stt et pg tr)).
      specialize
        (Hr' (mk tk ld cp fm wd mw st cl cc ic ln fv iv tl pt stt et pg tr)).
      change (frame
                (mk tk out cp fm wd mw st cl cc ic ln fv iv tl pt stt et pg
                    (clearLine 1 :: write out :: cursorTo zero ln :: tr)))
        with (frame
                (mk tk ld cp fm wd mw st cl cc ic ln fv iv tl pt stt et pg tr))
        in Hr'.
      congruence. }
    subst r'. rewrite Hr', Str_eqb_refl. reflexivity.
Qed.

(** What a call of [tick] does to the flag, to the snapshot and to the
    time of the last draw, whether it returns or throws. *)
Lemma tick_fields current customTokens now s :
  let s' := state_of (tick current customTokens now s) in
  completed s'
  = completed s || (nullish current one >=? Progress.total (progress s))%num /\
  progress s' = progress (updated current customTokens now s) /\
  prevTime s'
  = (if passes_gate (prevTime s) (interval s) now then Some (of_Z now)
     else Some (nullish (prevTime s) (of_Z now))) /\
  total s' = total s /\ interval s' = interval s /\ stream s' = stream s.
Proof.
  rewrite tick_unfold. cbv zeta.
  destruct (updated_fields current customTokens now s)
    as (Hc & _ & _ & Hp & Hi & Hst & _ & Ht & _ & _).
  destruct (passes_gate (prevTime s) (interval s) now).
  { set (s2 := with_prevTime _ _).
    destruct (render_spec s2) as (Hsame & _ & _).
    apply same_but_drawn_fields in Hsame.
    destruct Hsame as (H1 & H2 & H3 & H4 & H5 & _ & H7).
    unfold bind, state_of in *.
    destruct (render s2) as [[[]|e] s3]; cbn [snd] in *.
    - rewrite complete_spec. cbn [snd]. bar_simpl.
      rewrite H1, H2, H3, H4, H5, H7.
      subst s2. bar_simpl. rewrite Hc, Ht, Hi, Hst. auto 10.
    - rewrite H1, H2, H3, H4, H5, H7.
      subst s2. bar_simpl. rewrite Hc, Ht, Hi, Hst. auto 10. }
  unfold state_of. cbn [snd]. rewrite Hc, Hp, Ht, Hi, Hst. auto 10.
Qed.

(** X4: once a bar is completed it stays so: neither [tick], whatever
    its argument, nor the setter of [total], nor [interrupt] clears the
    flag. *)
Theorem completed_is_never_cleared
        (s : t) (current : option number) (customTokens : option Tokens)
        (now : Z) (v : value) (message : jsstring) :
  completed s = true ->
  completed (state_of (tick current customTokens now s)) = true /\
  completed (state_of (set_total v s)) = true /\
  completed (state_of (interrupt message s)) = true.
Proof.
  intros Hc. repeat split.
  - destruct (tick_fields current customTokens now s) as (H & _).
    rewrite H, Hc. reflexivity.
  - unfold set_total.
    destruct (invalid_total v); [exact Hc|].
    destruct (as_number v); exact Hc.
  - unfold interrupt, stream_clearLine, bind, get, call, modify, throw.
    destruct (has_clearLine (stream s)); exact Hc.
Qed.

(** X5: a [tick] that does not pass the throttle gate returns without
    calling anything on the stream or the listener; the time of the last
    draw stays as it was, or starts at the time of the call when there
    was none; yet [current] is recorded in the snapshot and the
    completion flag is set when [current] has reached the total. *)
Theorem throttled_tick_is_silent
        (s : t) (current : option number) (customTokens : option Tokens)
        (now : Z) :
  passes_gate (prevTime s) (interval s) now = false ->
  let r := tick current customTokens now s in
  outcome_of r = Ok tt /\
  trace (state_of r) = trace s /\
  lastDraw (state_of r) = lastDraw s /\
  prevTime (state_of r) = Some (nullish (prevTime s) (of_Z now)) /\
  Progress.current (progress (state_of r)) = nullish current one /\
  completed (state_of r)
  = completed s || (nullish current one >=? Progress.total (progress s))%num.
Proof.
  intros Hg. rewrite tick_unfold, Hg. cbv zeta.
  destruct (updated_fields current customTokens now s)
    as (Hc & _ & Hcur & Hp & _ & _ & _ & _ & Htr & Hld).
  unfold outcome_of, state_of. cbn [fst snd]. auto 10.
Qed.

Lemma sub_self_zero (z : Z) : (of_Z z - of_Z z)%num = zero.
Proof.
  unfold Num.sub, Num.neg, Num.add, zero, of_Z. f_equal.
  change (inject_Z 0) with (Qred 0).
  apply Qred_complete. rewrite Qred_correct. ring.
Qed.

(** X6: with a positive interval the first [tick] of a bar never draws:
    it returns, calls nothing, and starts the throttle clock at the time
    of the call. *)
Theorem first_tick_waits_for_the_interval
        (s : t) (current : option number) (customTokens : option Tokens)
        (now : Z) (q : Q) :
  prevTime s = None -> interval s = Fin q -> 0 < q ->
  let r := tick current customTokens now s in
  outcome_of r = Ok tt /\
  trace (state_of r) = trace s /\
  prevTime (state_of r) = Some (of_Z now).
Proof.
  intros Hp Hi Hq.
  assert (Hg : passes_gate (prevTime s) (interval s) now = false).
  { unfold passes_gate. rewrite Hp, Hi. cbn [nullish].
    rewrite sub_self_zero. unfold Num.ge.
    destruct (Fin q <=? zero)%num eqn:E; [|reflexivity].
    apply le_Fin_iff in E. exfalso. exact (Qlt_not_le _ _ Hq E). }
  cbv zeta. rewrite tick_unfold, Hg. cbv zeta.
  destruct (updated_fields current customTokens now s)
    as (_ & _ & _ & Hpt & _ & _ & _ & _ & Htr & _).
  unfold outcome_of, state_of. cbn [fst snd].
  rewrite Hpt, Htr, Hp. auto.
Qed.
End BarBehaviour.

(** ** Time, completion and interruption *)

Lemma Qred_inject_Z z : Qred (inject_Z z) = inject_Z z.
Proof.
  unfold Qred, inject_Z.
  pose proof (Z.ggcd_gcd z 1) as Hg.
  pose proof (Z.ggcd_correct_divisors z 1) as Hd.
  destruct (Z.ggcd z 1) as [g [a b]]. cbn [fst snd] in *.
  rewrite Z.gcd_1_r in Hg. subst g. destruct Hd as [Ha Hb].
  rewrite Z.mul_1_l in Ha, Hb. subst a b. reflexivity.
Qed.

Lemma of_Z_sub a b : (of_Z a - of_Z b)%num = of_Z (a - b).
Proof.
  unfold Num.sub, Num.neg, Num.add, of_Z. f_equal.
  rewrite <- (Qred_inject_Z (a - b)).
  apply Qred_complete. rewrite Qred_correct.
  unfold Z.sub. rewrite inject_Z_plus, inject_Z_opp. ring.
Qed.

Lemma Qfloor_half (d : Z) (y : Q) : y == inject_Z d -> Qfloor (y + (1 # 2)) = d.
Proof.
  intros Hy. apply Z.le_antisymm.
  - assert (H : inject_Z (Qfloor (y + (1 # 2))) < inject_Z (d + 1)).
    { eapply Qle_lt_trans; [apply Qfloor_le|].
      rewrite Hy, inject_Z_plus.
      apply Qplus_lt_r. reflexivity. }
    rewrite <- Zlt_Qlt in H. lia.
  - rewrite <- (Qfloor_Z d). apply Qfloor_resp_le.
    rewrite Hy. rewrite <- (Qplus_0_r (inject_Z d)) at 1.
    apply Qplus_le_r. discriminate.
Qed.

(** Rounding a whole number of milliseconds, in seconds, to three
    decimals changes nothing. *)
Lemma round_millis (d : Z) :
  round (of_Z d / of_Z 1000)%num 3 = (of_Z d / of_Z 1000)%num.
Proof.
  assert (Hdiv : forall z, (of_Z z / of_Z 1000)%num
                           = Fin (Qred (inject_Z z / inject_Z 1000)))
    by reflexivity.
  unfold round. change (pow10 3) with (of_Z 1000).
  rewrite (Hdiv d). unfold of_Z at 1. cbn [Num.mul Math_round].
  rewrite (@Qfloor_half d).
  - apply Hdiv.
  - rewrite !Qred_correct. field.
Qed.

Section BarTime.
Context {host : Host}.
Import ProgressBar Run.

Lemma tick_startTime current customTokens now s :
  startTime (state_of (tick current customTokens now s))
  = startTime (updated current customTokens now s).
Proof.
  rewrite tick_unfold. cbv zeta.
  destruct (passes_gate _ _ _); [|reflexivity].
  set (s2 := with_prevTime _ _).
  destruct (render_spec s2) as (Hsame & _ & _).
  assert (Hs : startTime s2 = startTime (state_of (render s2)))
    by exact (f_equal startTime Hsame).
  unfold bind, state_of in *.
  destruct (render s2) as [[[]|e] s3]; cbn [snd] in *.
  - rewrite complete_spec. cbn [snd]. bar_simpl. rewrite <- Hs. reflexivity.
  - rewrite <- Hs. reflexivity.
Qed.

Lemma updated_runtime current customTokens now s :
  let s1 := updated current customTokens now s in
  startTime s1
  = (match prevTime s with Some _ => startTime s | None => of_Z now end) /\
  Progress.runtime (progress s1)
  = round ((of_Z now - startTime s1) / of_Z 1000)%num 3.
Proof.
  unfold updated, update, modify.
  destruct s as [tk ld cp fm wd mw st cl cc ic ln fv iv tl pt stt et pg tr].
  destruct pg as [pc cur tot rem eta rt sp].
  destruct pt as [p|], tl as [T|]; bar_simpl;
    try destruct (_ >? zero)%num; bar_simpl;
    destruct (nullish current one >=? tot)%num; bar_simpl; auto.
Qed.

(** X7: the first [tick] starts the clock and reports a runtime of 0;
    every later one keeps the start and reports the milliseconds since
    it, exactly, in seconds. *)
Theorem runtime_counts_from_first_tick
        (s : t) (current : option number) (customTokens : option Tokens)
        (now : Z) :
  let s' := state_of (tick current customTokens now s) in
  (prevTime s = None ->
   startTime s' = of_Z now /\ Progress.runtime (progress s') = zero) /\
  (forall start,
      prevTime s <> None -> startTime s = of_Z start ->
      startTime s' = of_Z start /\
      Progress.runtime (progress s') = (of_Z (now - start) / of_Z 1000)%num).
Proof.
  cbv zeta.
  destruct (tick_fields current customTokens now s) as (_ & Hp & _).
  destruct (updated_runtime current customTokens now s) as (Hst & Hrt).
  rewrite tick_startTime, Hp, Hrt, Hst.
  split.
  - intros ->. split; [reflexivity|].
    rewrite sub_self_zero. reflexivity.
  - intros start Hn Hs. destruct (prevTime s); [|congruence].
    rewrite Hs, of_Z_sub. split; [reflexivity|apply round_millis].
Qed.

(** X8: a bar built without a total is completed by its first [tick]
    with a [current] of 0 or more; built without an interval, that
    [tick] runs the completion side-effect once. *)
Theorem bar_without_total_completes_at_once
        (o : option ProgressBarOptions.t) (b : t)
        (current : option number) (customTokens : option Tokens) (now : Z) :
  constructor o = Ok b ->
  total b = None ->
  (nullish current one >=? zero)%num = true ->
  let r := tick current customTokens now b in
  completed (state_of r) = true /\
  (interval b = zero -> outcome_of r = Ok tt ->
   completions (trace (state_of r)) = 1%nat).
Proof.
  intros Hb Ht Hc. cbv zeta.
  destruct (constructor_starts_idle _ Hb) as (Hsnap & Hcomp & Hprev & Htr).
  assert (Htot : Progress.total (progress b) = zero).
  { rewrite Hsnap. unfold get_total. rewrite Ht. reflexivity. }
  split.
  - destruct (tick_fields current customTokens now b) as (H & _).
    rewrite H, Htot, Hc. apply orb_true_r.
  - intros Hi Hok.
    destruct (tick_step current customTokens now b Hok) as (H & _).
    rewrite H, Htot, Hc, Hprev, Hi, Htr, orb_true_r.
    unfold passes_gate. cbn [nullish]. rewrite sub_self_zero. reflexivity.
Qed.

(** When [#render()] returns it has drawn nothing or one frame, which it
    remembers. *)
Lemma render_draws s s1 :
  render s = (Ok tt, s1) ->
  trace s1 = trace s \/
  trace s1 = clearLine 1 :: write (lastDraw s1) :: cursorTo zero (line s)
                         :: trace s /\
  has_clearLine (stream s1) = true /\ line s1 = line s.
Proof.
  unfold render, bind, get.
  destruct (isTTY (stream s)); cbn [negb]; [|intros [= <-]; auto].
  destruct (frame_result s) as [r Hr]. rewrite Hr.
  destruct r as [out|e]; [|discriminate].
  destruct (Str.eqb (lastDraw s) out); cbn [negb when];
    [intros [= <-]; auto|].
  unfold stream_clearLine, call, bind, modify, get. cbn [fst snd].
  destruct s as [tk ld cp fm wd mw st cl cc ic ln fv iv tl pt stt et pg tr].
  bar_simpl.
  destruct (has_clearLine st) eqn:Hcl; [|discriminate].
  intros [= <-]. right. bar_simpl. auto.
Qed.

(** X9: after a render that drew a frame, [interrupt] clears the line,
    moves to its start, writes the message and a newline, and writes that
    same frame again; on a stream without [clearLine] it throws and calls
    nothing. *)
Theorem interrupt_shows_the_last_frame_again :
  (forall (s s1 : t) (message : jsstring),
      render s = (Ok tt, s1) -> trace s1 <> trace s ->
      exists f,
        trace s1 = clearLine 1 :: write f :: cursorTo zero (line s)
                               :: trace s /\
        interrupt message s1
        = (Ok tt,
           with_trace
             (write f :: write newline :: write message
                      :: cursorTo zero (line s) :: clearLine 0 :: trace s1)
             s1)) /\
  (forall (s : t) (message : jsstring),
      has_clearLine (stream s) = false ->
      interrupt message s
      = (Throw (TypeError "this.#stream.clearLine is not a function"), s)).
Proof.
  split.
  - intros s s1 message Hr Hne.
    destruct (render_draws _ Hr) as [H|(Htr & Hcl & Hln)]; [contradiction|].
    exists (lastDraw s1). split; [exact Htr|].
    unfold interrupt, stream_clearLine, bind, get, call, modify.
    rewrite Hcl. cbn [fst snd]. bar_simpl. rewrite Hln. reflexivity.
  - intros s message Hcl.
    unfold interrupt, stream_clearLine, bind, get, throw.
    rewrite Hcl. reflexivity.
Qed.
End BarTime.

(** ** The width of a frame *)

Lemma length_copies n (c : jsstring) :
  length (copies n c) = (n * length c)%nat.
Proof.
  induction n as [|n IH]; [reflexivity|].
  cbn [copies]. rewrite length_app, IH. reflexivity.
Qed.

Lemma gt_of_nat a b : (of_nat a >? of_nat b)%num = true <-> (b < a)%nat.
Proof.
  unfold Num.gt, of_nat, of_Z. rewrite lt_Fin_iff, <- Zlt_Qlt. lia.
Qed.

Lemma eqb_of_nat a b : (of_nat a =? of_nat b)%num = true <-> a = b.
Proof.
  unfold of_nat, of_Z, Num.eqb. rewrite Qeq_bool_iff, inject_Z_injective. lia.
Qed.

(** The numbers behind the operations on finite numbers. *)
Lemma sub_Fin p q : exists x, (Fin p - Fin q)%num = Fin x /\ x == p - q.
Proof.
  eexists. split; [reflexivity|]. rewrite !Qred_correct. ring.
Qed.

Lemma add_Fin p q : exists x, (Fin p + Fin q)%num = Fin x /\ x == p + q.
Proof. eexists. split; [reflexivity|]. apply Qred_correct. Qed.

Lemma mul_Fin p q : exists x, (Fin p * Fin q)%num = Fin x /\ x == p * q.
Proof. eexists. split; [reflexivity|]. apply Qred_correct. Qed.

Lemma to_nat_max_zero (x : Q) (k : nat) :
  to_nat (Math_max zero (Fin x)) = Some k ->
  (x <= 0 /\ k = O) \/ (0 < x /\ x == inject_Z (Z.of_nat k)).
Proof.
  unfold Math_max, zero, of_Z. 
  destruct (Fin (inject_Z 0) <? Fin x)%num eqn:E.
  - apply lt_Fin_iff in E. intros H. apply to_nat_Fin in H. right. auto.
  - intros [= <-]. left. split; [|reflexivity].
    destruct (Qlt_le_dec 0 x) as [H|H]; [|exact H].
    apply lt_Fin_iff in H. change (inject_Z 0) with 0 in E. congruence.
Qed.

(** The cells of a bar of width [w] filled in the ratio [r], when the
    count of incomplete cells is an array length, are at most [w]. *)
Lemma bar_cells_bound (w r a y d : Q) (k : nat) :
  0 <= r -> r <= 1 -> w <= a -> 0 <= a ->
  y == w * r ->
  d == w - inject_Z (Qfloor (y + (1 # 2))) ->
  (d + 1 <= 0 /\ k = O) \/ (0 < d + 1 /\ d + 1 == inject_Z (Z.of_nat k)) ->
  inject_Z (Z.of_nat (Z.to_nat (Qfloor (y + (1 # 2))) + Z.to_nat (Qfloor d)))
  <= a.
Proof.
  intros Hr0 Hr1 Hwa Ha Hy Hd Hk.
  set (z := Qfloor (y + (1 # 2))) in *.
  pose proof (Qfloor_le (y + (1 # 2))) as Hz1.
  pose proof (Qlt_floor (y + (1 # 2))) as Hz2.
  fold z in Hz1, Hz2. rewrite inject_Z_plus in Hz2.
  change (inject_Z 1) with 1 in Hz2.
  destruct (Qlt_le_dec w 0) as [Hw|Hw].
  - (* a negative width has no cells *)
    assert (Hyw : w <= y /\ y <= 0) by (rewrite Hy; split; nra).
    assert (Hz0 : (z <= 0)%Z).
    { assert (H : inject_Z z < inject_Z 1) by (change (inject_Z 1) with 1; lra).
      rewrite <- Zlt_Qlt in H. lia. }
    assert (Hd0 : (Qfloor d <= 0)%Z).
    { assert (H : inject_Z (Qfloor d) < inject_Z 1).
      { eapply Qle_lt_trans; [apply Qfloor_le|].
        change (inject_Z 1) with 1. lra. }
      rewrite <- Zlt_Qlt in H. lia. }
    replace (Z.to_nat z) with O by lia.
    replace (Z.to_nat (Qfloor d)) with O by lia.
    exact Ha.
  - assert (Hyw : 0 <= y /\ y <= w) by (rewrite Hy; split; nra).
    assert (Hz0 : (0 <= z)%Z).
    { assert (H : inject_Z (-1) < inject_Z z)
        by (change (inject_Z (-1)) with (-1 # 1); lra).
      rewrite <- Zlt_Qlt in H. lia. }
    destruct Hk as [[Hk _]|[Hk1 Hk2]]; [lra|].
    assert (Hdz : d == inject_Z (Z.of_nat k - 1)).
    { unfold Z.sub. rewrite inject_Z_plus, inject_Z_opp, <- Hk2.
      change (inject_Z 1) with 1. ring. }
    assert (Hk0 : (0 < Z.of_nat k)%Z).
    { assert (H : inject_Z 0 < inject_Z (Z.of_nat k))
        by (rewrite <- Hk2; exact Hk1).
      rewrite <- Zlt_Qlt in H. exact H. }
    rewrite Hdz, Qfloor_Z.
    rewrite Nat2Z.inj_add, !Z2Nat.id by lia.
    rewrite inject_Z_plus. rewrite <- Hdz. lra.
Qed.

Section FrameWidth.
Context {host : Host}.
Import ProgressBar.

Lemma bar_width_le s (a w : Q) : bar_width s (Fin a) = Fin w -> w <= a.
Proof.
  unfold bar_width, clamp.
  set (m := if (minWidth s >? Fin a)%num then Fin a else minWidth s).
  assert (Hm : forall x, m = Fin x -> x <= a).
  { subst m. intros x.
    destruct (minWidth s >? Fin a)%num eqn:E.
    - intros [= <-]. apply Qle_refl.
    - intros Hx. rewrite Hx in E.
      destruct (Qlt_le_dec a x) as [H|H]; [|exact H].
      apply lt_Fin_iff in H. unfold Num.gt in E. congruence. }
  destruct (as_number (Num (nullish (width s) PInf))) as [n|]; [|apply Hm].
  cbn [as_number isNaN].
  unfold Math_min.
  destruct (Math_max n m) as [x| | |] eqn:Ex; try discriminate.
  - destruct (Fin a <? Fin x)%num eqn:E.
    + intros [= <-]. apply Qle_refl.
    + intros [= <-].
      destruct (Qlt_le_dec a x) as [H|H]; [|exact H].
      apply lt_Fin_iff in H. congruence.
  - cbn. intros [= <-]. apply Qle_refl.
Qed.

Lemma available_space_nat (cols len : nat) :
  (len < cols)%nat ->
  exists m : Z,
    available_space (of_nat cols) (of_nat len) = of_Z m /\
    (0 <= m <= Z.of_nat cols - Z.of_nat len)%Z.
Proof.
  intros Hlt. unfold available_space, of_nat.
  rewrite of_Z_sub.
  set (d := (Z.of_nat cols - Z.of_nat len)%Z).
  assert (Hd : (0 < d)%Z) by (subst d; lia).
  assert (Hmax : Math_max zero (of_Z d) = of_Z d).
  { unfold Math_max, zero, of_Z.
    assert (H : (Fin (inject_Z 0) <? Fin (inject_Z d))%num = true)
      by (apply lt_Fin_iff; rewrite <- Zlt_Qlt; exact Hd).
    rewrite H. reflexivity. }
  rewrite Hmax.
  destruct (IS_WINDOWS && (of_Z d >=? one)%num).
  - exists (d - 1)%Z. split; [|lia].
    unfold one. apply of_Z_sub.
  - exists d. split; [reflexivity|lia].
Qed.

Lemma bar_ratio_unit s (c T : Q) :
  Progress.current (progress s) = Fin c ->
  Progress.total (progress s) = Fin T ->
  0 <= c -> c <= T ->
  exists r, bar_ratio s = Fin r /\ 0 <= r /\ r <= 1.
Proof.
  intros Hc HT H0 H1. unfold bar_ratio. rewrite Hc, HT.
  destruct (Fin T =? zero)%num eqn:E.
  - exists 0. repeat split; [apply Qle_refl|discriminate].
  - assert (HTn : ~ T == 0).
    { intros H. apply Qeq_bool_iff in H. unfold Num.eqb, zero, of_Z in E.
      change (inject_Z 0) with 0 in E. congruence. }
    assert (HTp : 0 < T).
    { destruct (Qlt_le_dec 0 T) as [H|H]; [exact H|].
      exfalso. apply HTn. apply Qle_antisym; [exact H|].
      eapply Qle_trans; eassumption. }
    exists (Qred (c / T)). cbn [Num.div].
    assert (Hz : Qzero T = false).
    { destruct (Qzero T) eqn:Ez; [|reflexivity].
      apply Qzero_iff in Ez. contradiction. }
    rewrite Hz. split; [reflexivity|].
    rewrite Qred_correct. split.
    + apply Qle_shift_div_l; [exact HTp|]. rewrite Qmult_0_l. exact H0.
    + apply Qle_shift_div_r; [exact HTp|]. rewrite Qmult_1_l. exact H1.
Qed.

Lemma bar_text_counts s avail s0 s1 bar :
  bar_text s avail s0 = (Ok bar, s1) ->
  let width := bar_width s avail in
  let fill := Math_round (width * bar_ratio s)%num in
  exists k, to_nat (Math_max zero (width - fill + one)%num) = Some k.
Proof.
  unfold bar_text, bind, repeat. cbv zeta.
  destruct (to_nat (Math_max zero (_ - _ + one)%num)) as [k|];
    [|discriminate].
  intros _. exists k. reflexivity.
Qed.

(** The cells of a bar that was built are at most the space left. *)
Lemma bar_fits s (cols len : nat) s0 s1 bar (c T : Q) :
  Progress.current (progress s) = Fin c ->
  Progress.total (progress s) = Fin T ->
  0 <= c -> c <= T ->
  (len < cols)%nat ->
  bar_text s (available_space (of_nat cols) (of_nat len)) s0 = (Ok bar, s1) ->
  let width := bar_width s (available_space (of_nat cols) (of_nat len)) in
  let fill := Math_round (width * bar_ratio s)%num in
  (cells fill + cells (width - fill)%num <= cols - len)%nat.
Proof.
  intros Hc HT H0 H1 Hlt Hbar. cbv zeta.
  destruct (bar_text_counts _ _ _ Hbar) as [k Hk]. cbv zeta in Hk.
  destruct (available_space_nat Hlt) as (m & Hav & Hm).
  rewrite Hav in *.
  destruct (bar_ratio_unit s Hc HT H0 H1) as (r & Hr & Hr0 & Hr1).
  rewrite Hr in *.
  destruct (bar_width s (of_Z m)) as [w| | |] eqn:Hw.
  - pose proof (@bar_width_le s (inject_Z m) w Hw) as Hwa.
    destruct (mul_Fin w r) as (y & Hy & Hyq). rewrite Hy in *.
    cbn [Math_round] in *.
    change (of_Z (Qfloor (y + (1 # 2))))
      with (Fin (inject_Z (Qfloor (y + (1 # 2))))) in *.
    destruct (sub_Fin w (inject_Z (Qfloor (y + (1 # 2))))) as (d & Hd & Hdq).
    rewrite Hd in *.
    change one with (Fin (inject_Z 1)) in Hk.
    destruct (add_Fin d (inject_Z 1)) as (e & He & Heq). rewrite He in Hk.
    apply to_nat_max_zero in Hk.
    assert (Hk' : (d + 1 <= 0 /\ k = O) \/
                  (0 < d + 1 /\ d + 1 == inject_Z (Z.of_nat k))).
    { change (inject_Z 1) with 1 in Heq. rewrite <- Heq. exact Hk. }
    assert (Ha0 : 0 <= inject_Z m)
      by (change 0 with (inject_Z 0); rewrite <- Zle_Qle; lia).
    pose proof (bar_cells_bound Hr0 Hr1 Hwa Ha0 Hyq Hdq Hk') as Hb.
    rewrite <- Zle_Qle in Hb.
    cbn [cells]. rewrite Qfloor_Z. lia.
  - exfalso. revert Hk. unfold Num.mul.
    destruct (Qzero r); [|destruct (Qpos r)]; cbn; intros HH;
      discriminate HH.
  - exfalso. revert Hk. unfold Num.mul.
    assert (Hn : Qneg r = false).
    { destruct (Qneg r) eqn:E; [|reflexivity].
      apply Qneg_iff in E. exfalso. exact (Qlt_not_le _ _ E Hr0). }
    rewrite Hn.
    destruct (Qzero r); cbn; intros HH; discriminate HH.
  - discriminate.
Qed.

(** X10: with [current] between 0 and the total and glyphs of at most
    one code unit that are no dollar sign, the frame the bar draws on a
    terminal of [cols] columns has at most [cols] code units. *)
Theorem frame_fits_the_terminal
        (s s0 s1 : t) (out : jsstring) (cols : nat) (c T : Q) :
  columns (stream s) = of_nat cols ->
  (length (completeChar s) <= 1)%nat ->
  (length (incompleteChar s) <= 1)%nat ->
  plain (completeChar s) -> plain (incompleteChar s) ->
  Progress.current (progress s) = Fin c ->
  Progress.total (progress s) = Fin T ->
  0 <= c -> c <= T ->
  frame s s0 = (Ok out, s1) ->
  (length out <= cols)%nat.
Proof.
  intros Hcols Hlc Hli Hpc Hpi Hc HT H0 H1.
  unfold frame. rewrite Hcols.
  set (output := render_tokens s).
  set (nonbar := replace output (str "{bar}") []).
  destruct (of_nat cols >? of_nat (length nonbar))%num eqn:Hgt.
  - apply gt_of_nat in Hgt.
    unfold bind.
    destruct (bar_text s _ s0) as [[bar|e] s2] eqn:Hbar; [|discriminate].
    intros [= <- _].
    pose proof (bar_fits s s0 Hc HT H0 H1 Hgt Hbar) as Hfit.
    pose proof (bar_text_cells s _ s0 Hlc Hbar) as Hcells.
    cbv zeta in Hfit, Hcells.
    assert (Hlen : (length bar <= cols - length nonbar)%nat).
    { rewrite Hcells, length_app, !length_copies. nia. }
    assert (Hplain : plain bar).
    { rewrite Hcells. apply plain_app; apply plain_copies; assumption. }
    subst nonbar. unfold replace in *.
    destruct (indexOf (str "{bar}") output) as [i|];
      cbv beta iota zeta in *; unfold jsstring, jschar in *; [|lia].
    rewrite GetSubstitution_plain by exact Hplain.
    cbn [GetSubstitution app] in Hlen, Hgt.
    rewrite !length_app in *. lia.
  - assert (Hsub : (of_nat cols - one)%num = of_Z (Z.of_nat cols - 1))
      by (unfold of_nat, one; apply of_Z_sub).
    rewrite Hsub.
    destruct (of_nat cols =? of_nat (length nonbar))%num eqn:Heq;
      intros [= <- _].
    + apply eqb_of_nat in Heq. rewrite Heq. apply Nat.le_refl.
    + unfold substring_0, of_Z, to_position. rewrite length_firstn, Qfloor_Z.
      lia.
Qed.
End FrameWidth.

(** ** [clamp] and the constructor of the stream *)

Section ClampFacts.

Lemma Math_max_either a b :
  isNaN a = false -> isNaN b = false ->
  Math_max a b = a \/ Math_max a b = b.
Proof.
  intros Ha Hb. unfold Math_max.
  destruct a, b; try discriminate; destruct (_ <? _)%num; auto.
Qed.

Lemma Math_min_either a b :
  isNaN a = false -> isNaN b = false ->
  Math_min a b = a \/ Math_min a b = b.
Proof.
  intros Ha Hb. unfold Math_min.
  destruct a, b; try discriminate; destruct (_ <? _)%num; auto.
Qed.

Lemma Math_min_le a b :
  isNaN a = false -> isNaN b = false -> (Math_min a b <=? b)%num = true.
Proof.
  intros Ha Hb. unfold Math_min.
  destruct a as [p| | |], b as [q| | |]; try discriminate; try reflexivity.
  - destruct (Fin q <? Fin p)%num eqn:E; [apply le_refl_Fin|].
    apply le_Fin_iff.
    destruct (Qlt_le_dec q p) as [H|H]; [|exact H].
    apply lt_Fin_iff in H. congruence.
  - apply le_refl_Fin.
Qed.

(** X11: for a number [v] and bounds [lo <= hi], [clamp(v, lo, hi)] lies
    between the bounds. *)
Theorem clamp_stays_within (v max : value) (x lo hi : number) :
  as_number v = Some x -> isNaN lo = false ->
  as_number max = Some hi -> (lo <=? hi)%num = true ->
  (lo <=? clamp v lo max)%num = true /\
  (clamp v lo max <=? hi)%num = true.
Proof.
  intros Hv Hlo Hmax Hle. unfold clamp. rewrite Hv, Hmax.
  apply as_number_Some in Hv. destruct Hv as [_ Hx].
  apply as_number_Some in Hmax. destruct Hmax as [_ Hhi].
  pose proof (@Math_max_ge x lo Hx Hlo) as Hge. unfold Num.ge in Hge.
  assert (Hn : isNaN (Math_max x lo) = false).
  { destruct (@Math_max_either x lo Hx Hlo) as [-> | ->]; assumption. }
  split; [|apply Math_min_le; assumption].
  destruct (@Math_min_either _ hi Hn Hhi) as [-> | ->]; assumption.
Qed.

End ClampFacts.

Section StreamConstructor.
Import ProgressStream.

(** X12: every stream the constructor builds has a finite interval that
    is not negative, no total or a finite positive one, a snapshot whose
    total and remaining are what the getter of [total] returns, and has
    emitted nothing yet. *)
Theorem stream_constructor_builds_unused
        (o : option ProgressStreamOptions.t) (st : t) :
  constructor o = Ok st -> unused st.
Proof.
  unfold constructor.
  set (interval := match o with Some o => ProgressStreamOptions.interval o
                           | None => Undefined end).
  set (total := match o with Some o => ProgressStreamOptions.total o
                        | None => Undefined end).
  destruct (not_null interval && invalid_interval interval) eqn:Ei;
    [discriminate|].
  destruct (not_null total && invalid_total total) eqn:Et; [discriminate|].
  intros [= <-].
  split; cbn [ProgressStream.interval ProgressStream.total progress
              prevTime trace Progress.total Progress.remaining get_total].
  - destruct (as_number interval) as [n|] eqn:En.
    + pose proof (as_number_Some _ En) as [Hv Hn].
      unfold invalid_interval in Ei. rewrite En, Hv in Ei.
      cbn [not_null andb] in Ei.
      apply orb_false_elim in Ei. destruct Ei as [Hf Hl].
      destruct n as [q| | |]; try discriminate.
      exists q. cbn [nullish]. split; [reflexivity|].
      destruct (Qlt_le_dec q 0) as [H|H]; [|exact H].
      apply lt_Fin_iff in H. unfold zero, of_Z in Hl.
      change (inject_Z 0) with 0 in Hl. congruence.
    + exists 0. split; [reflexivity|apply Qle_refl].
  - destruct (as_number total) as [T|] eqn:En; [|exact I].
    pose proof (as_number_Some _ En) as [Hv Hn].
    unfold invalid_total in Et. rewrite En, Hv in Et.
    cbn [not_null andb] in Et.
    apply orb_false_elim in Et. destruct Et as [Hf Hl].
    destruct T as [q| | |]; try discriminate.
    exists q. split; [reflexivity|].
    destruct (Qlt_le_dec 0 q) as [H|H]; [exact H|].
    apply le_Fin_iff in H. unfold zero, of_Z in Hl.
    change (inject_Z 0) with 0 in Hl. congruence.
  - split; reflexivity.
  - split; reflexivity.
Qed.

End StreamConstructor.

(** ** The stream *)

Ltac stream_simpl :=
  cbn [fst snd ProgressStream.interval ProgressStream.prevTime
       ProgressStream.startTime ProgressStream.endTime ProgressStream.total
       ProgressStream.progress ProgressStream.has_onProgress
       ProgressStream.has_onTotal ProgressStream.trace
       ProgressStream.with_prevTime ProgressStream.with_startTime
       ProgressStream.with_endTime ProgressStream.with_progress
       ProgressStream.with_total
       ProgressStream.with_trace Progress.current Progress.with_current
       Progress.total Progress.with_total Progress.percent
       Progress.with_percent Progress.remaining Progress.with_remaining
       Progress.eta Progress.with_eta Progress.runtime Progress.with_runtime
       Progress.speed Progress.with_speed
       nullish].

Section StreamFacts.
Import ProgressStream StreamRun.

Lemma stream_update_ok s : update s = (Ok tt, state_of (update s)).
Proof. reflexivity. Qed.

Lemma stream_update_fields s :
  let s1 := state_of (update s) in
  interval s1 = interval s /\ prevTime s1 = prevTime s /\
  startTime s1 = startTime s /\ endTime s1 = endTime s /\
  total s1 = total s /\ has_onProgress s1 = has_onProgress s /\
  has_onTotal s1 = has_onTotal s /\ trace s1 = trace s /\
  Progress.current (progress s1) = Progress.current (progress s) /\
  Progress.total (progress s1) = Progress.total (progress s).
Proof.
  unfold update, modify, state_of.
  destruct s as [iv pt stt et tl pg op ot tr].
  destruct pg as [pc cur tot rem eta rt sp].
  destruct tl as [T|]; stream_simpl;
    try destruct (_ >? zero)%num; stream_simpl; auto 12.
Qed.

Lemma emit_spec s :
  emit s = (Ok tt, with_trace (emit_calls s ++ trace s) s).
Proof.
  unfold emit, emit_calls, call, get_progress, bind, get, when, modify, ret.
  destruct s as [iv pt stt et tl pg op ot tr].
  destruct op; reflexivity.
Qed.

Lemma transform_unfold data now s :
  _transform data now s =
  let s1 := received data now s in
  if Run.passes_gate (prevTime s) (interval s) now
  then (Ok tt,
        with_trace (emit_calls s1 ++ trace s1)
                   (with_prevTime (Some (of_Z now)) s1))
  else (Ok tt, s1).
Proof.
  unfold _transform, received, Run.passes_gate, call.
  rewrite !bind_modify.
  erewrite bind_ok by apply stream_update_ok.
  rewrite bind_get.
  cbv zeta.
  destruct s as [iv pt stt et tl pg op ot tr].
  destruct pt as [p|]; stream_simpl;
    match goal with
    | |- context [state_of (update ?x)] =>
        destruct (stream_update_fields x)
          as (Hi & Hp & _ & _ & _ & _ & _ & _ & _ & _);
        cbv zeta in Hi, Hp; rewrite Hi, Hp
    end; stream_simpl;
    (destruct (_ >=? _)%num; cbn [when];
     [rewrite bind_modify, emit_spec; reflexivity | reflexivity]).
Qed.

Lemma received_fields data now s :
  let s1 := received data now s in
  interval s1 = interval s /\
  prevTime s1 = Some (nullish (prevTime s) (of_Z now)) /\
  total s1 = total s /\ has_onProgress s1 = has_onProgress s /\
  has_onTotal s1 = has_onTotal s /\
  trace s1 = callback :: push (Some data) :: trace s /\
  Progress.current (progress s1)
  = (Progress.current (progress s) + of_nat (length data))%num.
Proof.
  unfold received. cbv zeta.
  destruct s as [iv pt stt et tl pg op ot tr].
  destruct pt as [p|]; stream_simpl;
    match goal with
    | |- context [state_of (update ?x)] =>
        destruct (stream_update_fields x)
          as (Hi & Hp & _ & _ & Ht & Ho & Hot & Htr & Hc & _);
        cbv zeta in Hi, Hp, Ht, Ho, Hot, Htr, Hc;
        rewrite Hi, Hp, Ht, Ho, Hot, Htr, Hc
    end; stream_simpl; auto 10.
Qed.

(** A write never throws. *)
Lemma transform_returns data now s :
  _transform data now s = (Ok tt, state_of (_transform data now s)).
Proof.
  rewrite transform_unfold. cbv zeta.
  destruct (Run.passes_gate _ _ _); reflexivity.
Qed.

Lemma transforms_returns ws s :
  transforms ws s = (Ok tt, state_of (transforms ws s)).
Proof.
  revert s. induction ws as [|w ws IH]; intros s; [reflexivity|].
  cbn [transforms].
  erewrite bind_ok by apply transform_returns.
  apply IH.
Qed.

Lemma transforms_cons w ws s :
  state_of (transforms (w :: ws) s)
  = state_of (transforms ws (state_of (_transform (chunk w) (at_time w) s))).
Proof.
  cbn [transforms].
  erewrite bind_ok by apply transform_returns. reflexivity.
Qed.

Lemma pushed_app tr1 tr2 : pushed (tr1 ++ tr2) = pushed tr2 ++ pushed tr1.
Proof.
  induction tr1 as [|c tr1 IH]; [cbn; now rewrite app_nil_r|].
  destruct c; cbn [app pushed]; rewrite ?IH, ?app_assoc; reflexivity.
Qed.

Lemma callbacks_app tr1 tr2 :
  callbacks (tr1 ++ tr2) = (callbacks tr1 + callbacks tr2)%nat.
Proof.
  induction tr1 as [|c tr1 IH]; [reflexivity|].
  destruct c; cbn [app callbacks]; rewrite ?IH; reflexivity.
Qed.

Lemma progress_events_app tr1 tr2 :
  progress_events (tr1 ++ tr2) = progress_events tr1 ++ progress_events tr2.
Proof.
  induction tr1 as [|c tr1 IH]; [reflexivity|].
  destruct c; cbn [app progress_events]; rewrite ?IH; reflexivity.
Qed.

Lemma emit_calls_quiet s :
  pushed (emit_calls s) = [] /\ callbacks (emit_calls s) = O /\
  progress_events (emit_calls s) = [progress s] /\
  total_events (emit_calls s) = [].
Proof. unfold emit_calls. destruct (has_onProgress s); auto. Qed.

(** The trace of a write: the chunk goes downstream and the callback is
    called, whatever the gate does. *)
Lemma transform_trace data now s :
  let s' := state_of (_transform data now s) in
  pushed (trace s') = pushed (trace s) ++ [Some data] /\
  callbacks (trace s') = S (callbacks (trace s)) /\
  Progress.current (progress s')
  = (Progress.current (progress s) + of_nat (length data))%num /\
  interval s' = interval s /\ total s' = total s.
Proof.
  cbv zeta. rewrite transform_unfold. cbv zeta.
  destruct (received_fields data now s)
    as (Hi & Hp & Ht & Ho & Hot & Htr & Hc).
  cbv zeta in *.
  destruct (Run.passes_gate _ _ _); unfold state_of; stream_simpl.
  - rewrite pushed_app, callbacks_app, Htr.
    destruct (emit_calls_quiet (received data now s)) as (-> & -> & _).
    cbn [pushed callbacks app Nat.add]. rewrite app_nil_r. auto.
  - rewrite Htr. cbn [pushed callbacks]. auto.
Qed.

Lemma set_total_spec v s :
  set_total v s =
  if invalid_total v
  then (Throw (Error "total value must be a finite positive number"), s)
  else match as_number v with
       | Some n =>
           (Ok tt,
            with_trace (total_calls n s ++ trace s)
              (with_progress (Progress.with_total n (progress s))
                             (with_total (Some n) s)))
       | None => (Ok tt, s)
       end.
Proof.
  unfold set_total, total_calls.
  destruct (invalid_total v); [reflexivity|].
  destruct (as_number v) as [n|]; [|reflexivity].
  destruct s as [iv pt stt et tl pg op ot tr].
  destruct ot; reflexivity.
Qed.

Lemma flush_unfold now s :
  _flush now s =
  let s0 := ended now s in
  if (interval s >? zero)%num
  then (set_total (Num (Progress.current (progress s))) ;;
        update ;; emit)%method s0
  else (Ok tt, s0).
Proof.
  unfold _flush, ended, call.
  rewrite !bind_modify, bind_get.
  destruct s as [iv pt stt et tl pg op ot tr]. stream_simpl.
  destruct (iv >? zero)%num; reflexivity.
Qed.

Lemma total_calls_quiet n s :
  pushed (total_calls n s) = [] /\ callbacks (total_calls n s) = O /\
  progress_events (total_calls n s) = [] /\
  total_events (total_calls n s) = [n].
Proof. unfold total_calls. destruct (has_onTotal s); auto. Qed.

Lemma flush_trace now s :
  let s' := state_of (_flush now s) in
  pushed (trace s') = pushed (trace s) ++ [None] /\
  callbacks (trace s') = S (callbacks (trace s)).
Proof.
  cbv zeta. rewrite flush_unfold. cbv zeta.
  assert (Hgoal : pushed (trace (ended now s)) = pushed (trace s) ++ [None] /\
                  callbacks (trace (ended now s)) = S (callbacks (trace s))).
  { unfold ended. stream_simpl. cbn [pushed callbacks]. auto. }
  destruct (interval s >? zero)%num; [|exact Hgoal].
  set (v := Num (Progress.current (progress s))).
  destruct (invalid_total v) eqn:Hinv.
  { erewrite bind_throw by (rewrite set_total_spec, Hinv; reflexivity).
    exact Hgoal. }
  destruct (as_number v) as [n|] eqn:Han;
    (erewrite bind_ok by (rewrite set_total_spec, Hinv, Han; reflexivity));
    (erewrite bind_ok by apply stream_update_ok);
    rewrite emit_spec; unfold state_of; stream_simpl;
    match goal with
    | |- context [snd (update ?x)] =>
        destruct (stream_update_fields x)
          as (_ & _ & _ & _ & _ & _ & _ & Htx & _);
        cbv zeta in Htx; unfold state_of in Htx; rewrite !Htx
    end; stream_simpl;
    rewrite !pushed_app, !callbacks_app;
    match goal with
    | |- context [emit_calls ?x] =>
        destruct (emit_calls_quiet x) as (-> & -> & _)
    end;
    try (destruct (total_calls_quiet n (ended now s)) as (-> & -> & _));
    cbn [app Nat.add]; rewrite ?app_nil_r; exact Hgoal.
Qed.

(** X13: a stream pushes downstream every chunk written to it,
    unchanged and in order, then the end-of-data mark, and calls back once
    for each write and once for the end, also when the end throws. *)
Theorem stream_passes_the_data_through
        (ws : list Write) (end_time : Z) (s : t) :
  let s' := state_of (piped ws end_time s) in
  pushed (trace s')
  = pushed (trace s) ++ map (fun w => Some (chunk w)) ws ++ [None] /\
  callbacks (trace s') = (callbacks (trace s) + length ws + 1)%nat.
Proof.
  cbv zeta. unfold piped.
  erewrite bind_ok by apply transforms_returns.
  revert s. induction ws as [|w ws IH]; intros s.
  - cbn [transforms map app List.length]. unfold ret, state_of at 2 4.
    cbn [snd].
    destruct (flush_trace end_time s) as [H1 H2]. cbv zeta in *.
    rewrite H1, H2. split; [reflexivity|lia].
  - rewrite transforms_cons.
    destruct (IH (state_of (_transform (chunk w) (at_time w) s))) as [H1 H2].
    destruct (transform_trace (chunk w) (at_time w) s)
      as (T1 & T2 & _).
    cbv zeta in *.
    rewrite H1, H2, T1, T2. cbn [map List.length].
    rewrite <- app_assoc. split; [reflexivity|lia].
Qed.

Lemma of_Z_add a b : (of_Z a + of_Z b)%num = of_Z (a + b).
Proof.
  unfold Num.add, of_Z. f_equal.
  rewrite <- (Qred_inject_Z (a + b)).
  apply Qred_complete. rewrite inject_Z_plus. reflexivity.
Qed.

Lemma ge_of_Z a b : (of_Z a >=? of_Z b)%num = (b <=? a)%Z.
Proof.
  unfold Num.ge, of_Z.
  destruct (b <=? a)%Z eqn:E.
  - apply le_Fin_iff. rewrite <- Zle_Qle. lia.
  - destruct (Fin (inject_Z b) <=? Fin (inject_Z a))%num eqn:F; [|reflexivity].
    apply le_Fin_iff in F. rewrite <- Zle_Qle in F. lia.
Qed.

Lemma transforms_state_nil s : state_of (transforms [] s) = s.
Proof. reflexivity. Qed.

(** X14: [current] grows by the length of every chunk written: from a
    natural number [n] it reaches [n] plus the bytes of the writes, as
    long as that sum is at most 2^53, the range in which the additions of
    the code are exact. *)
Theorem stream_counts_the_bytes (ws : list Write) (s : t) (n : nat) :
  Progress.current (progress s) = of_nat n ->
  (Z.of_nat (n + bytes ws) <= 2 ^ 53)%Z ->
  Progress.current (progress (state_of (transforms ws s)))
  = of_nat (n + bytes ws).
Proof.
  revert s n. induction ws as [|w ws IH]; intros s n Hn Hbound.
  - rewrite transforms_state_nil. cbn [bytes]. now rewrite Nat.add_0_r.
  - rewrite transforms_cons.
    destruct (transform_trace (chunk w) (at_time w) s)
      as (_ & _ & Hc & _).
    cbv zeta in Hc.
    cbn [bytes] in Hbound.
    rewrite (IH _ (n + length (chunk w))%nat).
    + cbn [bytes]. now rewrite Nat.add_assoc.
    + rewrite Hc, Hn. unfold of_nat. rewrite of_Z_add. f_equal. lia.
    + rewrite <- Nat.add_assoc. exact Hbound.
Qed.

Lemma percent_of_all (c : Q) :
  0 < c -> round (Fin c / Fin c * of_Z 100)%num 3 = of_Z 100.
Proof.
  intros Hc. unfold round. change (pow10 3) with (of_Z 1000).
  unfold Num.div at 2.
  assert (Hz : Qzero c = false).
  { destruct (Qzero c) eqn:E; [|reflexivity].
    apply Qzero_iff in E. rewrite E in Hc. discriminate Hc. }
  rewrite Hz. unfold of_Z at 1 2. cbn [Num.mul Math_round].
  rewrite (@Qfloor_half 100000).
  - reflexivity.
  - rewrite !Qred_correct. change (inject_Z 100000) with (100000 # 1).
    change (inject_Z 100) with (100 # 1).
    change (inject_Z 1000) with (1000 # 1). field.
    intros E. rewrite E in Hc. discriminate Hc.
Qed.

Lemma sub_self_Fin (c : Q) : (Fin c - Fin c)%num = zero.
Proof.
  unfold Num.sub, Num.neg, Num.add, zero, of_Z. f_equal.
  change (inject_Z 0) with (Qred 0).
  apply Qred_complete. rewrite Qred_correct. ring.
Qed.

Lemma update_with_total s T :
  total s = Some T ->
  let p := progress (state_of (update s)) in
  Progress.percent p
  = round (Progress.current (progress s) / T * of_Z 100)%num 3 /\
  Progress.remaining p = (T - Progress.current (progress s))%num.
Proof.
  intros Ht. unfold update, modify, state_of.
  destruct s as [iv pt stt et tl pg op ot tr].
  destruct pg as [pc cur tot rem eta rt sp].
  stream_simpl. cbn [total] in Ht. subst tl.
  destruct (_ >? zero)%num; stream_simpl; auto.
Qed.

(** X15: at the end of the data, a stream with a positive interval
    through which something went sets its total to the bytes counted,
    whatever the total was, emits ['total'] and then ['progress'] with a
    snapshot at 100 percent and nothing remaining, and returns. *)
Theorem flush_reports_completion (s : t) (now : Z) (i c : Q) :
  interval s = Fin i -> 0 < i ->
  Progress.current (progress s) = Fin c -> 0 < c ->
  let r := _flush now s in
  let p := progress (state_of r) in
  outcome_of r = Ok tt /\
  total (state_of r) = Some (Fin c) /\
  Progress.total p = Fin c /\
  Progress.percent p = of_Z 100 /\
  Progress.remaining p = zero /\
  trace (state_of r)
  = emit_calls (state_of r) ++ total_calls (Fin c) s
    ++ callback :: push None :: trace s.
Proof.
  intros Hi Hi0 Hc Hc0. cbv zeta.
  rewrite flush_unfold. cbv zeta.
  assert (Hgt : (interval s >? zero)%num = true).
  { rewrite Hi. unfold Num.gt, zero, of_Z. now apply lt_Fin_iff. }
  rewrite Hgt, Hc.
  assert (Hinv : invalid_total (Num (Fin c)) = false).
  { unfold invalid_total, as_number. cbn [isNaN isFinite negb orb].
    destruct (Fin c <=? zero)%num eqn:E; [|reflexivity].
    apply le_Fin_iff in E. exfalso. exact (Qlt_not_le _ _ Hc0 E). }
  erewrite bind_ok
    by (rewrite set_total_spec, Hinv; cbn [as_number isNaN]; reflexivity).
  erewrite bind_ok by apply stream_update_ok.
  rewrite emit_spec. unfold state_of, outcome_of. stream_simpl.
  set (s1 := with_trace _ _).
  destruct (stream_update_fields s1)
    as (_ & _ & _ & _ & Ht & Hop & _ & Htr & Hcur & Htot).
  destruct (@update_with_total s1 (Fin c) eq_refl) as [Hpc Hrem].
  cbv zeta in *. unfold state_of in *.
  assert (Hc1 : Progress.current (progress s1) = Fin c).
  { subst s1. unfold ended. stream_simpl. exact Hc. }
  rewrite Hc1 in Hpc, Hrem.
  rewrite Ht, Htot, Hpc, Hrem, Htr, percent_of_all, sub_self_Fin by exact Hc0.
  split; [reflexivity|]. split; [reflexivity|]. split; [reflexivity|].
  split; [reflexivity|]. split; [reflexivity|].
  unfold emit_calls. stream_simpl. rewrite Hop.
  subst s1. unfold ended, total_calls. stream_simpl.
  rewrite <- !app_assoc. reflexivity.
Qed.

(** The throttle gate of a stream that reports every write. *)
Lemma gate_open (prev : option Z) (now : Z) :
  match prev with Some p => (p <=? now)%Z | None => true end = true ->
  Run.passes_gate (option_map of_Z prev) zero now = true.
Proof.
  intros H. unfold Run.passes_gate.
  destruct prev as [p|]; cbn [option_map nullish].
  - rewrite of_Z_sub. unfold zero. rewrite ge_of_Z.
    apply Z.leb_le. apply Z.leb_le in H. lia.
  - rewrite of_Z_sub. unfold zero. rewrite ge_of_Z.
    apply Z.leb_le. lia.
Qed.

Lemma transform_events data now s :
  let s' := state_of (_transform data now s) in
  total_events (trace s') = total_events (trace s) /\
  progress_events (trace s')
  = (if Run.passes_gate (prevTime s) (interval s) now
     then [progress s'] else []) ++ progress_events (trace s) /\
  prevTime s'
  = Some (if Run.passes_gate (prevTime s) (interval s) now
          then of_Z now else nullish (prevTime s) (of_Z now)).
Proof.
  cbv zeta. rewrite transform_unfold. cbv zeta.
  destruct (received_fields data now s)
    as (Hi & Hp & Ht & Ho & Hot & Htr & Hc).
  cbv zeta in *.
  destruct (Run.passes_gate _ _ _); unfold state_of; stream_simpl.
  - rewrite Htr. unfold emit_calls.
    destruct (has_onProgress _); cbn [app total_events progress_events]; auto.
  - rewrite Htr. cbn [total_events progress_events app]. auto.
Qed.

Lemma total_events_app tr1 tr2 :
  total_events (tr1 ++ tr2) = total_events tr1 ++ total_events tr2.
Proof.
  induction tr1 as [|c tr1 IH]; [reflexivity|].
  destruct c; cbn [app total_events]; rewrite ?IH; reflexivity.
Qed.

Lemma every_write_reported (ws : list Write) (s : t) (prev : option Z) :
  interval s = zero ->
  prevTime s = option_map of_Z prev ->
  clock_advances prev ws = true ->
  let s' := state_of (transforms ws s) in
  interval s' = zero /\
  total_events (trace s') = total_events (trace s) /\
  length (progress_events (trace s'))
  = (length ws + length (progress_events (trace s)))%nat.
Proof.
  revert s prev. induction ws as [|w ws IH]; intros s prev Hi Hp Hclock.
  - cbv zeta. rewrite transforms_state_nil. auto.
  - cbv zeta. rewrite transforms_cons.
    cbn [clock_advances] in Hclock. apply andb_true_iff in Hclock.
    destruct Hclock as [Hnow Hrest].
    destruct (transform_events (chunk w) (at_time w) s) as (Ht & He & Hpt).
    destruct (transform_trace (chunk w) (at_time w) s)
      as (_ & _ & _ & Hiv & _).
    cbv zeta in *.
    rewrite Hi, Hp, gate_open in * by exact Hnow.
    destruct (IH (state_of (_transform (chunk w) (at_time w) s))
                 (Some (at_time w)))
      as (Hi' & Ht' & He'); [assumption|assumption|assumption|].
    cbv zeta in *.
    rewrite Hi', Ht', He', Ht, He. cbn [app List.length].
    repeat split. lia.
Qed.

(** X16: a stream without interval whose clock never goes back emits
    one ['progress'] event for each write and none at the end of the
    data, never a ['total'] event, and does not throw. *)
Theorem unthrottled_stream_reports_every_write
        (ws : list Write) (end_time : Z) (s : t) :
  interval s = zero ->
  prevTime s = None ->
  clock_advances None ws = true ->
  let r := piped ws end_time s in
  outcome_of r = Ok tt /\
  length (progress_events (trace (state_of r)))
  = (length ws + length (progress_events (trace s)))%nat /\
  total_events (trace (state_of r)) = total_events (trace s).
Proof.
  intros Hi Hp Hclock. cbv zeta. unfold piped.
  erewrite bind_ok by apply transforms_returns.
  destruct (@every_write_reported ws s None Hi Hp Hclock) as (Hi' & Ht & He).
  cbv zeta in *.
  rewrite flush_unfold. cbv zeta. rewrite Hi'.
  change (zero >? zero)%num with false. cbv iota.
  unfold outcome_of, state_of at 1 3, ended. stream_simpl.
  cbn [progress_events total_events]. auto.
Qed.

Lemma quiet_writes (ws : list Write) (s : t) (first : Z) :
  prevTime s = Some (of_Z first) ->
  within (interval s) first ws = true ->
  let s' := state_of (transforms ws s) in
  progress_events (trace s') = progress_events (trace s) /\
  total_events (trace s') = total_events (trace s).
Proof.
  revert s. induction ws as [|w ws IH]; intros s Hp Hw.
  - cbv zeta. rewrite transforms_state_nil. auto.
  - cbv zeta. rewrite transforms_cons.
    unfold within in Hw. cbn [forallb] in Hw. apply andb_true_iff in Hw.
    destruct Hw as [Hnow Hrest]. apply negb_true_iff in Hnow.
    destruct (transform_events (chunk w) (at_time w) s) as (Ht & He & Hpt).
    destruct (transform_trace (chunk w) (at_time w) s)
      as (_ & _ & _ & Hiv & _).
    cbv zeta in *.
    assert (Hg : Run.passes_gate (prevTime s) (interval s) (at_time w)
                 = false).
    { unfold Run.passes_gate. rewrite Hp. cbn [nullish]. exact Hnow. }
    rewrite Hg, Hp in *. cbn [nullish app] in *.
    destruct (IH (state_of (_transform (chunk w) (at_time w) s)))
      as (He' & Ht'); [assumption| |].
    + unfold within. rewrite Hiv. exact Hrest.
    + cbv zeta in *. rewrite He', Ht', He, Ht. auto.
Qed.

(** X17: with a positive interval, the first write and all the writes
    that come less than the interval after it emit no event. *)
Theorem writes_within_the_interval_are_silent
        (w : Write) (ws : list Write) (s : t) (i : Q) :
  prevTime s = None -> interval s = Fin i -> 0 < i ->
  within (interval s) (at_time w) ws = true ->
  let s' := state_of (transforms (w :: ws) s) in
  progress_events (trace s') = progress_events (trace s) /\
  total_events (trace s') = total_events (trace s).
Proof.
  intros Hp Hi Hi0 Hw. cbv zeta. rewrite transforms_cons.
  destruct (transform_events (chunk w) (at_time w) s) as (Ht & He & Hpt).
  destruct (transform_trace (chunk w) (at_time w) s)
    as (_ & _ & _ & Hiv & _).
  cbv zeta in *.
  assert (Hg : Run.passes_gate (prevTime s) (interval s) (at_time w) = false).
  { unfold Run.passes_gate. rewrite Hp, Hi. cbn [nullish].
    rewrite sub_self_zero. unfold Num.ge.
    destruct (Fin i <=? zero)%num eqn:E; [|reflexivity].
    apply le_Fin_iff in E. exfalso. exact (Qlt_not_le _ _ Hi0 E). }
  rewrite Hg, Hp in *. cbn [nullish app] in *.
  destruct (@quiet_writes ws (state_of (_transform (chunk w) (at_time w) s))
                          (at_time w))
    as (He' & Ht'); [assumption| |].
  - rewrite Hiv. exact Hw.
  - cbv zeta in *. rewrite He', Ht', He, Ht. auto.
Qed.

End StreamFacts.

(** ** The size of a speedometer *)

Section SpeedometerSizeFacts.
Import Speedometer SpeedometerRun SpeedometerSize.

Lemma to_nat_of_Z z : (0 <= z)%Z -> to_nat (of_Z z) = Some (Z.to_nat z).
Proof.
  intros Hz. unfold to_nat, of_Z. rewrite Qred_inject_Z.
  cbn [Qden Qnum inject_Z]. rewrite Pos.eqb_refl.
  destruct (Z.leb_spec 0 z); [reflexivity|lia].
Qed.

Lemma land_MAX_TICK z : Z.land z MAX_TICK = (z mod 65536)%Z.
Proof.
  change MAX_TICK with (Z.ones 16). rewrite Z.land_ones by lia. reflexivity.
Qed.

Lemma eqb_size (p n : nat) (sz : number) :
  to_nat sz = Some n -> (of_nat p =? sz)%num = (p =? n)%nat.
Proof.
  intros Hn. destruct sz as [q| | |]; try discriminate.
  apply to_nat_Fin in Hn.
  unfold of_nat, of_Z, Num.eqb.
  destruct (Nat.eqb_spec p n) as [->|Hne].
  - apply Qeq_bool_iff. symmetry. exact Hn.
  - destruct (Qeq_bool _ _) eqn:E; [|reflexivity].
    apply Qeq_bool_iff in E. rewrite Hn in E.
    rewrite inject_Z_injective in E. apply Nat2Z.inj in E. contradiction.
Qed.

Lemma length_array_set (b : list slot) (k : nat) (v : slot) :
  length (array_set b k v) = Nat.max (length b) (S k).
Proof.
  revert b. induction k as [|k IH]; intros [|x b]; cbn [array_set List.length].
  - reflexivity.
  - lia.
  - rewrite IH. cbn [List.length]. lia.
  - rewrite IH. lia.
Qed.

Lemma shift_sized (k n : nat) (sz : number) (b : list slot) (p : nat) :
  to_nat sz = Some n -> (1 <= n)%nat ->
  (1 <= p <= n)%nat -> (length b <= n)%nat ->
  (1 <= snd (shift k sz b p) <= n)%nat /\
  (length (fst (shift k sz b p)) <= n)%nat.
Proof.
  intros Hsz Hn. revert b p.
  induction k as [|k IH]; intros b p Hp Hb; [cbn; auto|].
  cbn [shift]. rewrite (@eqb_size p n sz Hsz).
  destruct (Nat.eqb_spec p n) as [->|Hne].
  - apply IH; [lia|]. rewrite length_array_set. lia.
  - apply IH; [lia|]. rewrite length_array_set. lia.
Qed.

Lemma speedometer_size_positive (seconds : option number) (n : nat) :
  to_nat (size (speedometer seconds)) = Some n -> (1 <= n)%nat.
Proof.
  intros Hn.
  unfold speedometer in Hn. cbn [size] in Hn.
  set (sec := nullish seconds (of_Z 5)) in Hn.
  destruct (truthy sec) eqn:Ht.
  - destruct sec as [q| | |]; try discriminate.
    cbn [truthy] in Ht. apply negb_true_iff in Ht.
    unfold RESOLUTION, of_Z in Hn. cbn [Num.mul] in Hn.
    apply to_nat_Fin in Hn. rewrite Qred_correct in Hn.
    destruct n as [|n]; [|lia].
    exfalso. change (inject_Z (Z.of_nat 0)) with 0 in Hn.
    assert (Hq : q == 0).
    { change (inject_Z 4) with (4 # 1) in Hn.
      apply (Qmult_integral (4 # 1)) in Hn.
      destruct Hn as [H|H]; [discriminate H|exact H]. }
    apply Qzero_iff in Hq. congruence.
  - vm_compute in Hn. injection Hn as <-. lia.
Qed.

Lemma speedometer_sized (seconds : option number) (n : nat) :
  to_nat (size (speedometer seconds)) = Some n ->
  sized n (speedometer seconds).
Proof.
  intros Hn. pose proof (@speedometer_size_positive seconds n Hn) as H1.
  split; [exact Hn|exact H1| |].
  - change (pointer (speedometer seconds)) with 1%nat. lia.
  - change (buffer (speedometer seconds)) with [Some zero]. exact H1.
Qed.

Lemma elapse_sized (n : nat) (s : t) :
  sized n s -> sized n (interval_elapses s).
Proof.
  intros [H1 H2 H3 H4]. unfold interval_elapses.
  destruct (timer s); split; assumption.
Qed.

Lemma dist_whole (n : nat) (s : t) :
  to_nat (size s) = Some n ->
  let dist := of_Z (Z.land (tick s - last s) MAX_TICK) in
  exists k, to_nat (if (dist >? size s)%num then size s else dist) = Some k.
Proof.
  intros Hn. cbv zeta.
  destruct (_ >? _)%num.
  - exists n. exact Hn.
  - eexists. apply to_nat_of_Z. rewrite land_MAX_TICK.
    apply Z.mod_pos_bound. lia.
Qed.

(** A call on a sized speedometer returns and leaves it sized. *)
Lemma speed_sized (n : nat) (delta : option number) (s : t) :
  sized n s ->
  exists v s', speed delta s = Returns v s' /\ sized n s'.
Proof.
  intros Hs. pose proof Hs as [H1 H2 H3 H4]. unfold speed.
  destruct (ended s); [eauto|].
  destruct delta as [delta|].
  - destruct (@dist_whole n s H1) as [k Hk]. cbv zeta in Hk. rewrite Hk.
    pose proof (@shift_sized k n (size s) (buffer s) (pointer s) H1 H2 H3 H4)
      as [Hp Hb].
    destruct (shift k (size s) (buffer s) (pointer s)) as [b p].
    cbn [fst snd] in Hp, Hb.
    eexists. eexists. split; [reflexivity|].
    split; cbn [size pointer buffer]; try assumption.
    destruct (truthy delta); [|exact Hb].
    destruct p as [|p]; [exact Hb|].
    rewrite length_array_set. lia.
  - eexists. eexists. split; [reflexivity|].
    split; cbn [size pointer buffer end_ List.length]; try assumption. lia.
Qed.

Lemma replay_sized (n : nat) (events : list Event) (s : t) :
  sized n s ->
  exists vs s', replay events s = Returns vs s' /\
                length vs = calls events /\ sized n s'.
Proof.
  revert s. induction events as [|[|delta] rest IH]; intros s Hs.
  - exists [], s. auto.
  - cbn [replay].
    destruct (IH _ (@elapse_sized n s Hs)) as (vs & s' & Hr & Hl & Hz).
    exists vs, s'. auto.
  - cbn [replay].
    destruct (@speed_sized n delta s Hs) as (v & s1 & Hv & Hs1).
    destruct (IH _ Hs1) as (vs & s' & Hr & Hl & Hz).
    rewrite Hv, Hr. exists (v :: vs), s'.
    split; [reflexivity|]. split; [|exact Hz].
    unfold calls in *. cbn [filter List.length]. now rewrite Hl.
Qed.

(** X18: when the size of a speedometer, four times its seconds, is a
    whole number, every call of the rate function returns, whatever the
    deltas and however long the timer ran in between. *)
Theorem whole_size_always_returns
        (seconds : option number) (n : nat) (events : list Event) :
  to_nat (size (speedometer seconds)) = Some n ->
  exists vs s',
    replay events (speedometer seconds) = Returns vs s' /\
    length vs = calls events.
Proof.
  intros Hn.
  destruct (@replay_sized n events _ (@speedometer_sized seconds n Hn))
    as (vs & s' & Hr & Hl & _).
  eauto.
Qed.

(** X19: when the size of a speedometer is the whole number [n], its
    buffer never holds more than [n] slots and its pointer stays between
    1 and [n]. *)
Theorem buffer_stays_within_size
        (seconds : option number) (n : nat) (events : list Event)
        (vs : list slot) (s' : t) :
  to_nat (size (speedometer seconds)) = Some n ->
  replay events (speedometer seconds) = Returns vs s' ->
  (length (buffer s') <= n)%nat /\ (1 <= pointer s' <= n)%nat.
Proof.
  intros Hn Hr.
  destruct (@replay_sized n events _ (@speedometer_sized seconds n Hn))
    as (vs0 & s0 & Hr0 & _ & Hz).
  rewrite Hr in Hr0. injection Hr0 as _ <-.
  destruct Hz. auto.
Qed.

Lemma replay_wait (n : nat) (rest : list Event) (s : t) :
  replay (wait n ++ rest) s = replay rest (Nat.iter n interval_elapses s).
Proof.
  revert s. induction n as [|n IH]; intros s; [reflexivity|].
  unfold wait in *. cbn [List.repeat app replay]. rewrite IH.
  now rewrite <- Nat.iter_succ_r.
Qed.

Lemma waited_fields (n : nat) (seconds : option number) :
  let s := Nat.iter n interval_elapses (speedometer seconds) in
  size s = size (speedometer seconds) /\ ended s = false /\
  timer s = true /\ last s = 0%Z /\ tick s = tick_after n.
Proof.
  induction n as [|n IH]; [cbn; auto 6|].
  cbv zeta in *. rewrite Nat.iter_succ.
  set (s := Nat.iter n interval_elapses (speedometer seconds)) in *.
  destruct IH as (H1 & H2 & H3 & H4 & H5).
  unfold interval_elapses. rewrite H3.
  cbn [size ended timer last tick]. rewrite H5, land_MAX_TICK.
  repeat split; try assumption.
  unfold tick_after. rewrite Z.add_mod_idemp_l by lia.
  f_equal. lia.
Qed.

(** X20: when the size of a speedometer is no whole number (a negative
    or fractional one) and smaller than the tick counter, the first call
    of the rate function with a delta never returns. *)
Theorem broken_size_never_returns
        (seconds : option number) (n : nat) (delta : number)
        (rest : list Event) :
  to_nat (size (speedometer seconds)) = None ->
  (size (speedometer seconds) <? of_Z (tick_after n))%num = true ->
  replay (wait n ++ call (Some delta) :: rest) (speedometer seconds)
  = Diverges.
Proof.
  intros Hn Hlt. rewrite replay_wait. cbn [replay].
  destruct (waited_fields n seconds) as (H1 & H2 & H3 & H4 & H5).
  cbv zeta in *.
  unfold speed. rewrite H2, H1, H4, H5, Z.sub_0_r, land_MAX_TICK.
  unfold tick_after at 1. rewrite Z.mod_mod by lia.
  fold (tick_after n). unfold Num.gt. rewrite Hlt, Hn. reflexivity.
Qed.

Lemma to_nat_whole (q : Q) (z : Z) :
  q == inject_Z z -> (0 <= z)%Z -> to_nat (Fin q) = Some (Z.to_nat z).
Proof.
  intros Hq Hz. rewrite <- (@to_nat_of_Z z Hz).
  unfold to_nat, of_Z. rewrite (Qred_complete _ _ Hq). reflexivity.
Qed.

Lemma nth_array_set (b : list slot) (k : nat) (v : slot) :
  nth k (array_set b k v) None = v.
Proof.
  revert b. induction k as [|k IH]; intros [|x b]; cbn [array_set nth];
    try reflexivity; apply IH.
Qed.

Lemma size_minus_one (sz : number) (n : nat) :
  to_nat sz = Some n -> (1 <= n)%nat ->
  to_nat (sz - one)%num = Some (n - 1)%nat.
Proof.
  intros Hn H1. destruct sz as [q| | |]; try discriminate.
  apply to_nat_Fin in Hn.
  destruct (sub_Fin q (inject_Z 1)) as (x & Hx & Hxq).
  unfold one, of_Z. rewrite Hx.
  rewrite (@to_nat_whole x (Z.of_nat n - 1)).
  - f_equal. lia.
  - rewrite Hxq, Hn. unfold Z.sub. rewrite inject_Z_plus. reflexivity.
  - lia.
Qed.

Lemma to_nat_of_nat (k : nat) : to_nat (of_nat k) = Some k.
Proof.
  unfold of_nat. rewrite to_nat_of_Z by lia. now rewrite Nat2Z.id.
Qed.

(** Shifting carries the newest slot along. *)
Lemma shift_top (k n : nat) (sz : number) (b : list slot) (p : nat)
      (x : slot) :
  to_nat sz = Some n -> (1 <= n)%nat -> (1 <= p <= n)%nat ->
  nth (p - 1) b None = x ->
  nth (snd (shift k sz b p) - 1) (fst (shift k sz b p)) None = x.
Proof.
  intros Hsz Hn. revert b p.
  induction k as [|k IH]; intros b p Hp Hx; [exact Hx|].
  cbn [shift]. rewrite (@eqb_size p n sz Hsz).
  destruct (Nat.eqb_spec p n) as [->|Hne].
  - apply IH; [lia|]. rewrite Nat.sub_succ, Nat.sub_0_r, nth_array_set.
    unfold array_get. rewrite (@size_minus_one sz n Hsz Hn). exact Hx.
  - apply IH; [lia|]. rewrite Nat.sub_succ, Nat.sub_0_r, nth_array_set.
    destruct p as [|p]; [lia|].
    unfold array_get. rewrite to_nat_of_nat.
    rewrite Nat.sub_succ, Nat.sub_0_r in Hx. exact Hx.
Qed.

Lemma lt_RESOLUTION (k : nat) :
  (k < 4)%nat -> (of_nat k <? RESOLUTION)%num = true.
Proof.
  intros Hk. unfold of_nat, RESOLUTION, of_Z. apply lt_Fin_iff.
  rewrite <- Zlt_Qlt. lia.
Qed.

Lemma truthy_of_nat (d : nat) : truthy (of_nat d) = negb (d =? 0)%nat.
Proof.
  unfold truthy, of_nat, of_Z. f_equal.
  destruct (Nat.eqb_spec d 0) as [->|Hd]; [reflexivity|].
  destruct (Qzero _) eqn:E; [|reflexivity].
  apply Qzero_iff in E. change 0 with (inject_Z 0) in E.
  rewrite inject_Z_injective in E. lia.
Qed.

Lemma add_of_nat (a b : nat) : (of_nat a + of_nat b)%num = of_nat (a + b).
Proof.
  unfold of_nat, Num.add, of_Z. f_equal.
  rewrite <- (Qred_inject_Z (Z.of_nat (a + b))).
  apply Qred_complete. rewrite Nat2Z.inj_add, inject_Z_plus. reflexivity.
Qed.

(** A report to a speedometer with fewer than four slots returns the
    bytes reported so far. *)
Lemma report_short (n sofar d : nat) (s : t) :
  sized n s -> (n < 4)%nat -> ended s = false ->
  nth (pointer s - 1) (buffer s) None = Some (of_nat sofar) ->
  exists s',
    speed (Some (of_nat d)) s = Returns (Some (of_nat (sofar + d))) s' /\
    sized n s' /\ ended s' = false /\
    nth (pointer s' - 1) (buffer s') None = Some (of_nat (sofar + d)).
Proof.
  intros Hs Hn He Htop.
  destruct (@speed_sized n (Some (of_nat d)) s Hs) as (v & s' & Hv & Hs').
  exists s'. pose proof Hs as [H1 H2 H3 H4].
  revert Hv. unfold speed. rewrite He.
  destruct (@dist_whole n s H1) as [k Hk]. cbv zeta in Hk. rewrite Hk.
  pose proof (@shift_sized k n (size s) (buffer s) (pointer s) H1 H2 H3 H4)
    as [Hp Hb].
  pose proof (@shift_top k n (size s) (buffer s) (pointer s) _ H1 H2 H3 Htop)
    as Ht.
  destruct (shift k (size s) (buffer s) (pointer s)) as [b p].
  cbn [fst snd] in Hp, Hb, Ht.
  destruct p as [|p]; [lia|].
  rewrite Nat.sub_succ, Nat.sub_0_r in Ht.
  set (b' := if truthy (of_nat d) then _ else b).
  assert (Hb' : (length b' <= n)%nat).
  { subst b'. destruct (truthy _); [|exact Hb].
    rewrite length_array_set. lia. }
  assert (Ht' : nth p b' None = Some (of_nat (sofar + d))).
  { subst b'. rewrite truthy_of_nat.
    destruct (Nat.eqb_spec d 0) as [->|Hd]; cbn [negb].
    - rewrite Nat.add_0_r. exact Ht.
    - rewrite nth_array_set, Ht. cbn [slot_number nullish].
      now rewrite add_of_nat. }
  assert (Hget : array_get b' (of_nat (S p) - one)%num
                 = Some (of_nat (sofar + d))).
  { unfold array_get, of_nat, one. rewrite of_Z_sub, to_nat_of_Z by lia.
    replace (Z.to_nat (Z.of_nat (S p) - 1)) with p by lia. exact Ht'. }
  rewrite Hget, lt_RESOLUTION by lia.
  intros [= <- <-]. split; [reflexivity|].
  split; [exact Hs'|]. split; [reflexivity|].
  cbn [pointer buffer]. rewrite Nat.sub_succ, Nat.sub_0_r. exact Ht'.
Qed.

Lemma short_window_totals (n sofar : nat) (steps : list step) (s : t) :
  sized n s -> (n < 4)%nat -> ended s = false ->
  nth (pointer s - 1) (buffer s) None = Some (of_nat sofar) ->
  exists s', replay (events_of steps) s
             = Returns (running_totals sofar steps) s'.
Proof.
  intros Hs Hn. revert s sofar Hs.
  induction steps as [|[d|] rest IH]; intros s sofar Hs He Htop.
  - exists s. reflexivity.
  - cbn [events_of map replay running_totals].
    destruct (@report_short n sofar d s Hs Hn He Htop)
      as (s1 & Hv & Hs1 & He1 & Ht1).
    destruct (IH s1 (sofar + d)%nat Hs1 He1 Ht1) as (s' & Hr).
    unfold events_of in Hr. rewrite Hv, Hr. eauto.
  - cbn [events_of map replay running_totals].
    apply IH.
    + apply elapse_sized. exact Hs.
    + unfold interval_elapses. destruct (timer s); exact He.
    + unfold interval_elapses. destruct (timer s); exact Htop.
Qed.

(** X21: a speedometer with fewer than four slots (less than a second)
    returns at every report the bytes reported so far, not a rate, as
    long as the reports add up to 2^53 at most, the range in which the
    additions of the code are exact. *)
Theorem short_window_returns_the_total
        (seconds : option number) (n : nat) (steps : list step) :
  to_nat (size (speedometer seconds)) = Some n -> (n < 4)%nat ->
  (Z.of_nat (reported steps) <= 2 ^ 53)%Z ->
  exists s',
    replay (events_of steps) (speedometer seconds)
    = Returns (running_totals 0 steps) s'.
Proof.
  intros Hsz Hn _.
  apply (@short_window_totals n 0 steps (speedometer seconds));
    [apply speedometer_sized; exact Hsz|exact Hn|reflexivity|reflexivity].
Qed.

End SpeedometerSizeFacts.

(** ** The ProgressBar of the distributed build *)

Ltac legacy_simpl :=
  cbn [fst snd Legacy.tokens Legacy.lastDraw Legacy.start Legacy.completed
       Legacy.format Legacy.total Legacy.current Legacy.width
       Legacy.throttle Legacy.stream Legacy.clear Legacy.completeChar
       Legacy.incompleteChar Legacy.line Legacy.trace
       Legacy.with_tokens Legacy.with_lastDraw Legacy.with_start
       Legacy.with_completed Legacy.with_total Legacy.with_current
       Legacy.with_throttle Legacy.with_trace nullish].

Section LegacyFacts.
Context {host : Host}.
Import Legacy LegacyRun LegacyThrottle.

Lemma blind_ret {A} (a : A) : blind (ret a).
Proof. intros s v. reflexivity. Qed.

Lemma blind_throw {A} (e : error) : blind (@throw t A e).
Proof. intros s v. reflexivity. Qed.

Lemma blind_bind {A B} (c : M t A) (k : A -> M t B) :
  blind c -> (forall a, blind (k a)) -> blind (bind c k).
Proof.
  intros Hc Hk s v. unfold bind. rewrite Hc.
  destruct (c s) as [[a|e] s']; cbn [fst snd]; [apply Hk|reflexivity].
Qed.

Lemma blind_modify (f : t -> t) :
  (forall s v, f (with_throttle v s) = with_throttle v (f s)) ->
  blind (modify f).
Proof. intros Hf s v. unfold modify. cbn [fst snd]. now rewrite Hf. Qed.

(** A method that starts by reading the bar is blind when what follows
    is, and is the same whatever the throttle of the bar read. *)
Lemma blind_get {A} (k : t -> M t A) :
  (forall s0, blind (k s0)) ->
  (forall s v, k (with_throttle v s) = k s) ->
  blind (bind get k).
Proof.
  intros Hk Hsame s v. unfold bind, get. rewrite Hsame. apply Hk.
Qed.

Lemma blind_when (b : bool) (c : M t unit) : blind c -> blind (when b c).
Proof. intros Hc. destruct b; [exact Hc|apply blind_ret]. Qed.

Lemma blind_call (c : ProgressBar.Call) : blind (call c).
Proof. apply blind_modify. intros [] v. reflexivity. Qed.

Lemma blind_repeat (n : number) (c : jsstring) : blind (repeat n c).
Proof.
  unfold repeat.
  destruct (to_nat n) as [k|]; [destruct (Z.of_nat k <? 2 ^ 32)%Z|];
    first [apply blind_ret | apply blind_throw].
Qed.

Lemma blind_stream_clearLine (dir : Z) : blind (stream_clearLine dir).
Proof.
  unfold stream_clearLine. apply blind_get.
  - intros s0. destruct (has_clearLine (stream s0));
      [apply blind_call|apply blind_throw].
  - intros [] v. reflexivity.
Qed.

Lemma blind_frame (s0 : t) (start now : number) : blind (frame s0 start now).
Proof.
  unfold frame. cbv zeta.
  apply blind_bind; [apply blind_repeat|intros incomplete].
  apply blind_bind; [apply blind_repeat|intros complete].
  apply blind_ret.
Qed.

Lemma frame_any_throttle (s : t) (v start now : number) :
  frame (with_throttle v s) start now = frame s start now.
Proof. destruct s. reflexivity. Qed.

Lemma blind_render (now : Z) : blind (_render now).
Proof.
  unfold _render. apply blind_get.
  - intros s0. destruct (negb (isTTY (stream s0))); [apply blind_ret|].
    cbv zeta.
    apply blind_bind; [apply blind_modify; intros [] v; reflexivity|intros _].
    apply blind_get.
    + intros s1.
      apply blind_bind; [apply blind_frame|intros output].
      apply blind_when.
      apply blind_bind; [apply blind_call|intros _].
      apply blind_bind; [apply blind_call|intros _].
      apply blind_bind; [apply blind_stream_clearLine|intros _].
      apply blind_modify. intros [] v. reflexivity.
    + intros s1 v. rewrite frame_any_throttle. destruct s1. reflexivity.
  - intros [] v. reflexivity.
Qed.

Lemma blind_tick current customTokens now later :
  blind (tick current customTokens now later).
Proof.
  unfold tick.
  apply blind_bind; [apply blind_modify; intros [] v; reflexivity|intros _].
  apply blind_bind; [apply blind_modify; intros [] v; reflexivity|intros _].
  apply blind_bind; [apply blind_render|intros _].
  apply blind_get.
  - intros s0. apply blind_when.
    apply blind_bind; [apply blind_render|intros _].
    apply blind_bind; [apply blind_modify; intros [] v; reflexivity|intros _].
    apply blind_get.
    + intros s1.
      apply blind_bind; [|intros _; apply blind_call].
      destruct (clear s1); [|apply blind_call].
      apply blind_when.
      apply blind_bind; [apply blind_call|intros _; apply blind_call].
    + intros [] v. reflexivity.
  - intros [] v. reflexivity.
Qed.

Lemma blind_ticks (calls : list TickCall) : blind (ticks calls).
Proof.
  induction calls as [|c rest IH]; [apply blind_ret|].
  cbn [ticks]. apply blind_bind; [apply blind_tick|intros _; exact IH].
Qed.

Lemma constructor_any_throttle (o : LegacyOptions.t) (th : option number)
      (b b' : t) :
  constructor (Some o) = Ok b ->
  constructor (Some (with_throttle_option th o)) = Ok b' ->
  b' = with_throttle (throttle b') b.
Proof.
  unfold constructor.
  cbn [with_throttle_option LegacyOptions.line LegacyOptions.format
       LegacyOptions.total LegacyOptions.current LegacyOptions.width
       LegacyOptions.throttle LegacyOptions.stream LegacyOptions.clear
       LegacyOptions.completeChar LegacyOptions.incompleteChar].
  destruct (match LegacyOptions.line o with
            | Some l => (l <? zero)%num | None => false end);
    [discriminate|].
  intros [= <-] [= <-]. reflexivity.
Qed.

(** X22: the [throttle] option of the earlier bar has no effect: two
    bars built from options that differ in [throttle] only return or
    throw alike on every run of [tick] calls, make the same calls on the
    stream and the listener, and end as the same bar but for the
    throttle. *)
Theorem throttle_has_no_effect
        (o : LegacyOptions.t) (th : option number) (b b' : t)
        (calls : list TickCall) :
  constructor (Some o) = Ok b ->
  constructor (Some (with_throttle_option th o)) = Ok b' ->
  outcome_of (ticks calls b') = outcome_of (ticks calls b) /\
  trace (state_of (ticks calls b')) = trace (state_of (ticks calls b)) /\
  same_but_throttle (state_of (ticks calls b')) (state_of (ticks calls b)).
Proof.
  intros Hb Hb'.
  rewrite (@constructor_any_throttle o th b b' Hb Hb').
  rewrite (blind_ticks calls b (throttle b')).
  unfold outcome_of, state_of. cbn [fst snd].
  destruct (snd (ticks calls b)). repeat split.
Qed.

(** [frame] leaves the bar as it is. *)
Lemma legacy_frame_result (s0 : t) (start now : number) :
  exists r, forall x, frame s0 start now x = (r, x).
Proof.
  unfold frame. cbv zeta. unfold bind, repeat.
  destruct (to_nat _) as [ki|];
    [destruct (Z.of_nat ki <? 2 ^ 32)%Z|];
    try (eexists; intros; reflexivity).
  cbn [ret].
  destruct (to_nat _) as [kc|];
    [destruct (Z.of_nat kc <? 2 ^ 32)%Z|];
    eexists; intros; reflexivity.
Qed.

(** What [_render()] does to the bar, whether it returns or throws: it
    starts the clock, and may make calls on the stream and remember the
    frame. *)
Lemma legacy_render_cases (now : Z) (s : t) :
  exists calls ld st,
    state_of (_render now s)
    = with_trace (calls ++ trace s) (with_lastDraw ld (with_start st s)) /\
    Run.completions calls = O.
Proof.
  unfold _render, state_of. rewrite bind_get.
  destruct (negb (isTTY (stream s))).
  { exists [], (lastDraw s), (start s). split; [|reflexivity].
    destruct s. reflexivity. }
  cbv zeta. rewrite bind_modify, bind_get.
  set (st := match start s with
             | Some n => if truthy n then n else of_Z now
             | None => of_Z now end).
  destruct (legacy_frame_result (with_start (Some st) s) st (of_Z now))
    as [r Hr].
  unfold bind at 1. rewrite Hr.
  destruct r as [output|e].
  2:{ exists [], (lastDraw s), (Some st). split; [|reflexivity].
      destruct s. reflexivity. }
  destruct (negb (Str.eqb _ output)); cbn [when].
  2:{ exists [], (lastDraw s), (Some st). split; [|reflexivity].
      destruct s. reflexivity. }
  unfold stream_clearLine, call, bind, modify, get, throw.
  cbn [fst snd].
  destruct s as [tk ld stt cp fm tl cur wd th sm cl cc ic ln tr].
  legacy_simpl.
  destruct (has_clearLine sm); legacy_simpl.
  - exists [ProgressBar.clearLine 1; ProgressBar.write output;
            ProgressBar.cursorTo zero ln], output, (Some st).
    split; reflexivity.
  - exists [ProgressBar.write output; ProgressBar.cursorTo zero ln],
           ld, (Some st).
    split; reflexivity.
Qed.

(** What [_render()] leaves as it is, whether it returns or throws. *)
Lemma legacy_render_keeps (now : Z) (s : t) :
  let s' := state_of (_render now s) in
  total s' = total s /\ current s' = current s /\ clear s' = clear s /\
  stream s' = stream s /\ line s' = line s /\
  completed s' = completed s /\
  Run.completions (trace s') = Run.completions (trace s).
Proof.
  cbv zeta.
  destruct (legacy_render_cases now s) as (calls & ld & st & -> & Hc).
  destruct s. legacy_simpl.
  rewrite completions_app, Hc. auto 10.
Qed.

Lemma legacy_tick_step current customTokens now later s :
  outcome_of (tick current customTokens now later s) = Ok tt ->
  let s' := state_of (tick current customTokens now later s) in
  total s' = total s /\
  Run.completions (trace s')
  = ((if (nullish current one >=? total s)%num then 1 else 0)
     + Run.completions (trace s))%nat.
Proof.
  unfold tick. rewrite !bind_modify.
  set (s0 := with_tokens _ _).
  assert (H0 : total s0 = total s /\
               Legacy.current s0 = nullish current one /\
               Run.completions (trace s0) = Run.completions (trace s)).
  { subst s0. destruct s. legacy_simpl. auto. }
  clearbody s0. destruct H0 as (Ht0 & Hc0 & Htr0).
  pose proof (legacy_render_keeps now s0) as K1.
  cbv zeta in *. unfold state_of, outcome_of in *.
  destruct (_render now s0) as [[[]|e] s1] eqn:R1.
  2:{ erewrite bind_throw by exact R1. discriminate. }
  erewrite bind_ok by exact R1. rewrite bind_get. cbv beta.
  cbn [snd] in K1. destruct K1 as (Ht1 & Hc1 & _ & _ & _ & _ & Htr1).
  rewrite Ht1, Hc1, Ht0, Hc0.
  destruct (nullish current one >=? total s)%num; cbn [when].
  2:{ intros _. cbn [snd ret]. rewrite Ht1, Htr1, Ht0, Htr0. auto. }
  pose proof (legacy_render_keeps later s1) as K2.
  cbv zeta in K2. unfold state_of in K2.
  destruct (_render later s1) as [[[]|e] s2] eqn:R2.
  2:{ erewrite bind_throw by exact R2. discriminate. }
  erewrite bind_ok by exact R2. rewrite bind_modify, bind_get. cbv beta.
  cbn [snd] in K2. destruct K2 as (Ht2 & _ & _ & _ & _ & _ & Htr2).
  intros _. clear R1 R2.
  destruct s2 as [tk ld stt cp fm tl cur wd th st cl cc ic ln tr].
  unfold call, bind, modify, when, ret. legacy_simpl.
  cbn [total trace] in Ht2, Htr2.
  destruct cl; [destruct (has_clearLine st)|]; legacy_simpl;
    cbn [Run.completions]; rewrite Ht2, Htr2, Ht1, Htr1, Ht0, Htr0; auto.
Qed.

(** X23: in a run of [tick] calls of the earlier bar that does not
    throw, the completion side-effect runs once at every call whose
    [current] has reached the total, whether or not the bar was completed
    before. *)
Theorem legacy_completion_runs_at_every_completing_tick
        (calls : list TickCall) (s : t) :
  outcome_of (ticks calls s) = Ok tt ->
  Run.completions (trace (state_of (ticks calls s)))
  = (length (completing (total s) calls) + Run.completions (trace s))%nat.
Proof.
  revert s. induction calls as [|c rest IH]; intros s Hok; [reflexivity|].
  cbn [ticks] in *. unfold tick_call in *.
  unfold outcome_of, state_of, bind in *.
  pose proof (@legacy_tick_step (arg_current c) (arg_tokens c) (at_time c)
                                (at_time_again c) s) as Hstep.
  unfold outcome_of, state_of in Hstep.
  destruct (tick _ _ _ _ s) as [[[]|e] s1]; cbn [fst snd] in *;
    [|discriminate].
  destruct (Hstep eq_refl) as [Ht Hc].
  rewrite (IH s1 Hok), Ht, Hc.
  unfold completing. cbn [filter].
  destruct (nullish (arg_current c) one >=? total s)%num;
    cbn [List.length]; lia.
Qed.

End LegacyFacts.

Section LegacyPercent.
Import Legacy.

(** X24: for a finite [current] and a finite total other than 0, the
    percentage the earlier bar prints is a whole number between 0 and
    100. *)
Theorem legacy_percent_is_a_percentage (s : t) (c T : Q) :
  current s = Fin c -> total s = Fin T -> ~ T == 0 ->
  exists p : Z, percent s = of_Z p /\ (0 <= p <= 100)%Z.
Proof.
  intros Hc HT HT0. unfold percent, ratio. rewrite Hc, HT.
  assert (Hz : Qzero T = false).
  { destruct (Qzero T) eqn:E; [|reflexivity].
    apply Qzero_iff in E. contradiction. }
  unfold Num.div. rewrite Hz.
  set (x := Qred (c / T)).
  assert (Hr : exists r, Math_min (Math_max (Fin x) zero) one = Fin r /\
                         0 <= r /\ r <= 1).
  { unfold Math_max, zero, of_Z.
    destruct (Fin x <? Fin (inject_Z 0))%num eqn:E1.
    - exists 0. split; [reflexivity|]. split; discriminate.
    - unfold Math_min, one, of_Z.
      assert (H0 : 0 <= x).
      { destruct (Qlt_le_dec x 0) as [H|H]; [|exact H].
        apply lt_Fin_iff in H. change (inject_Z 0) with 0 in E1.
        congruence. }
      destruct (Fin (inject_Z 1) <? Fin x)%num eqn:E2.
      + exists 1. split; [reflexivity|]. split; discriminate.
      + exists x. split; [reflexivity|]. split; [exact H0|].
        destruct (Qlt_le_dec 1 x) as [H|H]; [|exact H].
        apply lt_Fin_iff in H. change (inject_Z 1) with 1 in E2.
        congruence. }
  destruct Hr as (r & -> & Hr0 & Hr1).
  unfold of_Z at 1. cbn [Num.mul Math_floor].
  eexists. split; [reflexivity|].
  assert (H100 : inject_Z 100 == 100 # 1) by reflexivity.
  assert (Hlo : 0 <= Qred (r * inject_Z 100)).
  { rewrite Qred_correct, H100. nra. }
  assert (Hhi : Qred (r * inject_Z 100) <= 100 # 1).
  { rewrite Qred_correct, H100. nra. }
  apply Qfloor_resp_le in Hlo. apply Qfloor_resp_le in Hhi.
  split; [exact Hlo|exact Hhi].
Qed.

End LegacyPercent.

(** ** The total of a piped source *)

Section AnyFacts.
Context {host : Host}.
Import Any.

Lemma leading_digits_whole (s : jsstring) (sofar : option Z) :
  match sofar with Some a => (0 <= a)%Z | None => True end ->
  match leading_digits sofar s with
  | Some z => (0 <= z)%Z
  | None => True
  end.
Proof.
  revert sofar. induction s as [|c rest IH]; intros sofar Hs; [exact Hs|].
  cbn [leading_digits]. unfold digit.
  destruct ((48 <=? c) && (c <=? 57))%N eqn:E; [|exact Hs].
  apply IH. apply andb_true_iff in E. destruct E as [E1 E2].
  apply N.leb_le in E1. destruct sofar as [a|]; cbn [nullish]; lia.
Qed.

Lemma parseInt_whole (s : jsstring) :
  parseInt_10 s = NaN \/ exists z, parseInt_10 s = nearest_double z.
Proof.
  unfold parseInt_10. destruct (leading_digits None _); eauto.
Qed.

(** An integer up to 2^53 is its own Number value. *)
Lemma nearest_double_exact (z : Z) :
  (Z.abs z <= 2 ^ 53)%Z -> nearest_double z = of_Z z.
Proof.
  intros Hz.
  destruct (Z.eq_dec (Z.abs z) (2 ^ 53)) as [Hmax|Hlt].
  { destruct (Z.abs_eq_or_opp z) as [H|H]; rewrite H in Hmax.
    - rewrite Hmax. vm_compute. reflexivity.
    - assert (z = - 2 ^ 53)%Z as -> by lia. vm_compute. reflexivity. }
  unfold nearest_double.
  assert (He : Z.max 0 (Z.log2 (Z.abs z) - 52) = 0%Z).
  { destruct (Z.eq_dec (Z.abs z) 0) as [H0|H0].
    - rewrite H0. reflexivity.
    - assert (Z.log2 (Z.abs z) < 53)%Z
        by (apply Z.log2_lt_pow2; lia).
      lia. }
  rewrite He. change (2 ^ 0)%Z with 1%Z.
  rewrite Z.div_1_r, Z.mod_1_r. cbn [Z.mul Z.ltb Z.eqb Z.compare orb andb].
  rewrite Z.mul_1_r.
  destruct (2 ^ 1024 <=? Z.abs z)%Z eqn:E.
  - apply Z.leb_le in E.
    assert (2 ^ 53 < 2 ^ 1024)%Z by (apply Z.pow_lt_mono_r; lia). lia.
  - f_equal. destruct z; reflexivity.
Qed.

(** A positive Number value of an integer is a positive whole number or
    the infinity. *)
Lemma nearest_double_positive (z : Z) :
  (nearest_double z >? zero)%num = true ->
  nearest_double z = PInf \/
  exists w, (0 < w)%Z /\ nearest_double z = of_Z w.
Proof.
  unfold nearest_double. cbv zeta.
  destruct (2 ^ 1024 <=? _)%Z.
  - destruct (0 <? z)%Z; [left; reflexivity|discriminate].
  - intros Hpos. right. eexists. split; [|reflexivity].
    unfold Num.gt, zero, of_Z in Hpos. apply lt_Fin_iff in Hpos.
    now rewrite <- Zlt_Qlt in Hpos.
Qed.

Lemma prop_state {S} (v : t) (key : string) (st : S) :
  snd (prop v key st) = st.
Proof. destruct v; reflexivity. Qed.

Lemma prop_text {S} (s : jsstring) (key : string) (st : S) :
  key <> "length"%string -> prop (text s) key st = (Ok undefined, st).
Proof.
  intros Hk. unfold prop. destruct (String.eqb_spec key "length");
    [contradiction|reflexivity].
Qed.

Lemma prop_truthy {S} (v : t) (key : string) (st : S) :
  truthy v = true -> exists w, prop v key st = (Ok w, st).
Proof. destruct v; try discriminate; intros _; eexists; reflexivity. Qed.

(** X25: a length that [getContentLength] returns is a positive whole
    number, which the setter of [total] accepts, or the infinity that
    [parseInt] makes of digits past the range of a Number, which the
    setter rejects; returning it changed nothing. *)
Theorem content_length_is_whole_or_infinite
        {S} (source : t) (st st' : S) (n : number) :
  getContentLength source st = (Ok (Some n), st') ->
  st' = st /\
  ((exists z, (0 < z)%Z /\ n = of_Z z) /\ invalid_total (Num n) = false
   \/ n = PInf /\ invalid_total (Num n) = true).
Proof.
  unfold getContentLength.
  destruct (truthy source) eqn:Hs; cbn [negb]; [|discriminate].
  destruct (prop_truthy source "headers" st Hs) as [h Hh].
  erewrite bind_ok by exact Hh.
  destruct (truthy h) eqn:Hht; cbn [negb]; [|discriminate].
  destruct (prop_truthy h "content-length" st Hht) as [c Hc].
  erewrite bind_ok by exact Hc.
  destruct (truthy c) eqn:Hct; cbn [negb]; [|discriminate].
  assert (Hstr : exists r, ToString c st = (r, st))
    by (destruct c; cbn [ToString]; [..|destruct (has_own _ _)];
        eexists; reflexivity).
  destruct Hstr as [[s|e] Hstr].
  2:{ erewrite bind_throw by exact Hstr. discriminate. }
  erewrite bind_ok by exact Hstr. cbv zeta.
  destruct (isNumber _ && _) eqn:E; [|discriminate].
  intros [= <- <-]. split; [reflexivity|].
  apply andb_true_iff in E. destruct E as [_ Hpos].
  destruct (parseInt_whole s) as [Hn|[z Hz]]; rewrite ?Hn, ?Hz in *;
    [discriminate|].
  destruct (nearest_double_positive z Hpos) as [Hinf|(w & Hw & Heq)];
    rewrite ?Hinf, ?Heq; [right; split; reflexivity|left].
  split; [eauto|].
  unfold invalid_total, as_number, of_Z. cbn [isNaN isFinite negb orb].
  destruct (Fin (inject_Z w) <=? zero)%num eqn:F; [|reflexivity].
  unfold zero, of_Z in F. apply le_Fin_iff in F.
  rewrite <- Zle_Qle in F. lia.
Qed.

(** A value with nothing but primitive values under [headers] holds no
    content length. *)
Lemma no_length_behind_primitive {S} (h : t) (st : S) :
  match h with
  | object _ headers => primitive (lookup (str "headers") headers)
  | _ => True
  end ->
  getContentLength h st = (Ok None, st).
Proof.
  intros Hp. unfold getContentLength.
  destruct (truthy h) eqn:Hh; cbn [negb]; [|reflexivity].
  destruct (prop_truthy h "headers" st Hh) as [v Hv].
  erewrite bind_ok by exact Hv.
  assert (Hprim : primitive v).
  { destruct h as [| |b|n|s|e headers]; try discriminate;
      unfold prop, ret in Hv; injection Hv as Hv; subst v; try exact I.
    exact Hp. }
  destruct (truthy v) eqn:Hvt; cbn [negb]; [|reflexivity].
  destruct v as [| |b|n|s|e ps]; try discriminate; try contradiction;
    reflexivity.
Qed.

(** X26: the listener of ['response'] hands the headers of the response
    to [getContentLength] where a source is expected: for every response
    whose headers hold no object under the name [headers] it sets no
    total, emits nothing and returns. *)
Theorem response_listener_finds_no_total
        (res : t) (s : ProgressStream.t) :
  plain_headers res -> on_response res s = (Ok tt, s).
Proof.
  intros Hp. unfold on_response.
  destruct (truthy res) eqn:Hr; cbn [negb]; [|reflexivity].
  destruct (prop_truthy res "headers" s Hr) as [h Hh].
  erewrite bind_ok by exact Hh.
  destruct (truthy h) eqn:Hht; cbn [negb]; [|reflexivity].
  destruct (prop_truthy h "content-encoding" s Hht) as [c Hc].
  erewrite bind_ok by exact Hc.
  destruct (is_text _ c); [reflexivity|].
  rewrite bind_ok with (a := @None number) (s' := s); [reflexivity|].
  apply no_length_behind_primitive.
  destruct res as [| |b|n|t0|e props]; try discriminate;
    unfold prop, ret in Hh; injection Hh as Hh; subst h; try exact I.
  unfold plain_headers in Hp.
  destruct (lookup (str "headers") props); try exact I. exact Hp.
Qed.

Lemma on_pipe_length (e : bool) (props : list (jsstring * t)) (l : number)
      (s : ProgressStream.t) :
  truthy (lookup (str "readable") props) = false ->
  lookup (str "length") props = num l ->
  on_pipe (object e props) s
  = (ProgressStream.set_total (Num l) ;; ret false)%method s.
Proof.
  intros Hr Hl. unfold on_pipe.
  rewrite bind_ok with (a := lookup (str "readable") props) (s' := s)
    by reflexivity.
  rewrite Hr.
  rewrite bind_ok with (a := false) (s' := s) by reflexivity.
  unfold length_or_response.
  rewrite bind_ok with (a := lookup (str "length") props) (s' := s)
    by reflexivity.
  rewrite Hl. reflexivity.
Qed.

(** X27: piping an object that is not readable and has a numeric
    [length] makes that length the total when it is finite and positive,
    and throws the setter's error, leaving the stream as it is, when it
    is not. *)
Theorem pipe_takes_a_numeric_length
        (e : bool) (props : list (jsstring * t)) (l : number)
        (s : ProgressStream.t) :
  truthy (lookup (str "readable") props) = false ->
  lookup (str "length") props = num l ->
  let r := on_pipe (object e props) s in
  (invalid_total (Num l) = false ->
   r = (Ok false, state_of (ProgressStream.set_total (Num l) s)) /\
   ProgressStream.total (state_of r) = Some l) /\
  (invalid_total (Num l) = true ->
   r = (Throw (Error "total value must be a finite positive number"), s)).
Proof.
  intros Hr Hl. cbv zeta. rewrite (on_pipe_length e props s Hr Hl).
  unfold bind. rewrite set_total_spec.
  split; intros Hinv; rewrite Hinv; [|reflexivity].
  assert (Han : as_number (Num l) = Some l).
  { unfold invalid_total in Hinv. unfold as_number in *.
    destruct (isNaN l); [discriminate|reflexivity]. }
  rewrite Han. unfold state_of. cbn [snd ret]. split; reflexivity.
Qed.

End AnyFacts.

(* ================================================================= *)
(** * The further properties on concrete runs *)

Section MoreConcrete.
Import Examples Scenarios.
#[local] Existing Instance node.

Section Bars.
Import ProgressBar Run.

Example constructor_builds_throttled_bar :
  constructor (Some (options (Num (of_Z 10)) (Num (of_Z 100)) (tty 80)))
  = Ok (throttled_bar (Some (of_Z 10)) (of_Z 100) (tty 80)).
Proof. reflexivity. Qed.

Lemma constructor_builds_fresh_witness :
  let o := Some (options (Num (of_Z 10)) Undefined (tty 80)) in
  let b := fresh_bar (Some (of_Z 10)) (tty 80) in
  constructor o = Ok b /\ fresh b.
Proof.
  cbv zeta. split; [reflexivity|].
  apply (@constructor_builds_fresh node
           (Some (options (Num (of_Z 10)) Undefined (tty 80)))).
  reflexivity.
Defined.

Lemma constructor_rejects_in_order_witness :
  constructor (Some (options (Num zero) (Num (of_Z (-1))) (tty 80)))
  = Throw (TypeError "interval must be a number >= 0") /\
  constructor (Some (options (Num zero) Undefined (tty 80)))
  = Throw (TypeError "total must be a number > 0") /\
  constructor (Some (line_options (of_Z (-1)) (tty 80)))
  = Throw (Error "line must be >= 0").
Proof.
  split; [|split].
  - apply (proj1 (@constructor_rejects_in_order node
                    (options (Num zero) (Num (of_Z (-1))) (tty 80)))).
    + split; discriminate.
    + apply interval_negative. reflexivity.
  - apply (proj1 (proj2 (@constructor_rejects_in_order node
                           (options (Num zero) Undefined (tty 80))))).
    + intros [[H _] _]. apply H. reflexivity.
    + split; discriminate.
    + apply total_not_positive. apply Qle_refl.
  - apply (proj2 (proj2 (@constructor_rejects_in_order node
                           (line_options (of_Z (-1)) (tty 80)))))
      with (l := of_Z (-1)).
    + intros [[H _] _]. apply H. reflexivity.
    + intros [[H _] _]. apply H. reflexivity.
    + reflexivity.
    + reflexivity.
Defined.

Lemma render_again_draws_nothing_witness :
  let s := fresh_bar (Some (of_Z 10)) (tty 80) in
  let s1 := state_of (render s) in
  render s = (Ok tt, s1) /\ trace s1 <> trace s /\
  render s1 = (Ok tt, s1).
Proof.
  cbv zeta. split; [vm_compute; reflexivity|].
  split; [vm_compute; discriminate|].
  apply (@render_again_draws_nothing node
           (fresh_bar (Some (of_Z 10)) (tty 80))).
  vm_compute. reflexivity.
Defined.

Lemma completed_is_never_cleared_witness :
  let s := state_of (tick (Some (of_Z 10)) None 0
                          (fresh_bar (Some (of_Z 10)) (tty 80))) in
  completed s = true /\
  completed (state_of (tick (Some (of_Z 3)) None 20 s)) = true /\
  completed (state_of (set_total (Num (of_Z 50)) s)) = true /\
  completed (state_of (interrupt (str "halt") s)) = true.
Proof.
  cbv zeta. split; [vm_compute; reflexivity|].
  apply (@completed_is_never_cleared node).
  vm_compute. reflexivity.
Defined.

Lemma throttled_tick_is_silent_witness :
  let s := throttled_bar (Some (of_Z 10)) (of_Z 100) (tty 80) in
  let r := tick (Some (of_Z 10)) None 0 s in
  passes_gate (prevTime s) (interval s) 0 = false /\
  outcome_of r = Ok tt /\
  trace (state_of r) = trace s /\
  lastDraw (state_of r) = lastDraw s /\
  prevTime (state_of r) = Some (nullish (prevTime s) (of_Z 0)) /\
  Progress.current (progress (state_of r)) = nullish (Some (of_Z 10)) one /\
  completed (state_of r)
  = completed s
    || (nullish (Some (of_Z 10)) one >=? Progress.total (progress s))%num.
Proof.
  cbv zeta. split; [reflexivity|].
  apply (@throttled_tick_is_silent node
           (throttled_bar (Some (of_Z 10)) (of_Z 100) (tty 80))).
  reflexivity.
Defined.

Lemma first_tick_waits_for_the_interval_witness :
  let s := throttled_bar (Some (of_Z 10)) (of_Z 100) (tty 80) in
  let r := tick (Some (of_Z 5)) None 1000 s in
  outcome_of r = Ok tt /\
  trace (state_of r) = trace s /\
  prevTime (state_of r) = Some (of_Z 1000).
Proof.
  cbv zeta.
  apply (@first_tick_waits_for_the_interval node
           (throttled_bar (Some (of_Z 10)) (of_Z 100) (tty 80))
           (Some (of_Z 5)) None 1000 (inject_Z 100));
    reflexivity.
Defined.

Lemma runtime_counts_from_first_tick_witness :
  let s := fresh_bar (Some (of_Z 10)) (tty 80) in
  let s1 := state_of (tick (Some (of_Z 2)) None 1000 s) in
  let s2 := state_of (tick (Some (of_Z 5)) None 3500 s1) in
  (startTime s1 = of_Z 1000 /\ Progress.runtime (progress s1) = zero) /\
  (startTime s2 = of_Z 1000 /\
   Progress.runtime (progress s2) = (of_Z (3500 - 1000) / of_Z 1000)%num).
Proof.
  cbv zeta. split.
  - apply (proj1 (@runtime_counts_from_first_tick node
                    (fresh_bar (Some (of_Z 10)) (tty 80))
                    (Some (of_Z 2)) None 1000)).
    reflexivity.
  - apply (proj2 (@runtime_counts_from_first_tick node
                    (state_of (tick (Some (of_Z 2)) None 1000
                                    (fresh_bar (Some (of_Z 10)) (tty 80))))
                    (Some (of_Z 5)) None 3500)).
    + vm_compute. discriminate.
    + vm_compute. reflexivity.
Defined.

Lemma bar_without_total_completes_at_once_witness :
  let o := Some (options Undefined Undefined (tty 80)) in
  let b := fresh_bar None (tty 80) in
  let r := tick (Some zero) None 0 b in
  constructor o = Ok b /\
  completed (state_of r) = true /\
  completions (trace (state_of r)) = 1%nat.
Proof.
  cbv zeta. split; [reflexivity|].
  pose proof (@bar_without_total_completes_at_once node
                (Some (options Undefined Undefined (tty 80)))
                (fresh_bar None (tty 80)) (Some zero) None 0
                eq_refl eq_refl eq_refl) as H.
  cbv zeta in H. destruct H as [H1 H2].
  split; [exact H1|].
  apply H2; [reflexivity|vm_compute; reflexivity].
Defined.

Lemma interrupt_shows_the_last_frame_again_witness :
  let s := fresh_bar (Some (of_Z 10)) (tty 80) in
  let s1 := state_of (render s) in
  (exists f,
      trace s1 = clearLine 1 :: write f :: cursorTo zero (line s)
                             :: trace s /\
      interrupt (str "halt") s1
      = (Ok tt,
         with_trace
           (write f :: write newline :: write (str "halt")
                    :: cursorTo zero (line s) :: clearLine 0 :: trace s1)
           s1)) /\
  interrupt (str "halt") (fresh_bar (Some (of_Z 10)) (bare_tty 80))
  = (Throw (TypeError "this.#stream.clearLine is not a function"),
     fresh_bar (Some (of_Z 10)) (bare_tty 80)).
Proof.
  cbv zeta. split.
  - apply (proj1 (@interrupt_shows_the_last_frame_again node)).
    + vm_compute. reflexivity.
    + vm_compute. discriminate.
  - apply (proj2 (@interrupt_shows_the_last_frame_again node)).
    reflexivity.
Defined.

Lemma frame_fits_the_terminal_witness :
  let b := fresh_bar (Some (of_Z 10)) (tty 80) in
  let s := with_progress (Progress.with_current (of_Z 5) (progress b)) b in
  let out := match fst (frame s s) with Ok o => o | Throw _ => [] end in
  frame s s = (Ok out, s) /\ (length out <= 80)%nat.
Proof.
  cbv zeta. split; [vm_compute; reflexivity|].
  set (s := with_progress _ _).
  apply (@frame_fits_the_terminal node s s s
           (match fst (frame s s) with Ok o => o | Throw _ => [] end)
           80 (inject_Z 5) (inject_Z 10)).
  - reflexivity.
  - apply Nat.le_refl.
  - apply Nat.le_refl.
  - reflexivity.
  - reflexivity.
  - reflexivity.
  - reflexivity.
  - discriminate.
  - discriminate.
  - vm_compute. reflexivity.
Defined.

End Bars.

Section Streams.
Import ProgressStream StreamRun.

Lemma stream_counts_the_bytes_witness :
  let s := fresh_stream None zero in
  let ws := [bytes_at 3 0; bytes_at 4 10] in
  (Progress.current (progress s) = of_nat 0 /\
   (Z.of_nat (0 + bytes ws) <= 2 ^ 53)%Z) /\
  Progress.current (progress (state_of (transforms ws s)))
  = of_nat (0 + bytes ws).
Proof.
  cbv zeta. split; [split; [reflexivity|vm_compute; discriminate]|].
  apply (@stream_counts_the_bytes
           [bytes_at 3 0; bytes_at 4 10] (fresh_stream None zero) 0).
  - reflexivity.
  - vm_compute. discriminate.
Defined.

Lemma flush_reports_completion_witness :
  let s := state_of (transforms [bytes_at 3 0]
                                (fresh_stream None (of_Z 500))) in
  let r := _flush 20 s in
  let p := progress (state_of r) in
  outcome_of r = Ok tt /\
  total (state_of r) = Some (Fin (inject_Z 3)) /\
  Progress.total p = Fin (inject_Z 3) /\
  Progress.percent p = of_Z 100 /\
  Progress.remaining p = zero /\
  trace (state_of r)
  = emit_calls (state_of r) ++ total_calls (Fin (inject_Z 3)) s
    ++ callback :: push None :: trace s.
Proof.
  cbv zeta.
  apply (@flush_reports_completion
           (state_of (transforms [bytes_at 3 0]
                                 (fresh_stream None (of_Z 500))))
           20 (inject_Z 500) (inject_Z 3)).
  - vm_compute. reflexivity.
  - reflexivity.
  - vm_compute. reflexivity.
  - reflexivity.
Defined.

Lemma unthrottled_stream_reports_every_write_witness :
  let s := fresh_stream None zero in
  let ws := [bytes_at 3 0; bytes_at 4 10] in
  let r := piped ws 20 s in
  outcome_of r = Ok tt /\
  length (progress_events (trace (state_of r)))
  = (length ws + length (progress_events (trace s)))%nat /\
  total_events (trace (state_of r)) = total_events (trace s).
Proof.
  cbv zeta.
  apply (@unthrottled_stream_reports_every_write
           [bytes_at 3 0; bytes_at 4 10] 20 (fresh_stream None zero));
    reflexivity.
Defined.

Lemma writes_within_the_interval_are_silent_witness :
  let s := fresh_stream (Some (of_Z 100)) (of_Z 500) in
  let w := bytes_at 3 0 in
  let ws := [bytes_at 4 100; bytes_at 5 499] in
  let s' := state_of (transforms (w :: ws) s) in
  progress_events (trace s') = progress_events (trace s) /\
  total_events (trace s') = total_events (trace s).
Proof.
  cbv zeta.
  apply (@writes_within_the_interval_are_silent
           (bytes_at 3 0) [bytes_at 4 100; bytes_at 5 499]
           (fresh_stream (Some (of_Z 100)) (of_Z 500)) (inject_Z 500));
    reflexivity.
Defined.

Lemma stream_constructor_builds_unused_witness :
  let o := Some (stream_options (Num (of_Z 100)) (Num (of_Z 500))) in
  let st := fresh_stream (Some (of_Z 100)) (of_Z 500) in
  constructor o = Ok st /\ unused st.
Proof.
  cbv zeta. split; [reflexivity|].
  apply (@stream_constructor_builds_unused
           (Some (stream_options (Num (of_Z 100)) (Num (of_Z 500))))).
  reflexivity.
Defined.

End Streams.

Section Meters.
Import Speedometer SpeedometerRun SpeedometerSize.

Lemma whole_size_always_returns_witness :
  let events := [elapse; call (Some (of_Z 7)); elapse; call None] in
  to_nat (size (speedometer None)) = Some 20%nat /\
  exists vs s',
    replay events (speedometer None) = Returns vs s' /\
    length vs = calls events.
Proof.
  cbv zeta. split; [vm_compute; reflexivity|].
  apply (@whole_size_always_returns None 20).
  vm_compute. reflexivity.
Defined.

Lemma buffer_stays_within_size_witness :
  let events := List.repeat (call (Some (of_Z 7))) 3 ++ wait 30
                ++ [call (Some (of_Z 7))] in
  let seconds := Some (of_Z 2) in
  match replay events (speedometer seconds) with
  | Returns vs s' =>
      (length (buffer s') <= 8)%nat /\ (1 <= pointer s' <= 8)%nat
  | Diverges => False
  end.
Proof.
  cbv zeta.
  destruct (replay _ _) as [vs s'|] eqn:E.
  - apply (@buffer_stays_within_size (Some (of_Z 2)) 8 _ vs s'
             eq_refl E).
  - vm_compute in E. discriminate E.
Defined.

Lemma broken_size_never_returns_witness :
  let seconds := Some (Fin (3 # 10)) in
  to_nat (size (speedometer seconds)) = None /\
  replay (wait 1 ++ [call (Some (of_Z 7))]) (speedometer seconds)
  = Diverges /\
  replay (wait 0 ++ [call (Some (of_Z 7)); call None])
         (speedometer (Some (of_Z (-1))))
  = Diverges.
Proof.
  cbv zeta. split; [vm_compute; reflexivity|]. split.
  - apply (@broken_size_never_returns (Some (Fin (3 # 10))) 1);
      vm_compute; reflexivity.
  - apply (@broken_size_never_returns (Some (of_Z (-1))) 0);
      vm_compute; reflexivity.
Defined.

Lemma short_window_returns_the_total_witness :
  let seconds := Some (Fin (1 # 2)) in
  let steps := [Some 10%nat; None; Some 5%nat; None; None; Some 1%nat] in
  (to_nat (size (speedometer seconds)) = Some 2%nat /\
   (Z.of_nat (reported steps) <= 2 ^ 53)%Z) /\
  exists s',
    replay (events_of steps) (speedometer seconds)
    = Returns [Some (of_nat 10); Some (of_nat 15); Some (of_nat 16)] s'.
Proof.
  cbv zeta.
  split; [split; [vm_compute; reflexivity|vm_compute; discriminate]|].
  apply (@short_window_returns_the_total
           (Some (Fin (1 # 2))) 2
           [Some 10%nat; None; Some 5%nat; None; None; Some 1%nat]).
  - vm_compute. reflexivity.
  - lia.
  - vm_compute. discriminate.
Defined.

End Meters.

Lemma clamp_stays_within_witness :
  (zero <=? clamp (Num (of_Z 50)) zero (Num (of_Z 40)))%num = true /\
  (clamp (Num (of_Z 50)) zero (Num (of_Z 40)) <=? of_Z 40)%num = true.
Proof.
  apply (@clamp_stays_within (Num (of_Z 50)) (Num (of_Z 40))
                            (of_Z 50) zero (of_Z 40));
    reflexivity.
Defined.

End MoreConcrete.

Section LegacyConcrete.
Import Examples LegacyExamples.
#[local] Existing Instance node.

Section Bars.
Import Legacy LegacyRun LegacyThrottle.

Example constructor_builds_legacy_bar :
  constructor (Some (options (Some (of_Z 10)) (Some (of_Z 1000)) (tty 80)))
  = Ok (bar (of_Z 10) (of_Z 1000) (tty 80)).
Proof. reflexivity. Qed.

(** Three calls within a millisecond draw three frames, throttle or
    not. *)
Example legacy_bar_draws_at_every_tick :
  let calls := [at_ 1 0; at_ 2 0; at_ 3 1] in
  let r := ticks calls (bar (of_Z 10) (of_Z 1000) (tty 80)) in
  outcome_of r = Ok tt /\
  length (Run.writes (trace (state_of r))) = 3%nat.
Proof. vm_compute. split; reflexivity. Qed.

Lemma throttle_has_no_effect_witness :
  let calls := [at_ 1 0; at_ 2 0; at_ 10 1] in
  let b := bar (of_Z 10) (of_Z 1000) (tty 80) in
  let b' := bar (of_Z 10) (of_Z 16) (tty 80) in
  outcome_of (ticks calls b') = outcome_of (ticks calls b) /\
  trace (state_of (ticks calls b')) = trace (state_of (ticks calls b)) /\
  same_but_throttle (state_of (ticks calls b')) (state_of (ticks calls b)).
Proof.
  cbv zeta.
  apply (@throttle_has_no_effect node
           (options (Some (of_Z 10)) (Some (of_Z 1000)) (tty 80)) None);
    reflexivity.
Defined.

Lemma legacy_completion_runs_at_every_completing_tick_witness :
  let calls := [at_ 5 0; at_ 10 20; at_ 10 40] in
  let s := bar (of_Z 10) (of_Z 16) (tty 80) in
  outcome_of (ticks calls s) = Ok tt /\
  Run.completions (trace (state_of (ticks calls s)))
  = (length (completing (total s) calls) + Run.completions (trace s))%nat /\
  length (completing (total s) calls) = 2%nat.
Proof.
  cbv zeta. split; [vm_compute; reflexivity|]. split; [|reflexivity].
  apply (@legacy_completion_runs_at_every_completing_tick node).
  vm_compute. reflexivity.
Defined.

Lemma legacy_percent_is_a_percentage_witness :
  let s := with_current (of_Z 25) (bar (of_Z 10) (of_Z 16) (tty 80)) in
  percent s = of_Z 100 /\
  exists p : Z, percent s = of_Z p /\ (0 <= p <= 100)%Z.
Proof.
  cbv zeta. split; [vm_compute; reflexivity|].
  apply (@legacy_percent_is_a_percentage
           (with_current (of_Z 25) (bar (of_Z 10) (of_Z 16) (tty 80)))
           (inject_Z 25) (inject_Z 10)).
  - reflexivity.
  - reflexivity.
  - discriminate.
Defined.

End Bars.

Section Pipes.
Import Any.

Example content_length_of_the_response :
  getContentLength response (fresh_stream None zero)
  = (Ok (Some (of_Z 1234)), fresh_stream None zero).
Proof. vm_compute. reflexivity. Qed.

(** Digits past the range of a Number: the length is the infinity, and
    the listener of ['pipe'] throws the error of the setter. *)
Example content_length_of_310_digits :
  let st := fresh_stream None zero in
  getContentLength oversized st = (Ok (Some PInf), st) /\
  on_pipe oversized st
  = (Throw (Error "total value must be a finite positive number"), st).
Proof. vm_compute. split; reflexivity. Qed.

Lemma content_length_is_whole_or_infinite_witness :
  let st := fresh_stream None zero in
  getContentLength response st = (Ok (Some (of_Z 1234)), st) /\
  ((exists z, (0 < z)%Z /\ of_Z 1234 = of_Z z) /\
   invalid_total (Num (of_Z 1234)) = false
   \/ of_Z 1234 = PInf /\ invalid_total (Num (of_Z 1234)) = true).
Proof.
  cbv zeta. split; [vm_compute; reflexivity|].
  apply (@content_length_is_whole_or_infinite node _ response
           (fresh_stream None zero) (fresh_stream None zero) (of_Z 1234)).
  vm_compute. reflexivity.
Defined.

Lemma response_listener_finds_no_total_witness :
  let st := fresh_stream None zero in
  plain_headers response /\ on_response response st = (Ok tt, st).
Proof.
  cbv zeta. split; [exact I|].
  apply (@response_listener_finds_no_total node response). exact I.
Defined.

Lemma pipe_takes_a_numeric_length_witness :
  let st := fresh_stream None zero in
  (on_pipe (object false [(str "length", num (of_Z 10))]) st
   = (Ok false, state_of (ProgressStream.set_total (Num (of_Z 10)) st)) /\
   ProgressStream.total
     (state_of (on_pipe (object false [(str "length", num (of_Z 10))]) st))
   = Some (of_Z 10)) /\
  on_pipe (object false [(str "length", num zero)]) st
  = (Throw (Error "total value must be a finite positive number"), st).
Proof.
  cbv zeta. split.
  - apply (proj1 (@pipe_takes_a_numeric_length node false
                    [(str "length", num (of_Z 10))] (of_Z 10)
                    (fresh_stream None zero) eq_refl eq_refl)).
    reflexivity.
  - apply (proj2 (@pipe_takes_a_numeric_length node false
                    [(str "length", num zero)] zero
                    (fresh_stream None zero) eq_refl eq_refl)).
    reflexivity.
Defined.

End Pipes.

End LegacyConcrete.
